(** * ChaosChain ACE session-key SDK: session ledger, x402 interceptor and
      demo origin, embedded in Rocq.

    Sources embedded here:
    - [packages/session-key-sdk/src/session.ts]: canonical JSON, the hash
      derivations, the session store and the [SessionKey] ledger;
    - [packages/session-key-sdk/src/x402-interceptor.ts]: challenge
      extraction and the retry state machine;
    - the demo compute origin (request handler and payment ledger).

    Modelling conventions.
    - JavaScript numbers that carry micro-USDC amounts, HTTP status codes and
      epoch milliseconds are integers of [Z]; fractional numbers and
      infinities are outside the model.  The cumulative spend, which the
      ledger computes, is an integer or [NaN].
    - Strings are [string]; every character is one code unit below 256.
    - A JavaScript object used as a dictionary ([pendingAttempts], HTTP
      headers) and the origin's [Map] are [gmap]s over their own entries; a
      property read [o[k]] with a key chosen by the caller also sees what
      the object inherits from [Object.prototype].  An object whose key
      order is observable (the argument and the result of [canonicalJson])
      is the list of its own enumerable properties in enumeration order.
    - Functions of the host platform (collation, SHA-256, HMAC, URL and date
      parsing, base64/JSON codecs, signature recovery) are the fields of the
      class [Host]; every statement is made for an arbitrary host.
    - Code that throws returns [Throw]; code that mutates [this.state], the
      store, or calls the wallet threads the state explicitly. *)

From Stdlib Require Import ZArith Lia Ascii String List Sorted Permutation.
From Stdlib Require Import DecimalString.
From stdpp Require Import base option strings list gmap sorting.

Set Warnings "-register-all".
Local Open Scope string_scope.
Local Open Scope list_scope.
Local Open Scope Z_scope.

(** ** Wire types and host platform *)

Module PaymentChallenge.
(** [interface PaymentChallenge]; [mac?: string] is [None] when the
    property is absent or [undefined]. *)
Record t := mk {
  version : string;
  challengeId : string;
  resource : string;
  method : string;
  amountMicrousdc : Z;
  currency : string;
  issuedAt : string;
  expiresAt : string;
  nonce : string;
  mac : option string
}.
End PaymentChallenge.

Module UnsignedPayment.
Record t := mk {
  version : string;
  sessionId : string;
  payer : string;
  challengeId : string;
  challenge : PaymentChallenge.t;
  idempotencyKey : string;
  requestHash : string;
  challengeHash : string;
  amountMicrousdc : Z;
  currency : string;
  sessionExpiresAt : string;
  issuedAt : string
}.
End UnsignedPayment.

Module SignedPayment.
(** [interface SignedPayment extends UnsignedPayment]. *)
Record t := mk {
  unsigned : UnsignedPayment.t;
  signature : string
}.
Definition idempotencyKey (p : t) : string :=
  UnsignedPayment.idempotencyKey (unsigned p).
Definition amountMicrousdc (p : t) : Z :=
  UnsignedPayment.amountMicrousdc (unsigned p).
Definition payer (p : t) : string := UnsignedPayment.payer (unsigned p).
Definition requestHash (p : t) : string :=
  UnsignedPayment.requestHash (unsigned p).
End SignedPayment.

Module X402PaymentRequiredAccept.
(** Only [extra?.challenge] is read by the interceptor. *)
Record t := mk { extra_challenge : option PaymentChallenge.t }.
End X402PaymentRequiredAccept.

Module X402PaymentRequired.
Record t := mk { accepts : list X402PaymentRequiredAccept.t }.
End X402PaymentRequired.

Module PaymentRequiredBody.
Record t := mk { challenge : option PaymentChallenge.t }.
End PaymentRequiredBody.

(** The functions the code takes from Node, ICU and ethers.  [None] stands
    for a thrown exception, except in [getTime] where it stands for [NaN]. *)
Class Host := {
  (** [a.localeCompare(b)]: negative, zero or positive. *)
  localeCompare : string -> string -> Z;
  (** [createHash("sha256").update(s).digest("hex")]. *)
  sha256 : string -> string;
  (** [createHmac("sha256", key).update(s).digest("hex")]. *)
  hmacSha256 : string -> string -> string;
  (** [new URL(url)]: pathname and search. *)
  parseUrl : string -> option (string * string);
  (** [parsedUrl.searchParams.get(name)] on a search string. *)
  searchParamsGet : string -> string -> option string;
  (** [new Date(s).getTime()]. *)
  getTime : string -> option Z;
  (** [new Date(ms).toISOString()]. *)
  toISOString : Z -> string;
  (** ethers [verifyMessage(message, signature)]. *)
  verifyMessage : string -> string -> option string
}.

(** The base64 + JSON codecs of the wire headers and of the 402 body:
    [Buffer.from(JSON.stringify(x), "utf8").toString("base64")] and
    [JSON.parse(Buffer.from(s, "base64").toString("utf8"))], and
    [response.json()]. *)
Class Codec := {
  encodePaymentHeader : SignedPayment.t -> string;
  decodePaymentHeader : string -> option SignedPayment.t;
  encodePaymentRequiredHeader : X402PaymentRequired.t -> string;
  decodePaymentRequiredHeader : string -> option X402PaymentRequired.t;
  parsePaymentRequiredBody : string -> option PaymentRequiredBody.t;
  (** The [PAYMENT-RESPONSE] value for an idempotency key. *)
  encodePaymentResponse : string -> string
}.

(** ** Strings *)

Definition upper_char (c : ascii) : ascii :=
  let n := nat_of_ascii c in
  if ((97 <=? n) && (n <=? 122))%nat then ascii_of_nat (n - 32) else c.

Definition lower_char (c : ascii) : ascii :=
  let n := nat_of_ascii c in
  if ((65 <=? n) && (n <=? 90))%nat then ascii_of_nat (n + 32) else c.

Fixpoint map_string (f : ascii -> ascii) (s : string) : string :=
  match s with
  | EmptyString => EmptyString
  | String c s' => String (f c) (map_string f s')
  end.

(** [s.toUpperCase()] and [s.toLowerCase()] on the ASCII letters. *)
Definition toUpperCase : string -> string := map_string upper_char.
Definition toLowerCase : string -> string := map_string lower_char.

Fixpoint starts_with (p s : string) : bool :=
  match p, s with
  | EmptyString, _ => true
  | String a p', String b s' => if Ascii.eqb a b then starts_with p' s' else false
  | String _ _, EmptyString => false
  end.

(** [s.includes(p)]. *)
Fixpoint includes (s p : string) : bool :=
  starts_with p s ||
  match s with
  | EmptyString => false
  | String _ s' => includes s' p
  end.

(** Truthiness of a [string | null | undefined] value. *)
Definition truthy (o : option string) : bool :=
  match o with
  | Some s => negb (String.eqb s "")
  | None => false
  end.

(** ** JSON values and [JSON.stringify] *)

Inductive json : Type :=
| JNull
| JBool (b : bool)
| JNum (n : Z)
| JStr (s : string)
| JArr (items : list json)
| JObj (entries : list (string * json)).

Definition dquote : ascii := "034"%char.
Definition backslash : ascii := "092"%char.

Definition hex_digit (n : nat) : ascii :=
  if (n <? 10)%nat then ascii_of_nat (48 + n) else ascii_of_nat (87 + n).

(** One code unit as [QuoteJSONString] writes it. *)
Definition escape_char (c : ascii) : string :=
  let n := nat_of_ascii c in
  if Ascii.eqb c dquote then String backslash (String dquote EmptyString)
  else if Ascii.eqb c backslash then String backslash (String backslash EmptyString)
  else if (n =? 8)%nat then String backslash "b"
  else if (n =? 9)%nat then String backslash "t"
  else if (n =? 10)%nat then String backslash "n"
  else if (n =? 12)%nat then String backslash "f"
  else if (n =? 13)%nat then String backslash "r"
  else if (n <? 32)%nat then
    String backslash
      (String "u" (String "0" (String "0"
        (String (hex_digit (n / 16)) (String (hex_digit (n mod 16)) EmptyString)))))
  else String c EmptyString.

Fixpoint escape (s : string) : string :=
  match s with
  | EmptyString => EmptyString
  | String c s' => (escape_char c ++ escape s')%string
  end.

Definition quote (s : string) : string :=
  String dquote (escape s ++ String dquote EmptyString)%string.

(** Decimal rendering of an integer number. *)
Definition render_number (n : Z) : string :=
  NilZero.string_of_int (Z.to_int n).

Fixpoint join (sep : string) (l : list string) : string :=
  match l with
  | [] => EmptyString
  | [x] => x
  | x :: rest => (x ++ sep ++ join sep rest)%string
  end.

(** [JSON.stringify(v)] without an indent argument. *)
Fixpoint stringify (v : json) : string :=
  match v with
  | JNull => "null"
  | JBool true => "true"
  | JBool false => "false"
  | JNum n => render_number n
  | JStr s => quote s
  | JArr items => ("[" ++ join "," (List.map stringify items) ++ "]")%string
  | JObj entries =>
      ("{" ++ join ","
                (List.map (fun e => quote (fst e) ++ ":" ++ stringify (snd e)) entries)
           ++ "}")%string
  end.

(** ** Own-property order of an ordinary object *)

Definition digit_of (c : ascii) : option N :=
  let n := N_of_ascii c in
  if ((48 <=? n) && (n <=? 57))%N then Some (n - 48)%N else None.

Fixpoint parse_digits (s : string) (acc : N) : option N :=
  match s with
  | EmptyString => Some acc
  | String c s' =>
      match digit_of c with
      | Some d => parse_digits s' (10 * acc + d)%N
      | None => None
      end
  end.

(** A key is an array index when it is the canonical decimal form of an
    integer below 2^32 - 1. *)
Definition array_index (k : string) : option N :=
  match k with
  | EmptyString => None
  | String c rest =>
      if Ascii.eqb c "0" then
        (if String.eqb rest "" then Some 0%N else None)
      else
        match parse_digits k 0 with
        | Some n => if (n <? 4294967295)%N then Some n else None
        | None => None
        end
  end.

Definition has_key (k : string) (o : list (string * json)) : bool :=
  existsb (fun e => String.eqb (fst e) k) o.

Definition replace_value (k : string) (v : json) (o : list (string * json)) :=
  List.map (fun e => if String.eqb (fst e) k then (k, v) else e) o.

(** Put a new array-index property at its numeric position. *)
Fixpoint insert_index (i : N) (k : string) (v : json) (o : list (string * json)) :=
  match o with
  | [] => [(k, v)]
  | e :: rest =>
      match array_index (fst e) with
      | Some j => if (j <? i)%N then e :: insert_index i k v rest else (k, v) :: o
      | None => (k, v) :: o
      end
  end.

(** [acc[key] = v] on an object created by [{}].  The own properties are
    listed in enumeration order: array indices ascending, then the other
    keys in creation order.  Assigning to [__proto__] runs the setter of
    [Object.prototype] and creates no own property. *)
Definition obj_set (o : list (string * json)) (k : string) (v : json) :=
  if String.eqb k "__proto__" then o
  else if has_key k o then replace_value k v o
  else match array_index k with
       | Some i => insert_index i k v o
       | None => o ++ [(k, v)]
       end.

(** ** [canonicalJson] *)

Section Canonical.
Context {H : Host}.

(** [entries.sort(([a], [b]) => a.localeCompare(b))].  [Array.prototype.sort]
    is stable; with a consistent comparator every stable sort returns the
    list computed here by insertion. *)
Fixpoint sort_insert (e : string * json) (l : list (string * json)) :=
  match l with
  | [] => [e]
  | y :: rest =>
      if localeCompare (fst e) (fst y) <=? 0 then e :: l
      else y :: sort_insert e rest
  end.

Fixpoint sort_entries (l : list (string * json)) :=
  match l with
  | [] => []
  | e :: rest => sort_insert e (sort_entries rest)
  end.

(** [.reduce((acc, [key, item]) => { acc[key] = ...; return acc }, {})]
    over entries whose values are already converted. *)
Definition assign_all (l : list (string * json)) : list (string * json) :=
  fold_left (fun acc e => obj_set acc (fst e) (snd e)) l [].

(** [sortDeep].  The recursive calls are made on the entries before they
    are sorted, which Rocq's termination check requires; the comparator
    reads keys only, and [sortDeep_object] below restates the body in the
    order of the source. *)
Fixpoint sortDeep (v : json) : json :=
  match v with
  | JArr items => JArr (List.map sortDeep items)
  | JObj entries =>
      JObj (assign_all
              (sort_entries (List.map (fun e => (fst e, sortDeep (snd e))) entries)))
  | _ => v
  end.

Definition canonicalJson (v : json) : string := stringify (sortDeep v).
End Canonical.

(** ** Wire objects as JSON values *)

Definition ACE_PAYMENT_VERSION : string := "ace-x402-v1".
Definition X402_PAYMENT_REQUIRED_HEADER : string := "PAYMENT-REQUIRED".
Definition X402_PAYMENT_SIGNATURE_HEADER : string := "PAYMENT-SIGNATURE".
Definition X402_PAYMENT_RESPONSE_HEADER : string := "PAYMENT-RESPONSE".
Definition X402_VERSION : Z := 2.

(** A property whose value is [undefined] is left out by [JSON.stringify];
    it is left out of the value from the start. *)
Definition optional_entry (k : string) (o : option string) : list (string * json) :=
  match o with
  | Some s => [(k, JStr s)]
  | None => []
  end.

Definition challenge_json (c : PaymentChallenge.t) : json :=
  JObj ([ ("version", JStr (PaymentChallenge.version c));
          ("challengeId", JStr (PaymentChallenge.challengeId c));
          ("resource", JStr (PaymentChallenge.resource c));
          ("method", JStr (PaymentChallenge.method c));
          ("amountMicrousdc", JNum (PaymentChallenge.amountMicrousdc c));
          ("currency", JStr (PaymentChallenge.currency c));
          ("issuedAt", JStr (PaymentChallenge.issuedAt c));
          ("expiresAt", JStr (PaymentChallenge.expiresAt c));
          ("nonce", JStr (PaymentChallenge.nonce c)) ]
        ++ optional_entry "mac" (PaymentChallenge.mac c)).

Definition unsigned_json (p : UnsignedPayment.t) : json :=
  JObj [ ("version", JStr (UnsignedPayment.version p));
         ("sessionId", JStr (UnsignedPayment.sessionId p));
         ("payer", JStr (UnsignedPayment.payer p));
         ("challengeId", JStr (UnsignedPayment.challengeId p));
         ("challenge", challenge_json (UnsignedPayment.challenge p));
         ("idempotencyKey", JStr (UnsignedPayment.idempotencyKey p));
         ("requestHash", JStr (UnsignedPayment.requestHash p));
         ("challengeHash", JStr (UnsignedPayment.challengeHash p));
         ("amountMicrousdc", JNum (UnsignedPayment.amountMicrousdc p));
         ("currency", JStr (UnsignedPayment.currency p));
         ("sessionExpiresAt", JStr (UnsignedPayment.sessionExpiresAt p));
         ("issuedAt", JStr (UnsignedPayment.issuedAt p)) ].

Definition with_mac (c : PaymentChallenge.t) (m : option string) : PaymentChallenge.t :=
  PaymentChallenge.mk
    (PaymentChallenge.version c) (PaymentChallenge.challengeId c)
    (PaymentChallenge.resource c) (PaymentChallenge.method c)
    (PaymentChallenge.amountMicrousdc c) (PaymentChallenge.currency c)
    (PaymentChallenge.issuedAt c) (PaymentChallenge.expiresAt c)
    (PaymentChallenge.nonce c) m.

(** ** Hash derivations *)

Module SignRequestContext.
Record t := mk { method : string; url : string; body : option string }.
End SignRequestContext.

Section Derivations.
Context {H : Host}.

Definition sha256Hex (input : string) : string := sha256 input.

(** [deriveResource]: [None] when [new URL(url)] throws. *)
Definition deriveResource (url : string) : option string :=
  match parseUrl url with
  | Some (pathname, search) => Some (pathname ++ search)%string
  | None => None
  end.

Definition deriveRequestHash (input : SignRequestContext.t) : option string :=
  match deriveResource (SignRequestContext.url input) with
  | Some resource =>
      let bodyHash :=
        if truthy (SignRequestContext.body input)
        then sha256Hex (default "" (SignRequestContext.body input))
        else "" in
      Some (sha256Hex (canonicalJson
        (JObj [ ("bodyHash", JStr bodyHash);
                ("method", JStr (toUpperCase (SignRequestContext.method input)));
                ("resource", JStr resource) ])))
  | None => None
  end.

Definition deriveChallengeHash (challenge : PaymentChallenge.t) : string :=
  sha256Hex (canonicalJson (challenge_json challenge)).

Definition deriveIdempotencyKey
    (sessionId payer challengeId requestHash : string) (amountMicrousdc : Z) : string :=
  let payload := canonicalJson
    (JObj [ ("amountMicrousdc", JNum amountMicrousdc);
            ("challengeId", JStr challengeId);
            ("payer", JStr (toLowerCase payer));
            ("requestHash", JStr requestHash);
            ("sessionId", JStr sessionId) ]) in
  ("aceid_" ++ sha256Hex payload)%string.

Definition buildPaymentSigningMessage (payment : UnsignedPayment.t) : string :=
  ("ACE_PAYMENT_V1" ++ String "010"%char (canonicalJson (unsigned_json payment)))%string.

Definition toUnsignedPayment (payment : SignedPayment.t) : UnsignedPayment.t :=
  SignedPayment.unsigned payment.

(** [createChallenge] with [issuedAt], [challengeId] and [nonce] resolved
    by the caller ([new Date()] and [randomUUID()] are inputs). *)
Definition createChallenge
    (secret challengeId resource method : string) (amountMicrousdc : Z)
    (issuedAt expiresAt : Z) (nonce : string) : PaymentChallenge.t :=
  let challengeBase :=
    PaymentChallenge.mk ACE_PAYMENT_VERSION challengeId resource (toUpperCase method)
      amountMicrousdc "USDC" (toISOString issuedAt) (toISOString expiresAt) nonce None in
  let mac := hmacSha256 secret (canonicalJson (challenge_json (with_mac challengeBase None))) in
  with_mac challengeBase (Some mac).

Definition verifyChallenge (challenge : PaymentChallenge.t) (secret : string) : bool :=
  let recomputed :=
    hmacSha256 secret (canonicalJson (challenge_json (with_mac challenge None))) in
  bool_decide (Some recomputed = PaymentChallenge.mac challenge).
End Derivations.

(** ** Numbers computed by the ledger *)

(** An integer, or the [NaN] that arithmetic on [undefined] yields. *)
Inductive number : Type :=
| Finite (z : Z)
| NaN.

Definition num_add (a b : number) : number :=
  match a, b with
  | Finite x, Finite y => Finite (x + y)
  | _, _ => NaN
  end.

Definition num_sub (a b : number) : number :=
  match a, b with
  | Finite x, Finite y => Finite (x - y)
  | _, _ => NaN
  end.

(** [a > b] and [a <= b]: false as soon as one side is [NaN]. *)
Definition num_gt (a b : number) : bool :=
  match a, b with
  | Finite x, Finite y => y <? x
  | _, _ => false
  end.

Definition num_le (a b : number) : bool :=
  match a, b with
  | Finite x, Finite y => x <=? y
  | _, _ => false
  end.

Arguments num_add : simpl never.
Arguments num_sub : simpl never.
Arguments num_gt : simpl never.
Arguments num_le : simpl never.

(** ** Exceptions and the state-and-exception monad *)

Inductive Error : Type :=
| TtlNotPositive
| DifferentPayer (sessionId : string)
| NoStoredSession (sessionId : string)
| SessionExpired (expiresAt : string)
| UnsupportedChallengeVersion (version : string)
| UnsupportedCurrency (currency : string)
| ChallengeExpired
| ChallengeMethodMismatch
| ChallengeResourceMismatch
| SpendLimitExceeded (requested : Z) (available : number)
| InvalidUrl
| WalletError
| TransportError (what : string)
| MalformedBody
| MalformedPaymentHeader
| MalformedSignature
| InvalidPayment (message : string).

Inductive Outcome (A : Type) : Type :=
| Ok (a : A)
| Throw (e : Error).
Arguments Ok {A} a.
Arguments Throw {A} e.

(** A computation over a state [S] that returns or throws. *)
Definition M (S A : Type) : Type := S -> Outcome A * S.

Definition ret {S A} (a : A) : M S A := fun s => (Ok a, s).
Definition throw {S A} (e : Error) : M S A := fun s => (Throw e, s).
Definition bind {S A B} (c : M S A) (k : A -> M S B) : M S B :=
  fun s => match c s with
           | (Ok a, s') => k a s'
           | (Throw e, s') => (Throw e, s')
           end.
Definition gets {S A} (f : S -> A) : M S A := fun s => (Ok (f s), s).
Definition modify {S} (f : S -> S) : M S unit := fun s => (Ok tt, f s).
(** [try { c } catch (error) { h error }]. *)
Definition try_catch {S A} (c : M S A) (h : Error -> M S A) : M S A :=
  fun s => match c s with
           | (Ok a, s') => (Ok a, s')
           | (Throw e, s') => h e s'
           end.
(** [if (cond) throw e]. *)
Definition throw_if {S} (cond : bool) (e : Error) : M S unit :=
  if cond then throw e else ret tt.
Definition from_option {S A} (o : option A) (e : Error) : M S A :=
  match o with
  | Some a => ret a
  | None => throw e
  end.
Definition lift_fst {S T A} (c : M S A) : M (S * T) A :=
  fun st => match c (fst st) with (r, s') => (r, (s', snd st)) end.
Definition lift_snd {S T A} (c : M T A) : M (S * T) A :=
  fun st => match c (snd st) with (r, t') => (r, (fst st, t')) end.

Notation "'let!' x ':=' c 'in' k" := (bind c (fun x => k))
  (at level 10, x name, c at level 100, k at level 200).
Notation "'do!' c 'in' k" := (bind c (fun _ => k))
  (at level 10, c at level 100, k at level 200).

(** ** Session state, store and wallet *)

Module SessionState.
Record t := mk {
  sessionId : string;
  payer : string;
  spendLimitMicrousdc : Z;
  createdAt : string;
  expiresAt : string;
  cumulativeSpendMicrousdc : number;
  pendingAttempts : gmap string SignedPayment.t
}.
End SessionState.

Module SessionSnapshot.
Record t := mk {
  sessionId : string;
  payer : string;
  spendLimitMicrousdc : Z;
  expiresAt : string;
  cumulativeSpendMicrousdc : number;
  pendingSpendMicrousdc : Z;
  availableSpendMicrousdc : number
}.
End SessionSnapshot.

(** [interface WalletSigner]; [signMessage] returns [None] when the wallet
    rejects. *)
Record WalletSigner := {
  getAddress : string;
  signMessage : string -> option string
}.

(** What a [SessionKey] shares with its surroundings: the clock read by
    [new Date()] and [Date.now()], the [MemorySessionStore] behind
    [this.store], and the messages the wallet has signed so far (most recent
    first).  One method call reads the clock at a single instant. *)
Record World := {
  clock : Z;
  store : gmap string SessionState.t;
  walletLog : list string
}.

(** The object itself: [this.wallet] and [this.state]. *)
Record SessionKey := {
  wallet : WalletSigner;
  state : SessionState.t
}.

Definition Session : Type := SessionKey * World.

Definition set_state (st : SessionState.t) (s : Session) : Session :=
  ({| wallet := wallet (fst s); state := st |}, snd s).

Definition set_store (m : gmap string SessionState.t) (s : Session) : Session :=
  (fst s, {| clock := clock (snd s); store := m; walletLog := walletLog (snd s) |}).

Definition log_signature (message : string) (s : Session) : Session :=
  (fst s, {| clock := clock (snd s); store := store (snd s);
             walletLog := message :: walletLog (snd s) |}).

Definition set_clock (t : Z) (s : Session) : Session :=
  (fst s, {| clock := t; store := store (snd s); walletLog := walletLog (snd s) |}).

(** [{ ...state, pendingAttempts }] and
    [{ ...state, cumulativeSpendMicrousdc, pendingAttempts }]. *)
Definition with_pending (st : SessionState.t) (p : gmap string SignedPayment.t) :=
  SessionState.mk (SessionState.sessionId st) (SessionState.payer st)
    (SessionState.spendLimitMicrousdc st) (SessionState.createdAt st)
    (SessionState.expiresAt st) (SessionState.cumulativeSpendMicrousdc st) p.

Definition with_spend_and_pending (st : SessionState.t) (c : number)
    (p : gmap string SignedPayment.t) :=
  SessionState.mk (SessionState.sessionId st) (SessionState.payer st)
    (SessionState.spendLimitMicrousdc st) (SessionState.createdAt st)
    (SessionState.expiresAt st) c p.

(** [Object.values(pendingAttempts).reduce((sum, p) => sum + p.amountMicrousdc, 0)]. *)
Definition pendingSpend (p : gmap string SignedPayment.t) : Z :=
  map_fold (fun _ payment sum => sum + SignedPayment.amountMicrousdc payment) 0 p.

(** The properties every ordinary object inherits from [Object.prototype]. *)
Definition object_prototype_members : list string :=
  [ "constructor"; "hasOwnProperty"; "isPrototypeOf"; "propertyIsEnumerable";
    "toLocaleString"; "toString"; "valueOf"; "__proto__";
    "__defineGetter__"; "__defineSetter__"; "__lookupGetter__"; "__lookupSetter__" ].

Definition inherited (k : string) : bool :=
  existsb (String.eqb k) object_prototype_members.

(** The value of [pendingAttempts[k]]: an attempt stored under [k], else a
    member of [Object.prototype] (a function or an object, truthy), else
    [undefined]. *)
Inductive Property : Type :=
| OwnAttempt (attempt : SignedPayment.t)
| PrototypeMember
| Undefined.

Definition get_attempt (p : gmap string SignedPayment.t) (k : string) : Property :=
  match p !! k with
  | Some attempt => OwnAttempt attempt
  | None => if inherited k then PrototypeMember else Undefined
  end.

(** [attempt.amountMicrousdc] as an operand of [+]: a member of
    [Object.prototype] has no such property, and [undefined] adds to [NaN]. *)
Definition attempt_amount (a : Property) : number :=
  match a with
  | OwnAttempt attempt => Finite (SignedPayment.amountMicrousdc attempt)
  | _ => NaN
  end.

(** [Object.fromEntries(Object.entries(p).filter(([key]) => key !== k))]. *)
Definition without_key (k : string) (p : gmap string SignedPayment.t) :
    gmap string SignedPayment.t :=
  filter (fun e => fst e <> k) p.

Module CreateInput.
(** The argument of [SessionKey.create]; [fresh] is what [randomUUID()]
    returns when [sessionId] is absent, [now] is absent for [new Date()]. *)
Record t := mk {
  wallet : WalletSigner;
  spendLimitMicrousdc : Z;
  ttlSeconds : Z;
  sessionId : option string;
  now : option Z;
  fresh : string
}.
End CreateInput.

Section SessionKeyMethods.
Context {H : Host}.

(** [MemorySessionStore.load] and [save]; [structuredClone] copies a
    value, which a functional map does by itself. *)
Definition store_load (sessionId : string) : M World (option SessionState.t) :=
  gets (fun w => store w !! sessionId).

Definition store_save (sessionId : string) (st : SessionState.t) : M World unit :=
  modify (fun w => {| clock := clock w; store := <[sessionId := st]> (store w);
                      walletLog := walletLog w |}).

(** [static async create(input)]. *)
Definition create (input : CreateInput.t) : M World SessionKey :=
  let payer := toLowerCase (getAddress (CreateInput.wallet input)) in
  let! today := gets clock in
  let createdAt := default today (CreateInput.now input) in
  let expiresAt := createdAt + CreateInput.ttlSeconds input * 1000 in
  do! throw_if (CreateInput.ttlSeconds input <=? 0) TtlNotPositive in
  let sessionId := default (CreateInput.fresh input) (CreateInput.sessionId input) in
  let! existing := store_load sessionId in
  match existing with
  | Some existing =>
      do! throw_if (negb (String.eqb (SessionState.payer existing) payer))
            (DifferentPayer sessionId) in
      ret {| wallet := CreateInput.wallet input; state := existing |}
  | None =>
      let st := SessionState.mk sessionId payer (CreateInput.spendLimitMicrousdc input)
                  (toISOString createdAt) (toISOString expiresAt) (Finite 0) ∅ in
      do! store_save sessionId st in
      ret {| wallet := CreateInput.wallet input; state := st |}
  end.

(** [static async restore(input)]. *)
Definition restore (w : WalletSigner) (sessionId : string) : M World SessionKey :=
  let payer := toLowerCase (getAddress w) in
  let! existing := store_load sessionId in
  match existing with
  | None => throw (NoStoredSession sessionId)
  | Some existing =>
      do! throw_if (negb (String.eqb (SessionState.payer existing) payer))
            (DifferentPayer sessionId) in
      ret {| wallet := w; state := existing |}
  end.

Definition getSnapshot (st : SessionState.t) : SessionSnapshot.t :=
  let pendingSpendMicrousdc := pendingSpend (SessionState.pendingAttempts st) in
  SessionSnapshot.mk (SessionState.sessionId st) (SessionState.payer st)
    (SessionState.spendLimitMicrousdc st) (SessionState.expiresAt st)
    (SessionState.cumulativeSpendMicrousdc st) pendingSpendMicrousdc
    (num_sub
       (num_sub (Finite (SessionState.spendLimitMicrousdc st))
          (SessionState.cumulativeSpendMicrousdc st))
       (Finite pendingSpendMicrousdc)).

(** [x >= y] and [x <= y] where [y], resp. [x], is [getTime()] of a parsed
    date: false when the date is invalid. *)
Definition at_or_after (x : Z) (y : option Z) : bool :=
  match y with Some y => y <=? x | None => false end.

(** [private ensureActive(now)]. *)
Definition ensureActive (now : Z) : M Session unit :=
  let! expiresAt := gets (fun s => SessionState.expiresAt (state (fst s))) in
  throw_if (at_or_after now (getTime expiresAt)) (SessionExpired expiresAt).

(** [private async persist()]. *)
Definition persist : M Session unit :=
  let! st := gets (fun s => state (fst s)) in
  lift_snd (store_save (SessionState.sessionId st) st).

(** [this.wallet.signMessage(message)]. *)
Definition wallet_sign (message : string) : M Session string :=
  let! w := gets (fun s => wallet (fst s)) in
  match signMessage w message with
  | Some signature =>
      do! modify (log_signature message) in
      ret signature
  | None => throw WalletError
  end.

(** [async signForChallenge(challenge, request)]. *)
Definition signForChallenge (challenge : PaymentChallenge.t)
    (request : SignRequestContext.t) : M Session SignedPayment.t :=
  let! now := gets (fun s => clock (snd s)) in
  do! ensureActive now in
  do! throw_if (negb (String.eqb (PaymentChallenge.version challenge) ACE_PAYMENT_VERSION))
        (UnsupportedChallengeVersion (PaymentChallenge.version challenge)) in
  do! throw_if (negb (String.eqb (PaymentChallenge.currency challenge) "USDC"))
        (UnsupportedCurrency (PaymentChallenge.currency challenge)) in
  do! throw_if (at_or_after now (getTime (PaymentChallenge.expiresAt challenge)))
        ChallengeExpired in
  let method := toUpperCase (SignRequestContext.method request) in
  let! resource := from_option (deriveResource (SignRequestContext.url request)) InvalidUrl in
  do! throw_if (negb (String.eqb (PaymentChallenge.method challenge) method))
        ChallengeMethodMismatch in
  do! throw_if (negb (String.eqb (PaymentChallenge.resource challenge) resource))
        ChallengeResourceMismatch in
  let! requestHash :=
    from_option
      (deriveRequestHash
         (SignRequestContext.mk method (SignRequestContext.url request)
            (SignRequestContext.body request)))
      InvalidUrl in
  let! st := gets (fun s => state (fst s)) in
  let idempotencyKey :=
    deriveIdempotencyKey (SessionState.sessionId st) (SessionState.payer st)
      (PaymentChallenge.challengeId challenge) requestHash
      (PaymentChallenge.amountMicrousdc challenge) in
  (* The key starts with "aceid_": no member of [Object.prototype] is
     found under it, and the read sees stored attempts only. *)
  match SessionState.pendingAttempts st !! idempotencyKey with
  | Some existing => ret existing
  | None =>
      let snapshot := getSnapshot st in
      do! throw_if (num_gt (Finite (PaymentChallenge.amountMicrousdc challenge))
                      (SessionSnapshot.availableSpendMicrousdc snapshot))
            (SpendLimitExceeded (PaymentChallenge.amountMicrousdc challenge)
               (SessionSnapshot.availableSpendMicrousdc snapshot)) in
      let unsignedPayment :=
        UnsignedPayment.mk ACE_PAYMENT_VERSION (SessionState.sessionId st)
          (SessionState.payer st) (PaymentChallenge.challengeId challenge) challenge
          idempotencyKey requestHash (deriveChallengeHash challenge)
          (PaymentChallenge.amountMicrousdc challenge)
          (PaymentChallenge.currency challenge) (SessionState.expiresAt st)
          (toISOString now) in
      let signingMessage := buildPaymentSigningMessage unsignedPayment in
      let! signature := wallet_sign signingMessage in
      let signedPayment := SignedPayment.mk unsignedPayment signature in
      do! modify (set_state
            (with_pending st (<[idempotencyKey := signedPayment]>
                                (SessionState.pendingAttempts st)))) in
      do! persist in
      ret signedPayment
  end.

(** [async commitPayment(idempotencyKey)]. *)
Definition commitPayment (idempotencyKey : string) : M Session unit :=
  let! st := gets (fun s => state (fst s)) in
  let attempt := get_attempt (SessionState.pendingAttempts st) idempotencyKey in
  match attempt with
  | Undefined => ret tt
  | _ =>
      do! modify (set_state
            (with_spend_and_pending st
               (num_add (SessionState.cumulativeSpendMicrousdc st) (attempt_amount attempt))
               (without_key idempotencyKey (SessionState.pendingAttempts st)))) in
      persist
  end.

(** [async releasePayment(idempotencyKey)]. *)
Definition releasePayment (idempotencyKey : string) : M Session unit :=
  let! st := gets (fun s => state (fst s)) in
  let attempt := get_attempt (SessionState.pendingAttempts st) idempotencyKey in
  match attempt with
  | Undefined => ret tt
  | _ =>
      do! modify (set_state
            (with_pending st (without_key idempotencyKey (SessionState.pendingAttempts st)))) in
      persist
  end.
End SessionKeyMethods.

(** ** The x402 interceptor *)

(** [Headers]: names are case-insensitive, stored in lower case. *)
Definition Headers : Type := gmap string string.
Definition headers_get (h : Headers) (name : string) : option string :=
  h !! toLowerCase name.
Definition headers_has (h : Headers) (name : string) : bool :=
  bool_decide (is_Some (h !! toLowerCase name)).
Definition headers_set (h : Headers) (name value : string) : Headers :=
  <[toLowerCase name := value]> h.

Module Response.
Record t := mk { status : Z; headers : Headers; body : string }.
(** [response.ok]. *)
Definition ok (r : t) : bool := (200 <=? status r) && (status r <=? 299).
End Response.

(** [RequestInfo | URL]. *)
Inductive RequestInput : Type :=
| InputString (url : string)
| InputURL (href : string)
| InputRequest (url method : string).

Module RequestInit.
(** [headers] is [new Headers(init.headers ?? undefined)]; [body] is
    [Some] for a string body only. *)
Record t := mk { method : option string; headers : Headers; body : option string }.
End RequestInit.

Definition resolveUrl (input : RequestInput) : string :=
  match input with
  | InputString url => url
  | InputURL href => href
  | InputRequest url _ => url
  end.

Definition resolveMethod (input : RequestInput) (init : RequestInit.t) : string :=
  if truthy (RequestInit.method init) then toUpperCase (default "" (RequestInit.method init))
  else match input with
       | InputRequest _ method => toUpperCase method
       | _ => "GET"
       end.

Definition resolveBody (init : RequestInit.t) : option string :=
  if truthy (RequestInit.body init) then RequestInit.body init else None.

(** The three methods of the session object the interceptor calls. *)
Class SessionLike (S : Type) := {
  session_signForChallenge : PaymentChallenge.t -> SignRequestContext.t -> M S SignedPayment.t;
  session_commitPayment : string -> M S unit;
  session_releasePayment : string -> M S unit
}.

#[export] Instance SessionKey_SessionLike {H : Host} : SessionLike Session := {
  session_signForChallenge := signForChallenge;
  session_commitPayment := commitPayment;
  session_releasePayment := releasePayment
}.

(** Method calls received by a session object, most recent first. *)
Inductive Call : Type :=
| CallSign (challenge : PaymentChallenge.t) (request : SignRequestContext.t)
| CallCommit (idempotencyKey : string)
| CallRelease (idempotencyKey : string).

Definition record_call {S} (c : Call) : M (S * list Call) unit :=
  modify (fun s => (fst s, c :: snd s)).

(** A session object that counts the calls it receives, as the
    [sessionLike] doubles of the interceptor tests do, and forwards them. *)
#[export] Instance Recorded_SessionLike {S} `{SessionLike S} : SessionLike (S * list Call) := {
  session_signForChallenge challenge request :=
    do! record_call (CallSign challenge request) in
    lift_fst (session_signForChallenge challenge request);
  session_commitPayment k :=
    do! record_call (CallCommit k) in lift_fst (session_commitPayment k);
  session_releasePayment k :=
    do! record_call (CallRelease k) in lift_fst (session_releasePayment k)
}.

Section Interceptor.
Context {C : Codec}.

Fixpoint extractChallengeFromRequired_loop (accepts : list X402PaymentRequiredAccept.t)
    : option PaymentChallenge.t :=
  match accepts with
  | [] => None
  | acceptance :: rest =>
      match X402PaymentRequiredAccept.extra_challenge acceptance with
      | Some challenge =>
          if String.eqb (PaymentChallenge.version challenge) ACE_PAYMENT_VERSION
          then Some challenge
          else extractChallengeFromRequired_loop rest
      | None => extractChallengeFromRequired_loop rest
      end
  end.

Definition extractChallengeFromRequired (required : X402PaymentRequired.t)
    : option PaymentChallenge.t :=
  match X402PaymentRequired.accepts required with
  | [] => None
  | accepts => extractChallengeFromRequired_loop accepts
  end.

(** The [if (paymentRequiredHeader) { try { ... } catch { } }] block: the
    challenge it returns, or [None] when control leaves the block. *)
Definition challenge_from_header (response : Response.t) : option PaymentChallenge.t :=
  let paymentRequiredHeader :=
    headers_get (Response.headers response) X402_PAYMENT_REQUIRED_HEADER in
  if truthy paymentRequiredHeader then
    match decodePaymentRequiredHeader (default "" paymentRequiredHeader) with
    | Some required => extractChallengeFromRequired required
    | None => None
    end
  else None.

(** [async extractChallenge(response)]. *)
Definition extractChallenge {S} (response : Response.t) : M S (option PaymentChallenge.t) :=
  match challenge_from_header response with
  | Some challenge => ret (Some challenge)
  | None =>
      let contentType := default "" (headers_get (Response.headers response) "content-type") in
      if negb (includes contentType "application/json") then ret None
      else
        let! body := from_option (parsePaymentRequiredBody (Response.body response))
                       MalformedBody in
        match PaymentRequiredBody.challenge body with
        | Some challenge =>
            if String.eqb (PaymentChallenge.version challenge) ACE_PAYMENT_VERSION
            then ret (Some challenge) else ret None
        | None => ret None
        end
  end.

(** [createX402Interceptor(sessionKey, { fetchImpl })]: the returned
    [x402Fetch].  [S] is the session object and [T] the state of the
    transport. *)
Definition x402Fetch {S T} `{SessionLike S}
    (fetchImpl : RequestInput -> RequestInit.t -> M T Response.t)
    (input : RequestInput) (init : RequestInit.t) : M (S * T) Response.t :=
  let! firstResponse := lift_snd (fetchImpl input init) in
  if negb (Response.status firstResponse =? 402) then ret firstResponse
  else
    let existingHeaders := RequestInit.headers init in
    if headers_has existingHeaders X402_PAYMENT_SIGNATURE_HEADER
       || headers_has existingHeaders "X-PAYMENT"
       || headers_has existingHeaders "x-ace-payment"
    then ret firstResponse
    else
      let! challenge := extractChallenge firstResponse in
      match challenge with
      | None => ret firstResponse
      | Some challenge =>
          let! signed :=
            lift_fst (session_signForChallenge challenge
              (SignRequestContext.mk (resolveMethod input init) (resolveUrl input)
                 (resolveBody init))) in
          let retryHeaders :=
            headers_set
              (headers_set (RequestInit.headers init) X402_PAYMENT_SIGNATURE_HEADER
                 (encodePaymentHeader signed))
              "x-ace-idempotency-key" (SignedPayment.idempotencyKey signed) in
          let! retryResponse :=
            try_catch
              (lift_snd (fetchImpl input
                 (RequestInit.mk (RequestInit.method init) retryHeaders
                    (RequestInit.body init))))
              (fun error =>
                 do! lift_fst (session_releasePayment (SignedPayment.idempotencyKey signed)) in
                 throw error) in
          if Response.ok retryResponse then
            let echoedPaymentHeader :=
              headers_get (Response.headers retryResponse) X402_PAYMENT_SIGNATURE_HEADER in
            do! (if truthy echoedPaymentHeader then
                   let! echoedPayment :=
                     from_option (decodePaymentHeader (default "" echoedPaymentHeader))
                       MalformedPaymentHeader in
                   lift_fst (session_commitPayment (SignedPayment.idempotencyKey echoedPayment))
                 else lift_fst (session_commitPayment (SignedPayment.idempotencyKey signed))) in
            ret retryResponse
          else
            do! lift_fst (session_releasePayment (SignedPayment.idempotencyKey signed)) in
            ret retryResponse
      end.
End Interceptor.

(** ** The demo origin: verifier and payment ledger *)

Record ComputeResult := {
  computeId : string;
  output : string
}.

Module PaymentLogRecord.
Record t := mk {
  idempotencyKey : string;
  payer : string;
  amountMicrousdc : Z;
  requestHash : string;
  challengeId : string;
  paidAt : string;
  result : ComputeResult
}.
End PaymentLogRecord.

Module ServerConfig.
Record t := mk {
  port : Z;
  amountMicrousdc : Z;
  challengeSecret : string;
  challengeTtlSeconds : Z
}.
End ServerConfig.

(** What the handler closes over and reads: [ledger.records], the clock,
    and the values [randomUUID()] returns ([entropy n] is the n-th draw). *)
Record Origin := {
  records : gmap string PaymentLogRecord.t;
  originClock : Z;
  entropy : nat -> string;
  drawn : nat
}.

Definition set_records (m : gmap string PaymentLogRecord.t) (o : Origin) : Origin :=
  {| records := m; originClock := originClock o; entropy := entropy o; drawn := drawn o |}.

Definition randomUUID : M Origin string :=
  fun o => (Ok (entropy o (drawn o)),
            {| records := records o; originClock := originClock o;
               entropy := entropy o; drawn := S (drawn o) |}).

(** [PaymentLedger.get] and [put]; the file rewritten by [put] is a copy of
    [records]. *)
Definition ledger_get (idempotencyKey : string) : M Origin (option PaymentLogRecord.t) :=
  gets (fun o => records o !! idempotencyKey).

Definition ledger_put (record : PaymentLogRecord.t) : M Origin unit :=
  modify (fun o => set_records (<[PaymentLogRecord.idempotencyKey record := record]> (records o)) o).

(** A value of Node's [request.headers]. *)
Inductive HeaderValue : Type :=
| Single (value : string)
| Multiple (values : list string).

Module IncomingMessage.
(** [href] is [request.url ?? "/"] resolved against the [host] header. *)
Record t := mk {
  method : option string;
  href : string;
  headers : gmap string HeaderValue
}.
End IncomingMessage.

(** The payloads given to [sendJson]. *)
Inductive Payload : Type :=
| ErrorPayload (error : string)
| InvalidPaymentPayload (message : string)
| PaymentRequiredPayload (challenge : PaymentChallenge.t)
| PaidPayload (replayed : bool) (result : ComputeResult)
    (idempotencyKey : string) (amountMicrousdc : Z).

Module ServerResponse.
Record t := mk {
  statusCode : Z;
  payload : Payload;
  headers : list (string * string)
}.
End ServerResponse.

Definition sendJson (statusCode : Z) (payload : Payload) (headers : list (string * string))
    : ServerResponse.t :=
  ServerResponse.mk statusCode payload (("content-type", "application/json") :: headers).

(** [error instanceof Error ? error.message : "unknown_error"]; the
    messages of the exceptions raised by the platform are not spelled out. *)
Definition error_message (e : Error) : string :=
  match e with
  | InvalidPayment message => message
  | _ => "platform_error"
  end.

Section OriginServer.
Context {H : Host} {C : Codec}.

Definition buildChallengeForRequest (config : ServerConfig.t) (resource method : string)
    : M Origin PaymentChallenge.t :=
  let! now := gets originClock in
  let! challengeId := randomUUID in
  let! nonce := randomUUID in
  ret (createChallenge (ServerConfig.challengeSecret config) challengeId resource method
         (ServerConfig.amountMicrousdc config) now
         (now + ServerConfig.challengeTtlSeconds config * 1000) nonce).

(** [validateSignedPayment]: the recovered address, or the exception. *)
Definition validateSignedPayment (payment : SignedPayment.t)
    (expectedResource expectedMethod requestHash : string) (config : ServerConfig.t)
    : M Origin string :=
  let p := SignedPayment.unsigned payment in
  let challenge := UnsignedPayment.challenge p in
  do! throw_if (negb (String.eqb (UnsignedPayment.version p) ACE_PAYMENT_VERSION))
        (InvalidPayment "Unsupported payment version") in
  do! throw_if (negb (String.eqb (UnsignedPayment.currency p) "USDC"))
        (InvalidPayment "Unsupported payment currency") in
  do! throw_if (negb (String.eqb (UnsignedPayment.challengeId p)
                        (PaymentChallenge.challengeId challenge)))
        (InvalidPayment "challengeId mismatch") in
  do! throw_if (negb (String.eqb (PaymentChallenge.resource challenge) expectedResource))
        (InvalidPayment "Challenge resource mismatch") in
  do! throw_if (negb (String.eqb (PaymentChallenge.method challenge) expectedMethod))
        (InvalidPayment "Challenge method mismatch") in
  do! throw_if (negb (String.eqb (UnsignedPayment.challengeHash p)
                        (deriveChallengeHash challenge)))
        (InvalidPayment "challengeHash mismatch") in
  do! throw_if (negb (String.eqb (UnsignedPayment.requestHash p) requestHash))
        (InvalidPayment "requestHash mismatch") in
  do! throw_if (negb (verifyChallenge challenge (ServerConfig.challengeSecret config)))
        (InvalidPayment "Challenge MAC verification failed") in
  let! now := gets originClock in
  do! throw_if (at_or_after now (getTime (PaymentChallenge.expiresAt challenge)))
        (InvalidPayment "Challenge expired") in
  let expectedIdempotencyKey :=
    deriveIdempotencyKey (UnsignedPayment.sessionId p) (UnsignedPayment.payer p)
      (PaymentChallenge.challengeId challenge) (UnsignedPayment.requestHash p)
      (UnsignedPayment.amountMicrousdc p) in
  do! throw_if (negb (String.eqb expectedIdempotencyKey (UnsignedPayment.idempotencyKey p)))
        (InvalidPayment "Invalid idempotency key") in
  do! throw_if (negb (UnsignedPayment.amountMicrousdc p =? ServerConfig.amountMicrousdc config))
        (InvalidPayment "Incorrect payment amount") in
  do! throw_if (at_or_after now (getTime (UnsignedPayment.sessionExpiresAt p)))
        (InvalidPayment "Session expired") in
  let! recovered :=
    from_option
      (verifyMessage (buildPaymentSigningMessage (toUnsignedPayment payment))
         (SignedPayment.signature payment))
      MalformedSignature in
  let recoveredAddress := toLowerCase recovered in
  do! throw_if (negb (String.eqb recoveredAddress (toLowerCase (UnsignedPayment.payer p))))
        (InvalidPayment "Signature does not match payer") in
  ret recoveredAddress.

(** The headers of a paid response. *)
Definition paid_headers (paymentSignatureHeader idempotencyKey : string)
    : list (string * string) :=
  [ (X402_PAYMENT_SIGNATURE_HEADER, paymentSignatureHeader);
    (X402_PAYMENT_RESPONSE_HEADER, encodePaymentResponse idempotencyKey);
    ("x-ace-idempotency-key", idempotencyKey) ].

(** [a ?? b ?? c] over [request.headers]. *)
Definition first_defined (a b c : option HeaderValue) : option HeaderValue :=
  match a with
  | Some v => Some v
  | None => match b with Some v => Some v | None => c end
  end.

(** [!paymentSignatureHeader || Array.isArray(paymentSignatureHeader)] is
    false exactly for a single non-empty value. *)
Definition single_value (v : option HeaderValue) : option string :=
  match v with
  | Some (Single hdr) => if String.eqb hdr "" then None else Some hdr
  | _ => None
  end.

Definition buildPaymentRequiredHeaderValue (challenge : PaymentChallenge.t) : string :=
  encodePaymentRequiredHeader
    (X402PaymentRequired.mk [X402PaymentRequiredAccept.mk (Some challenge)]).

(** The body of the [try] block of the request listener. *)
Definition handle_try (config : ServerConfig.t) (request : IncomingMessage.t)
    : M Origin ServerResponse.t :=
  let method := toUpperCase (default "GET" (IncomingMessage.method request)) in
  let! parsedUrl := from_option (parseUrl (IncomingMessage.href request)) InvalidUrl in
  let pathname := fst parsedUrl in
  let search := snd parsedUrl in
  if negb (String.eqb pathname "/compute") then ret (sendJson 404 (ErrorPayload "not_found") [])
  else
    let resource := (pathname ++ search)%string in
    let! requestHash :=
      from_option (deriveRequestHash
                     (SignRequestContext.mk method (IncomingMessage.href request) None))
        InvalidUrl in
    let paymentSignatureHeader :=
      first_defined
        (IncomingMessage.headers request !! toLowerCase X402_PAYMENT_SIGNATURE_HEADER)
        (IncomingMessage.headers request !! "x-payment")
        (IncomingMessage.headers request !! "x-ace-payment") in
    match single_value paymentSignatureHeader with
    | None =>
        let! challenge := buildChallengeForRequest config resource method in
        ret (sendJson 402 (PaymentRequiredPayload challenge)
               [(X402_PAYMENT_REQUIRED_HEADER, buildPaymentRequiredHeaderValue challenge)])
    | Some hdr =>
        let! payment := from_option (decodePaymentHeader hdr) MalformedPaymentHeader in
        let! _ := validateSignedPayment payment resource method requestHash config in
        let! existing := ledger_get (SignedPayment.idempotencyKey payment) in
        match existing with
        | Some existing =>
            if negb (String.eqb (PaymentLogRecord.payer existing)
                       (toLowerCase (SignedPayment.payer payment)))
               || negb (PaymentLogRecord.amountMicrousdc existing
                          =? SignedPayment.amountMicrousdc payment)
               || negb (String.eqb (PaymentLogRecord.requestHash existing)
                          (SignedPayment.requestHash payment))
            then ret (sendJson 409 (ErrorPayload "idempotency_key_conflict") [])
            else
              ret (sendJson 200
                     (PaidPayload true (PaymentLogRecord.result existing)
                        (PaymentLogRecord.idempotencyKey existing)
                        (PaymentLogRecord.amountMicrousdc existing))
                     (paid_headers hdr (PaymentLogRecord.idempotencyKey existing)))
        | None =>
            let task := default "default-compute" (searchParamsGet search "task") in
            let! computeId := randomUUID in
            let result :=
              {| computeId := computeId;
                 output := ("computed:" ++ task ++ ":ok")%string |} in
            let! now := gets originClock in
            let record :=
              PaymentLogRecord.mk (SignedPayment.idempotencyKey payment)
                (toLowerCase (SignedPayment.payer payment))
                (SignedPayment.amountMicrousdc payment)
                (SignedPayment.requestHash payment)
                (UnsignedPayment.challengeId (SignedPayment.unsigned payment))
                (toISOString now) result in
            do! ledger_put record in
            ret (sendJson 200
                   (PaidPayload false result (PaymentLogRecord.idempotencyKey record)
                      (PaymentLogRecord.amountMicrousdc record))
                   (paid_headers hdr (PaymentLogRecord.idempotencyKey record)))
        end
    end.

(** The request listener: [try { ... } catch (error) { 422 }]. *)
Definition handle (config : ServerConfig.t) (request : IncomingMessage.t)
    : M Origin ServerResponse.t :=
  try_catch (handle_try config request)
    (fun error => ret (sendJson 422 (InvalidPaymentPayload (error_message error)) [])).
End OriginServer.

(** ** Sequences of operations *)

(** A method call on one [SessionKey], or the clock moving to [t]. *)
Inductive Op : Type :=
| Sign (challenge : PaymentChallenge.t) (request : SignRequestContext.t)
| Commit (idempotencyKey : string)
| Release (idempotencyKey : string)
| Clock (t : Z).



Section Runs.
Context {H : Host}.

(** The session after the call, whether it returned or threw. *)
Definition apply_op (op : Op) (s : Session) : Session :=
  match op with
  | Sign challenge request => snd (signForChallenge challenge request s)
  | Commit k => snd (commitPayment k s)
  | Release k => snd (releasePayment k s)
  | Clock t => set_clock t s
  end.

Definition run_ops (ops : list Op) (s : Session) : Session :=
  fold_left (fun s op => apply_op op s) ops s.


End Runs.

(** ** Properties of session states *)

(** [cumulativeSpendMicrousdc + Σ pendingAttempts.amount <= spendLimitMicrousdc]. *)
Definition spend_safe (st : SessionState.t) : Prop :=
  num_le (num_add (SessionState.cumulativeSpendMicrousdc st)
            (Finite (pendingSpend (SessionState.pendingAttempts st))))
    (Finite (SessionState.spendLimitMicrousdc st)) = true.

(** Every pending attempt carries a positive amount. *)
Definition pending_positive (st : SessionState.t) : Prop :=
  forall k p, SessionState.pendingAttempts st !! k = Some p ->
              0 < SignedPayment.amountMicrousdc p.

Definition positive_challenge (op : Op) : Prop :=
  match op with
  | Sign challenge _ => 0 < PaymentChallenge.amountMicrousdc challenge
  | _ => True
  end.




(** Every stored session is safe and has positive pending amounts. *)
Definition store_sound (w : World) : Prop :=
  forall sid st, store w !! sid = Some st -> spend_safe st /\ pending_positive st.

(** ** Properties of JSON values *)

(** Keys strictly ascending for [lt], in every object at every depth. *)
Fixpoint ascending (lt : string -> string -> bool) (keys : list string) : bool :=
  match keys with
  | [] => true
  | a :: rest =>
      match rest with
      | [] => true
      | b :: _ => lt a b && ascending lt rest
      end
  end.

Fixpoint deep_sorted (lt : string -> string -> bool) (v : json) : bool :=
  match v with
  | JArr items => forallb (deep_sorted lt) items
  | JObj entries =>
      ascending lt (List.map fst entries)
      && forallb (fun e => deep_sorted lt (snd e)) entries
  | _ => true
  end.

(** Order of UTF-16 code units, the order the specification names. *)
Definition code_unit_lt (a b : string) : bool := String.ltb a b.

(** Order of the host's collation, the order the code uses. *)
Definition collation_lt {H : Host} (a b : string) : bool := localeCompare a b <? 0.

Fixpoint distinct (keys : list string) : bool :=
  match keys with
  | [] => true
  | k :: rest => negb (existsb (String.eqb k) rest) && distinct rest
  end.

(** Every object has pairwise distinct keys, as every JavaScript object has. *)
Fixpoint well_keyed (v : json) : bool :=
  match v with
  | JArr items => forallb well_keyed items
  | JObj entries =>
      distinct (List.map fst entries) && forallb (fun e => well_keyed (snd e)) entries
  | _ => true
  end.

(** A key that an assignment appends after the keys already present:
    neither an array index nor [__proto__]. *)
Definition ordinary_key (k : string) : bool :=
  negb (String.eqb k "__proto__")
  && match array_index k with Some _ => false | None => true end.

Fixpoint plain_keys (v : json) : bool :=
  match v with
  | JArr items => forallb plain_keys items
  | JObj entries =>
      forallb (fun e => ordinary_key (fst e) && plain_keys (snd e)) entries
  | _ => true
  end.

(** Same key/value content: arrays agree position by position, objects
    agree up to the order of their entries. *)
Inductive same_content : json -> json -> Prop :=
| same_null : same_content JNull JNull
| same_bool b : same_content (JBool b) (JBool b)
| same_num n : same_content (JNum n) (JNum n)
| same_str s : same_content (JStr s) (JStr s)
| same_arr l1 l2 :
    Forall2 same_content l1 l2 -> same_content (JArr l1) (JArr l2)
| same_obj l1 l1' l2 :
    Permutation l1 l1' ->
    Forall2 (fun e1 e2 => fst e1 = fst e2 /\ same_content (snd e1) (snd e2)) l1' l2 ->
    same_content (JObj l1) (JObj l2).

(** Space, tab, line feed and carriage return: JSON's whitespace. *)
Definition is_space (c : ascii) : bool :=
  let n := nat_of_ascii c in
  ((n =? 32) || (n =? 9) || (n =? 10) || (n =? 13))%nat.

Fixpoint has_space (s : string) : bool :=
  match s with
  | EmptyString => false
  | String c s' => is_space c || has_space s'
  end.

(** No key and no string value contains whitespace. *)
Fixpoint spaceless (v : json) : bool :=
  match v with
  | JStr s => negb (has_space s)
  | JArr items => forallb spaceless items
  | JObj entries =>
      forallb (fun e => negb (has_space (fst e)) && spaceless (snd e)) entries
  | _ => true
  end.

(** [localeCompare] is a consistent comparison that tells any two distinct
    strings apart. *)
Class StrictCollation (H : Host) : Prop := {
  collation_zero : forall a b, localeCompare a b = 0 <-> a = b;
  collation_flip : forall a b, localeCompare a b < 0 <-> 0 < localeCompare b a;
  collation_trans : forall a b c,
    localeCompare a b <= 0 -> localeCompare b c <= 0 -> localeCompare a c <= 0
}.

(** ** Closed forms for the interceptor and the origin *)

Section InterceptorSteps.
Context {C : Codec}.

(** The caller's request already carries a payment header. *)
Definition carries_payment (init : RequestInit.t) : bool :=
  headers_has (RequestInit.headers init) X402_PAYMENT_SIGNATURE_HEADER
  || headers_has (RequestInit.headers init) "X-PAYMENT"
  || headers_has (RequestInit.headers init) "x-ace-payment".

(** The request context handed to [signForChallenge]. *)
Definition request_context (input : RequestInput) (init : RequestInit.t)
    : SignRequestContext.t :=
  SignRequestContext.mk (resolveMethod input init) (resolveUrl input) (resolveBody init).

(** The [init] of the retry: the caller's, with the two payment headers. *)
Definition retry_init (signed : SignedPayment.t) (init : RequestInit.t) : RequestInit.t :=
  RequestInit.mk (RequestInit.method init)
    (headers_set
       (headers_set (RequestInit.headers init) X402_PAYMENT_SIGNATURE_HEADER
          (encodePaymentHeader signed))
       "x-ace-idempotency-key" (SignedPayment.idempotencyKey signed))
    (RequestInit.body init).

(** Some entry of [accepts] carries a challenge of the protocol version. *)
Definition offers_challenge (required : X402PaymentRequired.t) : bool :=
  existsb
    (fun acceptance =>
       match X402PaymentRequiredAccept.extra_challenge acceptance with
       | Some challenge =>
           String.eqb (PaymentChallenge.version challenge) ACE_PAYMENT_VERSION
       | None => false
       end)
    (X402PaymentRequired.accepts required).

End InterceptorSteps.

(** The stored record agrees with the payment on payer (lower-cased),
    amount and request hash. *)
Definition record_matches (existing : PaymentLogRecord.t) (payment : SignedPayment.t) : bool :=
  String.eqb (PaymentLogRecord.payer existing) (toLowerCase (SignedPayment.payer payment))
  && (PaymentLogRecord.amountMicrousdc existing =? SignedPayment.amountMicrousdc payment)
  && String.eqb (PaymentLogRecord.requestHash existing) (SignedPayment.requestHash payment).

(** The payment header of an incoming request, if it has a usable one. *)
Definition payment_header (request : IncomingMessage.t) : option string :=
  single_value
    (first_defined
       (IncomingMessage.headers request !! toLowerCase X402_PAYMENT_SIGNATURE_HEADER)
       (IncomingMessage.headers request !! "x-payment")
       (IncomingMessage.headers request !! "x-ace-payment")).

(** ** A concrete host

    The statements below hold for every host.  To evaluate the model on
    concrete inputs a small host is fixed here.  Its collation follows the
    sort keys of the Unicode collation algorithm as ICU's root locale builds
    them for strings of ASCII letters and digits: the primary weights
    compare the text with case folded, and only when these agree do the
    tertiary weights decide, lower case first.  Its digest and signature
    functions are stand-ins that keep their argument visible; its URL and
    date functions agree with the platform on the inputs listed. *)
Module Demo.

Definition is_upper (c : ascii) : bool :=
  let n := nat_of_ascii c in ((65 <=? n) && (n <=? 90))%nat.

Fixpoint primary_weights (s : string) : list N :=
  match s with
  | EmptyString => []
  | String c s' => (1 + N_of_ascii (lower_char c))%N :: primary_weights s'
  end.

Fixpoint tertiary_weights (s : string) : list N :=
  match s with
  | EmptyString => []
  | String c s' => (if is_upper c then 2%N else 1%N) :: tertiary_weights s'
  end.

(** Primary weights, the level separator, tertiary weights. *)
Definition sort_key (s : string) : list N :=
  primary_weights s ++ 0%N :: tertiary_weights s.

Definition collate (a b : string) : Z :=
  match list_compare N.compare (sort_key a) (sort_key b) with
  | Lt => -1
  | Eq => 0
  | Gt => 1
  end.

Fixpoint string_drop (n : nat) (s : string) : string :=
  match n, s with
  | O, _ => s
  | S n', String _ s' => string_drop n' s'
  | S _, EmptyString => EmptyString
  end.

(** The text after the first occurrence of [p]. *)
Fixpoint after (p s : string) : option string :=
  if starts_with p s then Some (string_drop (String.length p) s)
  else match s with
       | EmptyString => None
       | String _ s' => after p s'
       end.

(** [s] cut in front of the first [c]. *)
Fixpoint cut (c : ascii) (s : string) : string * string :=
  match s with
  | EmptyString => (EmptyString, EmptyString)
  | String d s' =>
      if Ascii.eqb d c then (EmptyString, s)
      else (String d (fst (cut c s')), snd (cut c s'))
  end.

(** Absolute URLs [scheme://authority/path?query] without fragment. *)
Definition parse_url (url : string) : option (string * string) :=
  match after "://" url with
  | None => None
  | Some rest =>
      let target := snd (cut "/" rest) in
      Some (cut "?" (if String.eqb target "" then "/" else target))
  end.

Definition dates : list (string * Z) :=
  [ ("2026-01-01T00:00:00.000Z", 1767225600000);
    ("2026-01-01T00:01:00.000Z", 1767225660000);
    ("2026-01-01T00:02:00.000Z", 1767225720000);
    ("2026-01-01T00:05:00.000Z", 1767225900000);
    ("2026-01-02T00:00:00.000Z", 1767312000000) ].

Definition get_time (s : string) : option Z :=
  option_map snd (List.find (fun e => String.eqb (fst e) s) dates).

Definition to_iso_string (t : Z) : string :=
  match List.find (fun e => snd e =? t) dates with
  | Some e => fst e
  | None => render_number t
  end.

Definition address : string := "0xAbCdEf0123456789aBcDeF0123456789AbCdEf01".

Definition sign (message : string) : string := ("0xsig:" ++ message)%string.

Definition recover (message signature : string) : option string :=
  if String.eqb signature (sign message) then Some address
  else Some "0x0000000000000000000000000000000000000000".

#[export] Instance host : Host := {
  localeCompare := collate;
  sha256 s := ("h(" ++ s ++ ")")%string;
  hmacSha256 key s := ("mac(" ++ key ++ "," ++ s ++ ")")%string;
  parseUrl := parse_url;
  searchParamsGet search name :=
    if String.eqb name "task" then after "?task=" search else None;
  getTime := get_time;
  toISOString := to_iso_string;
  verifyMessage := recover
}.

Definition signer : WalletSigner :=
  {| getAddress := address; signMessage m := Some (sign m) |}.

Definition secret : string := "ace_phase0_demo_secret".
Definition url : string := "http://localhost:8080/compute?task=demo".

(** The challenge of scenario S1: 0.25 USDC for [GET /compute?task=demo],
    issued at 00:00 and valid for two minutes. *)
Definition challenge : PaymentChallenge.t :=
  createChallenge secret "challenge-1" "/compute?task=demo" "GET" 250000
    1767225600000 1767225720000 "nonce-1".

Definition request : SignRequestContext.t :=
  SignRequestContext.mk "GET" url None.

Definition empty_world (t : Z) : World :=
  {| clock := t; store := ∅; walletLog := [] |}.

(** [authorize(wallet, 5, 86400)] at 00:00 with session id [session-1]. *)
Definition create_input (limit : Z) : CreateInput.t :=
  CreateInput.mk signer limit 86400 (Some "session-1") None "uuid-0".

Definition fresh_state (limit : Z) : SessionState.t :=
  SessionState.mk "session-1" (toLowerCase address) limit
    "2026-01-01T00:00:00.000Z" "2026-01-02T00:00:00.000Z" (Finite 0) ∅.

(** A session created at 00:00, observed at [t]. *)
Definition session (limit t : Z) : Session :=
  ({| wallet := signer; state := fresh_state limit |},
   {| clock := t; store := {[ "session-1" := fresh_state limit ]}; walletLog := [] |}).

(** The outcome of a call, and the session after it. *)
Definition signed_at (limit t : Z) : Outcome SignedPayment.t * Session :=
  signForChallenge challenge request (session limit t).

Definition payment_of (r : Outcome SignedPayment.t * Session) : option SignedPayment.t :=
  match fst r with
  | Ok p => Some p
  | Throw _ => None
  end.

(** The payment signed at 00:01 in a 5 USDC session. *)
Definition payment : option SignedPayment.t := payment_of (signed_at 5000000 1767225660000).

Definition header_of (p : SignedPayment.t) : string :=
  ("b64:" ++ SignedPayment.idempotencyKey p ++ ":" ++ SignedPayment.signature p)%string.

(** A [PAYMENT-REQUIRED] value that decodes but offers nothing:
    base64 of the JSON text with [x402Version] 2, [error]
    [payment_required] and an empty [accepts]. *)
Definition empty_required_header : string :=
  "eyJ4NDAyVmVyc2lvbiI6MiwiZXJyb3IiOiJwYXltZW50X3JlcXVpcmVkIiwiYWNjZXB0cyI6W119".

Definition required_header : string := "b64:required:challenge-1".

(** The JSON body the origin sends with a 402. *)
Definition required_body : string :=
  stringify (JObj [ ("error", JStr "payment_required");
                    ("challenge", challenge_json challenge) ]).

(** A header an origin can echo instead of the client's: the same payment
    with [constructor] as its idempotency key. *)
Definition forged_header : string := "b64:constructor".

Definition forged (p : SignedPayment.t) : SignedPayment.t :=
  let u := SignedPayment.unsigned p in
  SignedPayment.mk
    (UnsignedPayment.mk (UnsignedPayment.version u) (UnsignedPayment.sessionId u)
       (UnsignedPayment.payer u) (UnsignedPayment.challengeId u)
       (UnsignedPayment.challenge u) "constructor" (UnsignedPayment.requestHash u)
       (UnsignedPayment.challengeHash u) (UnsignedPayment.amountMicrousdc u)
       (UnsignedPayment.currency u) (UnsignedPayment.sessionExpiresAt u)
       (UnsignedPayment.issuedAt u))
    (SignedPayment.signature p).

#[export] Instance codec : Codec := {
  encodePaymentHeader := header_of;
  decodePaymentHeader s :=
    match payment with
    | Some p =>
        if String.eqb s (header_of p) then Some p
        else if String.eqb s forged_header then Some (forged p)
        else None
    | None => None
    end;
  encodePaymentRequiredHeader r :=
    match X402PaymentRequired.accepts r with
    | [] => empty_required_header
    | _ => required_header
    end;
  decodePaymentRequiredHeader s :=
    if String.eqb s empty_required_header then Some (X402PaymentRequired.mk [])
    else if String.eqb s required_header then
      Some (X402PaymentRequired.mk [X402PaymentRequiredAccept.mk (Some challenge)])
    else None;
  parsePaymentRequiredBody s :=
    if String.eqb s required_body then Some (PaymentRequiredBody.mk (Some challenge))
    else None;
  encodePaymentResponse k := ("b64:response:" ++ k)%string
}.

(** The 402 of the demo origin: header and body both carry the challenge. *)
Definition full_402 : Response.t :=
  Response.mk 402
    (headers_set (headers_set ∅ "content-type" "application/json")
       X402_PAYMENT_REQUIRED_HEADER required_header)
    required_body.

(** A transport that answers [first] to a request without payment, and
    to a paid request either throws or answers with [status], echoing the
    payment header. *)
Definition transport (first : Response.t) (paid : option Z)
    (input : RequestInput) (init : RequestInit.t) : M nat Response.t :=
  do! modify S in
  match headers_get (RequestInit.headers init) X402_PAYMENT_SIGNATURE_HEADER with
  | None => ret first
  | Some hdr =>
      match paid with
      | Some status =>
          ret (Response.mk status (headers_set ∅ X402_PAYMENT_SIGNATURE_HEADER hdr) "")
      | None => throw (TransportError "network down")
      end
  end.

(** An origin that answers the paid request with 200 and echoes
    [forged_header]. *)
Definition forging_transport (first : Response.t)
    (input : RequestInput) (init : RequestInit.t) : M nat Response.t :=
  do! modify S in
  match headers_get (RequestInit.headers init) X402_PAYMENT_SIGNATURE_HEADER with
  | None => ret first
  | Some _ =>
      ret (Response.mk 200 (headers_set ∅ X402_PAYMENT_SIGNATURE_HEADER forged_header) "")
  end.

Definition get_compute : RequestInit.t := RequestInit.mk (Some "GET") ∅ None.

Definition config : ServerConfig.t := ServerConfig.mk 8080 250000 secret 120.

(** The record the origin wrote when [p] was first paid. *)
Definition record_of (p : SignedPayment.t) : PaymentLogRecord.t :=
  PaymentLogRecord.mk (SignedPayment.idempotencyKey p)
    (toLowerCase (SignedPayment.payer p)) (SignedPayment.amountMicrousdc p)
    (SignedPayment.requestHash p) "challenge-1" "2026-01-01T00:01:00.000Z"
    {| computeId := "compute-1"; output := "computed:demo:ok" |}.

(** The origin at 00:01 after it has served the payments [ps]. *)
Definition origin (ps : list PaymentLogRecord.t) : Origin :=
  {| records := list_to_map (List.map (fun r => (PaymentLogRecord.idempotencyKey r, r)) ps);
     originClock := 1767225660000;
     entropy n := ("uuid-" ++ render_number (Z.of_nat n))%string;
     drawn := 0 |}.

Definition paid_request (p : SignedPayment.t) : IncomingMessage.t :=
  IncomingMessage.mk (Some "GET") url
    {[ "payment-signature" := Single (header_of p) ]}.
(** 00:00, 00:01 and 00:05 on 2026-01-01, in epoch milliseconds. *)
Definition t_0000 : Z := 1767225600000.
Definition t_0001 : Z := 1767225660000.
Definition t_0005 : Z := 1767225900000.

(** [payment] as a value; the alternative is never taken. *)
Definition signed_payment : SignedPayment.t :=
  default
    (SignedPayment.mk
       (UnsignedPayment.mk "" "" "" "" challenge "" "" "" 0 "" "" "") "")
    payment.

(** Two keys that collation and code-unit order rank differently. *)
Definition mixed_case : json := JObj [ ("B", JNum 1); ("a", JNum 2) ].

(** One content, two insertion orders. *)
Definition inserted_ba : json :=
  JObj [ ("b", JArr [JNum 1; JStr "x"]);
         ("a", JObj [ ("z", JNull); ("y", JBool true) ]) ].

Definition inserted_ab : json :=
  JObj [ ("a", JObj [ ("y", JBool true); ("z", JNull) ]);
         ("b", JArr [JNum 1; JStr "x"]) ].

(** Keys that an assignment does not append, as [JSON.parse] builds them. *)
Definition with_indices : json :=
  JObj [ ("9", JNum 3); ("10", JNum 2); ("b", JNum 1); ("__proto__", JNum 4) ].
End Demo.

(** ** Closed forms used in the statements *)

(** [persist()] applied to a session: the store holds the state under its
    own [sessionId]. *)
Definition persisted (s : Session) : Session :=
  set_store (<[SessionState.sessionId (state (fst s)) := state (fst s)]> (store (snd s))) s.

Definition pending (s : Session) : gmap string SignedPayment.t :=
  SessionState.pendingAttempts (state (fst s)).

Definition cumulative (s : Session) : number :=
  SessionState.cumulativeSpendMicrousdc (state (fst s)).

(** [spendLimit - cumulative - pending]. *)
Definition available (s : Session) : number :=
  num_sub (num_sub (Finite (SessionState.spendLimitMicrousdc (state (fst s)))) (cumulative s))
    (Finite (pendingSpend (pending s))).

Section SigningSteps.
Context {H : Host}.

(** The exception of the first check of [signForChallenge] that rejects,
    steps 1 to 3 in the order of the source; [None] when all pass. *)
Definition early_failure (challenge : PaymentChallenge.t)
    (request : SignRequestContext.t) (s : Session) : option Error :=
  let now := clock (snd s) in
  let expiresAt := SessionState.expiresAt (state (fst s)) in
  if at_or_after now (getTime expiresAt) then Some (SessionExpired expiresAt)
  else if negb (String.eqb (PaymentChallenge.version challenge) ACE_PAYMENT_VERSION)
  then Some (UnsupportedChallengeVersion (PaymentChallenge.version challenge))
  else if negb (String.eqb (PaymentChallenge.currency challenge) "USDC")
  then Some (UnsupportedCurrency (PaymentChallenge.currency challenge))
  else if at_or_after now (getTime (PaymentChallenge.expiresAt challenge))
  then Some ChallengeExpired
  else match deriveResource (SignRequestContext.url request) with
       | None => Some InvalidUrl
       | Some resource =>
           if negb (String.eqb (PaymentChallenge.method challenge)
                      (toUpperCase (SignRequestContext.method request)))
           then Some ChallengeMethodMismatch
           else if negb (String.eqb (PaymentChallenge.resource challenge) resource)
           then Some ChallengeResourceMismatch
           else None
       end.

(** Step 4: the request hash and the idempotency key. *)
Definition request_hash_of (request : SignRequestContext.t) : option string :=
  deriveRequestHash
    (SignRequestContext.mk (toUpperCase (SignRequestContext.method request))
       (SignRequestContext.url request) (SignRequestContext.body request)).

Definition key_of (challenge : PaymentChallenge.t) (request : SignRequestContext.t)
    (s : Session) : option string :=
  match request_hash_of request with
  | Some requestHash =>
      Some (deriveIdempotencyKey (SessionState.sessionId (state (fst s)))
              (SessionState.payer (state (fst s)))
              (PaymentChallenge.challengeId challenge) requestHash
              (PaymentChallenge.amountMicrousdc challenge))
  | None => None
  end.

(** Step 7: the payment that is signed. *)
Definition unsigned_for (challenge : PaymentChallenge.t) (requestHash key : string)
    (s : Session) : UnsignedPayment.t :=
  let st := state (fst s) in
  UnsignedPayment.mk ACE_PAYMENT_VERSION (SessionState.sessionId st)
    (SessionState.payer st) (PaymentChallenge.challengeId challenge) challenge
    key requestHash (deriveChallengeHash challenge)
    (PaymentChallenge.amountMicrousdc challenge)
    (PaymentChallenge.currency challenge) (SessionState.expiresAt st)
    (toISOString (clock (snd s))).

(** Step 8: the session after a payment was signed. *)
Definition with_attempt (key : string) (p : SignedPayment.t) (s : Session) : Session :=
  persisted
    (set_state (with_pending (state (fst s)) (<[key := p]> (pending s)))
       (log_signature (buildPaymentSigningMessage (SignedPayment.unsigned p)) s)).

(** The checks the claim lists before the spend limit, read off the
    specification: session expired; version, currency or expiry of the
    challenge rejected; method or resource mismatch. *)
Definition session_expired (s : Session) : bool :=
  at_or_after (clock (snd s)) (getTime (SessionState.expiresAt (state (fst s)))).


End SigningSteps.

(** The session is within its limit and every pending amount is positive,
    and so is every session in the store. *)
Definition sound (s : Session) : Prop :=
  spend_safe (state (fst s)) /\ pending_positive (state (fst s)) /\ store_sound (snd s).


(** The entry [e1] sorts at or before [e2]. *)
Definition precedes {H : Host} (e1 e2 : string * json) : Prop :=
  localeCompare (fst e1) (fst e2) <= 0.

(** The key of a commit names no member of [Object.prototype]. *)
Definition plain_commit (op : Op) : Prop :=
  match op with
  | Commit k => inherited k = false
  | _ => True
  end.


(** ** Further closed forms and predicates *)

(** Some object of [v], at any depth, has an own property [__proto__]. *)
Fixpoint has_proto_key (v : json) : bool :=
  match v with
  | JArr items => existsb has_proto_key items
  | JObj entries =>
      existsb (fun e => String.eqb (fst e) "__proto__" || has_proto_key (snd e)) entries
  | _ => false
  end.

(** The store holds the session's state under the session's id: what
    [restore] would read back is what the object holds. *)
Definition mirrored (s : Session) : Prop :=
  store (snd s) !! SessionState.sessionId (state (fst s)) = Some (state (fst s)).


(** Every pending attempt is stored under its own idempotency key. *)
Definition keyed (st : SessionState.t) : Prop :=
  forall k p, SessionState.pendingAttempts st !! k = Some p ->
              SignedPayment.idempotencyKey p = k.

(** The wallet, the session id and the payer are those of [s]. *)
Definition same_identity (s s' : Session) : Prop :=
  wallet (fst s') = wallet (fst s)
  /\ SessionState.sessionId (state (fst s')) = SessionState.sessionId (state (fst s))
  /\ SessionState.payer (state (fst s')) = SessionState.payer (state (fst s)).

(** The id under which [create] looks the session up:
    [input.sessionId ?? randomUUID()]. *)
Definition created_id (input : CreateInput.t) : string :=
  default (CreateInput.fresh input) (CreateInput.sessionId input).

Section CommitSteps.
Context {C : Codec}.

(** The key the interceptor commits after a 2xx retry: the key of the
    echoed [PAYMENT-SIGNATURE] header when the response has one, else the
    key of the payment it signed; [None] when the echoed header does not
    decode. *)
Definition committed_key (response : Response.t) (signed : SignedPayment.t) : option string :=
  let echoedPaymentHeader :=
    headers_get (Response.headers response) X402_PAYMENT_SIGNATURE_HEADER in
  if truthy echoedPaymentHeader then
    option_map SignedPayment.idempotencyKey
      (decodePaymentHeader (default "" echoedPaymentHeader))
  else Some (SignedPayment.idempotencyKey signed).
End CommitSteps.

Section OriginSteps.
Context {H : Host} {C : Codec}.

(** Every check of [validateSignedPayment] passes at time [now], in the
    order of the source. *)
Definition passes_validation (payment : SignedPayment.t)
    (expectedResource expectedMethod requestHash : string) (config : ServerConfig.t)
    (now : Z) : Prop :=
  let p := SignedPayment.unsigned payment in
  let challenge := UnsignedPayment.challenge p in
  UnsignedPayment.version p = ACE_PAYMENT_VERSION
  /\ UnsignedPayment.currency p = "USDC"
  /\ UnsignedPayment.challengeId p = PaymentChallenge.challengeId challenge
  /\ PaymentChallenge.resource challenge = expectedResource
  /\ PaymentChallenge.method challenge = expectedMethod
  /\ UnsignedPayment.challengeHash p = deriveChallengeHash challenge
  /\ UnsignedPayment.requestHash p = requestHash
  /\ verifyChallenge challenge (ServerConfig.challengeSecret config) = true
  /\ at_or_after now (getTime (PaymentChallenge.expiresAt challenge)) = false
  /\ deriveIdempotencyKey (UnsignedPayment.sessionId p) (UnsignedPayment.payer p)
       (PaymentChallenge.challengeId challenge) (UnsignedPayment.requestHash p)
       (UnsignedPayment.amountMicrousdc p)
     = UnsignedPayment.idempotencyKey p
  /\ UnsignedPayment.amountMicrousdc p = ServerConfig.amountMicrousdc config
  /\ at_or_after now (getTime (UnsignedPayment.sessionExpiresAt p)) = false
  /\ exists recovered,
       verifyMessage (buildPaymentSigningMessage p) (SignedPayment.signature payment)
       = Some recovered
       /\ toLowerCase recovered = toLowerCase (UnsignedPayment.payer p).

(** The challenge of a 402: its id and nonce are the next two UUIDs. *)
Definition issued_challenge (config : ServerConfig.t) (resource method : string)
    (o : Origin) : PaymentChallenge.t :=
  createChallenge (ServerConfig.challengeSecret config) (entropy o (drawn o)) resource method
    (ServerConfig.amountMicrousdc config) (originClock o)
    (originClock o + ServerConfig.challengeTtlSeconds config * 1000)
    (entropy o (S (drawn o))).

(** The origin after [n] calls of [randomUUID()]. *)
Definition after_draws (n : nat) (o : Origin) : Origin :=
  {| records := records o; originClock := originClock o; entropy := entropy o;
     drawn := (n + drawn o)%nat |}.

(** The record written for a payment that is served for the first time. *)
Definition new_record (payment : SignedPayment.t) (search : string) (o : Origin)
    : PaymentLogRecord.t :=
  PaymentLogRecord.mk (SignedPayment.idempotencyKey payment)
    (toLowerCase (SignedPayment.payer payment)) (SignedPayment.amountMicrousdc payment)
    (SignedPayment.requestHash payment)
    (UnsignedPayment.challengeId (SignedPayment.unsigned payment))
    (toISOString (originClock o))
    {| computeId := entropy o (drawn o);
       output := ("computed:" ++ default "default-compute" (searchParamsGet search "task")
                  ++ ":ok")%string |}.

(** The request hash the origin computes for a request to [resource]:
    [deriveRequestHash({ method, url })] without a body. *)
Definition origin_request_hash (method resource : string) : string :=
  sha256Hex (canonicalJson
    (JObj [ ("bodyHash", JStr ""); ("method", JStr (toUpperCase method));
            ("resource", JStr resource) ])).

(** The 422 of the [catch] block. *)
Definition invalid_payment (e : Error) : ServerResponse.t :=
  sendJson 422 (InvalidPaymentPayload (error_message e)) [].

(** The 200 of a paid request, first served or replayed. *)
Definition served (replayed : bool) (hdr : string) (record : PaymentLogRecord.t)
    : ServerResponse.t :=
  sendJson 200
    (PaidPayload replayed (PaymentLogRecord.result record)
       (PaymentLogRecord.idempotencyKey record) (PaymentLogRecord.amountMicrousdc record))
    (paid_headers hdr (PaymentLogRecord.idempotencyKey record)).
End OriginSteps.

(** ** The interceptor against the demo origin

    [fetch] against the listener of the demo origin, as the integration
    test runs it: the listener receives the method and the URL of the
    request and its headers under lower-cased names, one value each; its
    status, headers and JSON body come back as the [Response]. *)





Section Wire.
Context {H : Host} {C : Codec}.

End Wire.

(** ** Further scenarios on the concrete host *)
Module Scenario.

(** A response that asks for no payment. *)
Definition plain_200 : Response.t := Response.mk 200 ∅ "ok".

(** The 200 of [Demo.transport] to the paid request: it echoes the
    payment header. *)
Definition paid_response : Response.t :=
  Response.mk 200
    (headers_set ∅ X402_PAYMENT_SIGNATURE_HEADER (Demo.header_of Demo.signed_payment)) "".

(** An origin that answers the paid request with 200 and a
    [PAYMENT-SIGNATURE] header that is no base64 of a payment. *)
Definition garbling_transport (first : Response.t)
    (input : RequestInput) (init : RequestInit.t) : M nat Response.t :=
  do! modify S in
  match headers_get (RequestInit.headers init) X402_PAYMENT_SIGNATURE_HEADER with
  | None => ret first
  | Some _ =>
      ret (Response.mk 200 (headers_set ∅ X402_PAYMENT_SIGNATURE_HEADER "not-base64") "")
  end.

(** [GET /compute?task=demo] without a payment header. *)
Definition unpaid_request : IncomingMessage.t :=
  IncomingMessage.mk (Some "GET") Demo.url ∅.

(** [SessionKey.create] again for [session-1], now with a limit of 9 USDC
    and one hour to live. *)
Definition second_input : CreateInput.t :=
  CreateInput.mk Demo.signer 9000000 3600 (Some "session-1") None "uuid-1".

Definition zero_ttl_input : CreateInput.t :=
  CreateInput.mk Demo.signer 5000000 0 (Some "session-1") None "uuid-1".

(** The demo origin at 00:00 with an empty ledger; its next UUIDs are the
    id and the nonce of [Demo.challenge]. *)
Definition opening_origin : Origin :=
  {| records := ∅;
     originClock := 1767225600000;
     entropy n := match n with
                  | O => "challenge-1"
                  | S O => "nonce-1"
                  | _ => "compute-1"
                  end;
     drawn := 0 |}.

(** The challenge of its 402 for [GET /compute?task=demo], the payment a
    fresh 5 USDC session signs for it at 00:01, and codecs for the two. *)
Definition offered : PaymentChallenge.t :=
  issued_challenge (H := Demo.host) Demo.config ("/compute" ++ "?task=demo")
    (resolveMethod (InputString Demo.url) Demo.get_compute) opening_origin.

Definition request_hash : string :=
  origin_request_hash (H := Demo.host)
    (resolveMethod (InputString Demo.url) Demo.get_compute) ("/compute" ++ "?task=demo").

Definition key : string :=
  deriveIdempotencyKey (H := Demo.host)
    (SessionState.sessionId (state (fst (Demo.session 5000000 Demo.t_0001))))
    (SessionState.payer (state (fst (Demo.session 5000000 Demo.t_0001))))
    (PaymentChallenge.challengeId offered) request_hash
    (PaymentChallenge.amountMicrousdc offered).

Definition unsigned : UnsignedPayment.t :=
  unsigned_for (H := Demo.host) offered request_hash key (Demo.session 5000000 Demo.t_0001).

Definition signature : string :=
  Demo.sign (buildPaymentSigningMessage (H := Demo.host) unsigned).

Definition signed : SignedPayment.t := SignedPayment.mk unsigned signature.

Definition codec : Codec := {|
  encodePaymentHeader p := ("b64:" ++ SignedPayment.idempotencyKey p)%string;
  decodePaymentHeader s :=
    if String.eqb s ("b64:" ++ SignedPayment.idempotencyKey signed)%string
    then Some signed else None;
  encodePaymentRequiredHeader r := "b64:required";
  decodePaymentRequiredHeader s :=
    if String.eqb s "b64:required"
    then Some (X402PaymentRequired.mk [X402PaymentRequiredAccept.mk (Some offered)])
    else None;
  parsePaymentRequiredBody s := None;
  encodePaymentResponse k := ("b64:response:" ++ k)%string
|}.
End Scenario.

(** * Theorems *)

(** ** The pending map *)

Lemma without_key_delete (k : string) (m : gmap string SignedPayment.t) :
  without_key k m = delete k m.
Proof.
  apply map_eq; intros i. unfold without_key.
  rewrite map_lookup_filter.
  destruct (decide (i = k)) as [->|Hne].
  - rewrite lookup_delete_eq.
    destruct (m !! k); simpl; [|done].
    rewrite option_guard_False; [done|]. simpl. intros Hk. by apply Hk.
  - rewrite lookup_delete_ne by done.
    destruct (m !! i); simpl; [|done].
    by rewrite option_guard_True.
Qed.


Lemma pendingSpend_insert (k : string) (p : SignedPayment.t)
    (m : gmap string SignedPayment.t) :
  m !! k = None ->
  pendingSpend (<[k := p]> m) = pendingSpend m + SignedPayment.amountMicrousdc p.
Proof.
  intros Hk. unfold pendingSpend.
  rewrite map_fold_insert_L; [done| |done].
  intros; lia.
Qed.

Lemma pendingSpend_delete (k : string) (p : SignedPayment.t)
    (m : gmap string SignedPayment.t) :
  m !! k = Some p ->
  pendingSpend m = pendingSpend (delete k m) + SignedPayment.amountMicrousdc p.
Proof.
  intros Hk. unfold pendingSpend.
  rewrite (map_fold_delete_L _ _ k p m); [done| |done].
  intros; lia.
Qed.

Lemma get_attempt_own (m : gmap string SignedPayment.t) (k : string)
    (attempt : SignedPayment.t) :
  m !! k = Some attempt -> get_attempt m k = OwnAttempt attempt.
Proof. unfold get_attempt. by intros ->. Qed.

Lemma get_attempt_undefined (m : gmap string SignedPayment.t) (k : string) :
  m !! k = None -> inherited k = false -> get_attempt m k = Undefined.
Proof. unfold get_attempt. by intros -> ->. Qed.

Lemma get_attempt_inherited (m : gmap string SignedPayment.t) (k : string) :
  m !! k = None -> inherited k = true -> get_attempt m k = PrototypeMember.
Proof. unfold get_attempt. by intros -> ->. Qed.

Section LedgerFacts.
Context {H : Host}.

(** No member of [Object.prototype] is found under an idempotency key. *)
Lemma idempotency_key_not_inherited
    (sessionId payer challengeId requestHash : string) (amountMicrousdc : Z) :
  inherited (deriveIdempotencyKey sessionId payer challengeId requestHash amountMicrousdc)
  = false.
Proof. reflexivity. Qed.

Ltac run_method :=
  unfold commitPayment, releasePayment, persist, store_save, lift_snd,
    bind, gets, modify, ret, pending, cumulative; simpl.

Lemma commitPayment_absent (k : string) (s : Session) :
  pending s !! k = None -> inherited k = false -> commitPayment k s = (Ok tt, s).
Proof.
  destruct s as [sk w]. run_method. intros Hk Hin.
  by rewrite (get_attempt_undefined _ _ Hk Hin).
Qed.

Lemma commitPayment_present (k : string) (s : Session) (attempt : SignedPayment.t) :
  pending s !! k = Some attempt ->
  commitPayment k s =
    (Ok tt,
     persisted (set_state
       (with_spend_and_pending (state (fst s))
          (num_add (cumulative s) (Finite (SignedPayment.amountMicrousdc attempt)))
          (delete k (pending s))) s)).
Proof.
  destruct s as [sk w]. run_method. intros Hk.
  rewrite (get_attempt_own _ _ _ Hk). simpl.
  by rewrite without_key_delete.
Qed.

(** Under the name of a member of [Object.prototype] that is not pending,
    the member is taken for the attempt: its missing amount turns the
    cumulative spend into [NaN], and the state is saved. *)
Lemma commitPayment_inherited (k : string) (s : Session) :
  pending s !! k = None -> inherited k = true ->
  commitPayment k s =
    (Ok tt,
     persisted (set_state (with_spend_and_pending (state (fst s)) NaN (pending s)) s)).
Proof.
  destruct s as [sk w]. run_method. intros Hk Hin.
  rewrite (get_attempt_inherited _ _ Hk Hin). simpl.
  rewrite without_key_delete, (delete_id _ _ Hk).
  by destruct (SessionState.cumulativeSpendMicrousdc (state sk)).
Qed.

Lemma releasePayment_absent (k : string) (s : Session) :
  pending s !! k = None -> inherited k = false -> releasePayment k s = (Ok tt, s).
Proof.
  destruct s as [sk w]. run_method. intros Hk Hin.
  by rewrite (get_attempt_undefined _ _ Hk Hin).
Qed.

Lemma releasePayment_present (k : string) (s : Session) (attempt : SignedPayment.t) :
  pending s !! k = Some attempt ->
  releasePayment k s =
    (Ok tt,
     persisted (set_state (with_pending (state (fst s)) (delete k (pending s))) s)).
Proof.
  destruct s as [sk w]. run_method. intros Hk.
  rewrite (get_attempt_own _ _ _ Hk). simpl.
  by rewrite without_key_delete.
Qed.

Lemma releasePayment_inherited (k : string) (s : Session) :
  pending s !! k = None -> inherited k = true ->
  releasePayment k s =
    (Ok tt, persisted (set_state (with_pending (state (fst s)) (pending s)) s)).
Proof.
  destruct s as [sk w]. run_method. intros Hk Hin.
  rewrite (get_attempt_inherited _ _ Hk Hin). simpl.
  by rewrite without_key_delete, (delete_id _ _ Hk).
Qed.

(** The three cases of a property read. *)
Lemma attempt_cases (k : string) (s : Session) :
  (exists attempt, pending s !! k = Some attempt)
  \/ (pending s !! k = None /\ inherited k = true)
  \/ (pending s !! k = None /\ inherited k = false).
Proof.
  destruct (pending s !! k) as [attempt|]; [eauto|].
  destruct (inherited k); auto.
Qed.
End LedgerFacts.

(** ** [signForChallenge], step by step *)

Section SigningFacts.
Context {H : Host}.

Lemma request_hash_resource (request : SignRequestContext.t) (resource : string) :
  deriveResource (SignRequestContext.url request) = Some resource ->
  exists requestHash, request_hash_of request = Some requestHash.
Proof.
  intros Hres. unfold request_hash_of, deriveRequestHash. simpl.
  rewrite Hres. eauto.
Qed.

(** The body of [signForChallenge] as a decision tree over the session it
    is called on. *)
Lemma signForChallenge_unfold (challenge : PaymentChallenge.t)
    (request : SignRequestContext.t) (s : Session) :
  signForChallenge challenge request s =
    match early_failure challenge request s with
    | Some e => (Throw e, s)
    | None =>
        match request_hash_of request, key_of challenge request s with
        | Some requestHash, Some key =>
            match pending s !! key with
            | Some existing => (Ok existing, s)
            | None =>
                if num_gt (Finite (PaymentChallenge.amountMicrousdc challenge))
                     (available s) then
                  (Throw (SpendLimitExceeded (PaymentChallenge.amountMicrousdc challenge)
                            (available s)), s)
                else
                  let unsignedPayment := unsigned_for challenge requestHash key s in
                  match signMessage (wallet (fst s))
                          (buildPaymentSigningMessage unsignedPayment) with
                  | Some signature =>
                      let signedPayment := SignedPayment.mk unsignedPayment signature in
                      (Ok signedPayment, with_attempt key signedPayment s)
                  | None => (Throw WalletError, s)
                  end
            end
        | _, _ => (Throw InvalidUrl, s)
        end
    end.
Proof.
  destruct s as [sk w].
  unfold signForChallenge, early_failure, key_of, ensureActive, bind, gets, throw_if; simpl.
  destruct (at_or_after (clock w) (getTime (SessionState.expiresAt (state sk)))); [done|].
  simpl.
  destruct (String.eqb (PaymentChallenge.version challenge) ACE_PAYMENT_VERSION); [|done].
  simpl.
  destruct (String.eqb (PaymentChallenge.currency challenge) "USDC"); [|done].
  simpl.
  destruct (at_or_after (clock w) (getTime (PaymentChallenge.expiresAt challenge))); [done|].
  simpl.
  destruct (deriveResource (SignRequestContext.url request)) as [resource|] eqn:Hres; [|done].
  simpl.
  destruct (String.eqb (PaymentChallenge.method challenge)
              (toUpperCase (SignRequestContext.method request))); [|done].
  simpl.
  destruct (String.eqb (PaymentChallenge.resource challenge) resource); [|done].
  simpl.
  unfold request_hash_of.
  destruct (deriveRequestHash _) as [requestHash|]; [|done].
  simpl. unfold pending; simpl.
  destruct (SessionState.pendingAttempts (state sk) !! _) as [existing|] eqn:Hex; [done|].
  unfold available, cumulative, pending; simpl.
  destruct (num_gt (Finite (PaymentChallenge.amountMicrousdc challenge)) _); [done|].
  simpl.
  unfold wallet_sign, bind, gets, modify, ret, throw; simpl.
  destruct (signMessage (wallet sk) _) as [signature|]; [|done].
  reflexivity.
Qed.

(** A call that throws has changed nothing. *)
Lemma signForChallenge_throws_unchanged (challenge : PaymentChallenge.t)
    (request : SignRequestContext.t) (s s' : Session) (e : Error) :
  signForChallenge challenge request s = (Throw e, s') -> s' = s.
Proof.
  rewrite signForChallenge_unfold.
  destruct (early_failure challenge request s); [by intros [= _ <-]|].
  destruct (request_hash_of request), (key_of challenge request s);
    try by intros [= _ <-].
  destruct (pending s !! _); [discriminate|].
  destruct (num_gt _ (available s)); [by intros [= _ <-]|]. cbn zeta.
  destruct (signMessage _ _); [discriminate|by intros [= _ <-]].
Qed.
End SigningFacts.

(** ** Commit and release *)

Section CommitRelease.
Context {H : Host}.

(** What [commitPayment(k)] does when no member of [Object.prototype] is
    mistaken for an attempt: nothing if [k] is not pending; otherwise the
    attempt's amount moves from pending to cumulative, the state is saved,
    and a second commit of [k] changes nothing. *)
Lemma commitPayment_moves_amount (k : string) (s : Session) :
  match pending s !! k with
  | None => inherited k = false -> commitPayment k s = (Ok tt, s)
  | Some attempt =>
      let s' := snd (commitPayment k s) in
      fst (commitPayment k s) = Ok tt
      /\ cumulative s'
         = num_add (cumulative s) (Finite (SignedPayment.amountMicrousdc attempt))
      /\ pending s' = delete k (pending s)
      /\ store (snd s')
         = <[SessionState.sessionId (state (fst s)) := state (fst s')]> (store (snd s))
      /\ (inherited k = false -> commitPayment k s' = (Ok tt, s'))
  end.
Proof.
  destruct (pending s !! k) as [attempt|] eqn:Hk.
  - rewrite (commitPayment_present k s attempt Hk). cbn zeta.
    set (s' := snd _).
    assert (Hgone : pending s' !! k = None).
    { subst s'. unfold pending. simpl. apply lookup_delete_eq. }
    destruct s as [sk w]. subst s'. unfold pending, cumulative in *. simpl in *.
    repeat split; try reflexivity.
    intros Hin. by apply commitPayment_absent.
  - by apply commitPayment_absent.
Qed.

(** C10.  Frame of [commitPayment(k)] and [releasePayment(k)]: the session
    id, payer, spend limit, creation and expiry times are unchanged, and so
    is every pending attempt under a key other than [k]; [releasePayment]
    also leaves the cumulative spend unchanged. *)
Theorem commit_release_frame (k k' : string) (s : Session) :
  let unchanged (s' : Session) :=
    SessionState.sessionId (state (fst s')) = SessionState.sessionId (state (fst s))
    /\ SessionState.payer (state (fst s')) = SessionState.payer (state (fst s))
    /\ SessionState.spendLimitMicrousdc (state (fst s'))
       = SessionState.spendLimitMicrousdc (state (fst s))
    /\ SessionState.createdAt (state (fst s')) = SessionState.createdAt (state (fst s))
    /\ SessionState.expiresAt (state (fst s')) = SessionState.expiresAt (state (fst s))
    /\ (k' <> k -> pending s' !! k' = pending s !! k') in
  unchanged (snd (commitPayment k s))
  /\ unchanged (snd (releasePayment k s))
  /\ cumulative (snd (releasePayment k s)) = cumulative s.
Proof.
  cbn zeta.
  destruct (attempt_cases k s) as [[attempt Hk]|[[Hk Hin]|[Hk Hin]]].
  - rewrite (commitPayment_present k s attempt Hk), (releasePayment_present k s attempt Hk).
    destruct s as [sk w]. unfold pending, cumulative in *. simpl in *.
    repeat split; try reflexivity; intros Hne; by rewrite lookup_delete_ne.
  - rewrite (commitPayment_inherited k s Hk Hin), (releasePayment_inherited k s Hk Hin).
    destruct s as [sk w]. unfold pending, cumulative in *. simpl in *.
    repeat split; reflexivity.
  - rewrite (commitPayment_absent k s Hk Hin), (releasePayment_absent k s Hk Hin).
    simpl. repeat split; reflexivity.
Qed.

Lemma releasePayment_clears (k : string) (s : Session) :
  releasePayment k s = (Ok tt, snd (releasePayment k s))
  /\ pending (snd (releasePayment k s)) !! k = None
  /\ cumulative (snd (releasePayment k s)) = cumulative s.
Proof.
  destruct (attempt_cases k s) as [[attempt Hk]|[[Hk Hin]|[Hk Hin]]].
  - rewrite (releasePayment_present k s attempt Hk).
    destruct s as [sk w]. unfold pending, cumulative in *. simpl in *.
    split; [done|]. split; [apply lookup_delete_eq|reflexivity].
  - rewrite (releasePayment_inherited k s Hk Hin).
    destruct s as [sk w]. unfold pending, cumulative in *. simpl in *. done.
  - rewrite (releasePayment_absent k s Hk Hin). simpl. done.
Qed.
End CommitRelease.

(** ** Signing: failure and repetition *)

Section SigningClaims.
Context {H : Host}.


End SigningClaims.

Section SigningRepeated.
Context {H : Host}.

(** What a returning call of [signForChallenge] did: it found the attempt
    pending, or it signed and stored a new one. *)
Lemma signForChallenge_returns (challenge : PaymentChallenge.t)
    (request : SignRequestContext.t) (s s1 : Session) (p : SignedPayment.t) :
  signForChallenge challenge request s = (Ok p, s1) ->
  early_failure challenge request s = None
  /\ exists requestHash key,
       request_hash_of request = Some requestHash
       /\ key_of challenge request s = Some key
       /\ ((pending s !! key = Some p /\ s1 = s)
           \/ (pending s !! key = None
               /\ num_gt (Finite (PaymentChallenge.amountMicrousdc challenge))
                         (available s) = false
               /\ SignedPayment.amountMicrousdc p
                  = PaymentChallenge.amountMicrousdc challenge
               /\ SignedPayment.unsigned p = unsigned_for challenge requestHash key s
               /\ s1 = with_attempt key p s)).
Proof.
  rewrite signForChallenge_unfold.
  destruct (early_failure challenge request s); [discriminate|].
  destruct (request_hash_of request) as [requestHash|] eqn:Hrh; [|discriminate].
  destruct (key_of challenge request s) as [key|] eqn:Hkey; [|discriminate].
  destruct (pending s !! key) as [existing|] eqn:Hex.
  - intros [= <- <-]. split; [done|]. exists requestHash, key. auto.
  - destruct (num_gt _ (available s)) eqn:Hgt; [discriminate|]. cbn zeta.
    destruct (signMessage _ _) as [signature|]; [|discriminate].
    intros [= <- <-]. split; [done|]. exists requestHash, key.
    split; [done|]. split; [done|]. right. repeat split; auto.
Qed.

Lemma early_failure_later (challenge : PaymentChallenge.t)
    (request : SignRequestContext.t) (s s2 : Session) :
  early_failure challenge request s = None ->
  session_expired s2 = false ->
  at_or_after (clock (snd s2)) (getTime (PaymentChallenge.expiresAt challenge)) = false ->
  early_failure challenge request s2 = None.
Proof.
  unfold early_failure, session_expired. intros Hfirst -> ->.
  revert Hfirst.
  destruct (at_or_after _ _); [discriminate|].
  destruct (negb (String.eqb (PaymentChallenge.version challenge) _)); [discriminate|].
  destruct (negb (String.eqb (PaymentChallenge.currency challenge) _)); [discriminate|].
  destruct (at_or_after _ _); [discriminate|].
  done.
Qed.

(** C3, as amended.  After [signForChallenge] has returned a payment, a
    second call with the same challenge and request context, made while
    the session and the challenge are both unexpired, returns that same
    payment (same signature, same [issuedAt]) and leaves the session, the
    store and the wallet's record of signatures untouched; the payment is
    the pending entry under the derived key, and the only pending entry
    when none was pending before. *)
Theorem signForChallenge_twice (challenge : PaymentChallenge.t)
    (request : SignRequestContext.t) (s s1 : Session) (p : SignedPayment.t) (t : Z) :
  signForChallenge challenge request s = (Ok p, s1) ->
  session_expired (set_clock t s1) = false ->
  at_or_after t (getTime (PaymentChallenge.expiresAt challenge)) = false ->
  signForChallenge challenge request (set_clock t s1) = (Ok p, set_clock t s1)
  /\ exists key, key_of challenge request s = Some key
                 /\ pending s1 !! key = Some p
                 /\ (pending s = ∅ -> pending s1 = {[ key := p ]}).
Proof.
  intros Hfirst Hsession Hchallenge.
  destruct (signForChallenge_returns _ _ _ _ _ Hfirst)
    as (Hearly & requestHash & key & Hrh & Hkey & Hcase).
  assert (Hpend : pending s1 !! key = Some p).
  { destruct Hcase as [[Hp ->]|(_ & _ & _ & _ & ->)]; [done|].
    destruct s as [sk w]. unfold pending. simpl. apply lookup_insert_eq. }
  assert (Hids : SessionState.sessionId (state (fst s1)) = SessionState.sessionId (state (fst s))
                 /\ SessionState.payer (state (fst s1)) = SessionState.payer (state (fst s))).
  { destruct Hcase as [[_ ->]|(_ & _ & _ & _ & ->)]; [done|].
    destruct s as [sk w]. simpl. done. }
  split.
  - rewrite signForChallenge_unfold.
    rewrite (early_failure_later challenge request s (set_clock t s1)); try done.
    rewrite Hrh.
    assert (Hkey2 : key_of challenge request (set_clock t s1) = Some key).
    { revert Hkey. unfold key_of. rewrite Hrh. destruct s1 as [sk1 w1]. simpl in *.
      destruct Hids as [-> ->]. done. }
    rewrite Hkey2.
    replace (pending (set_clock t s1)) with (pending s1) by (by destruct s1).
    by rewrite Hpend.
  - exists key. split; [done|]. split; [done|].
    intros Hempty. destruct Hcase as [[Hp ->]|(_ & _ & _ & _ & ->)].
    + rewrite Hempty in Hp. by rewrite lookup_empty in Hp.
    + destruct s as [sk w]. unfold with_attempt, pending in *. simpl in *.
      rewrite Hempty. apply insert_empty.
Qed.
End SigningRepeated.

(** ** Spend safety and monotonicity *)

Section SpendInvariants.
Context {H : Host}.

Lemma spend_safe_finite (st : SessionState.t) :
  spend_safe st <->
  exists c, SessionState.cumulativeSpendMicrousdc st = Finite c
            /\ c + pendingSpend (SessionState.pendingAttempts st)
               <= SessionState.spendLimitMicrousdc st.
Proof.
  unfold spend_safe, num_le, num_add.
  destruct (SessionState.cumulativeSpendMicrousdc st) as [c|]; split.
  - intros Hle%Z.leb_le. eauto.
  - intros (c' & [= <-] & Hle). by apply Z.leb_le.
  - discriminate.
  - intros (c' & Hc & _). discriminate.
Qed.

Lemma store_sound_insert (w : World) (st : SessionState.t) (log : list string) (t : Z) :
  store_sound w -> spend_safe st -> pending_positive st ->
  store_sound {| clock := t; store := <[SessionState.sessionId st := st]> (store w);
                 walletLog := log |}.
Proof.
  intros Hw Hsafe Hpos sid st'. simpl.
  destruct (decide (SessionState.sessionId st = sid)) as [->|Hne].
  - rewrite lookup_insert_eq. by intros [= <-].
  - rewrite lookup_insert_ne by done. apply Hw.
Qed.

Lemma signForChallenge_effect (challenge : PaymentChallenge.t)
    (request : SignRequestContext.t) (s : Session) :
  snd (signForChallenge challenge request s) = s
  \/ exists key p,
       pending s !! key = None
       /\ num_gt (Finite (PaymentChallenge.amountMicrousdc challenge)) (available s) = false
       /\ SignedPayment.amountMicrousdc p = PaymentChallenge.amountMicrousdc challenge
       /\ snd (signForChallenge challenge request s) = with_attempt key p s.
Proof.
  destruct (signForChallenge challenge request s) as [[p|e] s1] eqn:Hr.
  - destruct (signForChallenge_returns _ _ _ _ _ Hr)
      as (_ & requestHash & key & _ & _ & [[_ ->]|(Hn & Hav & Ham & _ & ->)]).
    + by left.
    + right. exists key, p. auto.
  - left. simpl. by apply (signForChallenge_throws_unchanged challenge request s s1 e).
Qed.

Lemma with_attempt_sound (key : string) (p : SignedPayment.t) (s : Session) :
  sound s -> pending s !! key = None ->
  0 < SignedPayment.amountMicrousdc p ->
  num_gt (Finite (SignedPayment.amountMicrousdc p)) (available s) = false ->
  sound (with_attempt key p s) /\ cumulative (with_attempt key p s) = cumulative s.
Proof.
  intros (Hsafe & Hpos & Hstore) Hnone Hamount Hav.
  apply spend_safe_finite in Hsafe as (c & Hc & Hle).
  destruct s as [sk w].
  unfold sound, with_attempt, persisted, available, cumulative, pending in *.
  simpl in *. rewrite Hc in Hav. unfold num_gt, num_sub in Hav. apply Z.ltb_ge in Hav.
  set (st' := with_pending (state sk)
                (<[key:=p]> (SessionState.pendingAttempts (state sk)))).
  assert (Hsafe' : spend_safe st').
  { apply spend_safe_finite. exists c. unfold st'. simpl. split; [done|].
    rewrite pendingSpend_insert by done. lia. }
  assert (Hpos' : pending_positive st').
  { intros k q. unfold st'. simpl. destruct (decide (key = k)) as [->|Hne].
    - rewrite lookup_insert_eq. by intros [= <-].
    - rewrite lookup_insert_ne by done. apply Hpos. }
  split; [|reflexivity].
  split; [exact Hsafe'|]. split; [exact Hpos'|].
  by apply (store_sound_insert w st').
Qed.

Lemma commitPayment_sound (k : string) (s : Session) :
  inherited k = false -> sound s ->
  sound (snd (commitPayment k s))
  /\ num_le (cumulative s) (cumulative (snd (commitPayment k s))) = true.
Proof.
  intros Hin (Hsafe & Hpos & Hstore).
  pose proof Hsafe as (c & Hc & Hle)%spend_safe_finite.
  destruct (pending s !! k) as [attempt|] eqn:Hk.
  - rewrite (commitPayment_present k s attempt Hk).
    destruct s as [sk w].
    unfold sound, persisted, cumulative, pending in *. simpl in *.
    pose proof (Hpos k attempt Hk) as Hamount.
    pose proof (pendingSpend_delete k attempt _ Hk) as Hsum.
    rewrite Hc. unfold num_add at 1 2.
    set (st' := with_spend_and_pending _ _ _).
    assert (Hsafe' : spend_safe st').
    { apply spend_safe_finite. eexists. unfold st'. simpl. split; [done|]. lia. }
    assert (Hpos' : pending_positive st').
    { intros k' q. unfold st'. simpl. intros [_ Hq]%lookup_delete_Some. eauto. }
    split; [|unfold num_le; apply Z.leb_le; lia].
    split; [exact Hsafe'|]. split; [exact Hpos'|].
    by apply (store_sound_insert w st').
  - rewrite (commitPayment_absent k s Hk Hin). simpl. split; [done|].
    unfold cumulative. rewrite Hc. unfold num_le. apply Z.leb_le. lia.
Qed.

Lemma releasePayment_sound (k : string) (s : Session) :
  sound s ->
  sound (snd (releasePayment k s)) /\ cumulative (snd (releasePayment k s)) = cumulative s.
Proof.
  intros (Hsafe & Hpos & Hstore).
  destruct (attempt_cases k s) as [[attempt Hk]|[[Hk Hin]|[Hk Hin]]].
  - rewrite (releasePayment_present k s attempt Hk).
    pose proof Hsafe as (c & Hc & Hle)%spend_safe_finite.
    destruct s as [sk w].
    unfold sound, persisted, cumulative, pending in *. simpl in *.
    pose proof (Hpos k attempt Hk) as Hamount.
    pose proof (pendingSpend_delete k attempt _ Hk) as Hsum.
    set (st' := with_pending _ _).
    assert (Hsafe' : spend_safe st').
    { apply spend_safe_finite. exists c. unfold st'. simpl. split; [done|]. lia. }
    assert (Hpos' : pending_positive st').
    { intros k' q. unfold st'. simpl. intros [_ Hq]%lookup_delete_Some. eauto. }
    split; [|reflexivity].
    split; [exact Hsafe'|]. split; [exact Hpos'|].
    by apply (store_sound_insert w st').
  - rewrite (releasePayment_inherited k s Hk Hin).
    destruct s as [sk w].
    unfold sound, persisted, cumulative, pending in *. simpl in *.
    set (st' := with_pending _ _).
    assert (Hsame : st' = state sk) by (unfold st'; by destruct (state sk)).
    rewrite Hsame. split; [|reflexivity].
    split; [exact Hsafe|]. split; [exact Hpos|].
    by apply (store_sound_insert w (state sk)).
  - rewrite (releasePayment_absent k s Hk Hin). simpl. by split.
Qed.

Lemma sound_cumulative_le (s : Session) :
  sound s -> num_le (cumulative s) (cumulative s) = true.
Proof.
  intros ((c & Hc & _)%spend_safe_finite & _). unfold cumulative. rewrite Hc.
  unfold num_le. apply Z.leb_le. lia.
Qed.

Lemma apply_op_sound (op : Op) (s : Session) :
  positive_challenge op -> plain_commit op -> sound s ->
  sound (apply_op op s) /\ num_le (cumulative s) (cumulative (apply_op op s)) = true.
Proof.
  intros Hop Hplain Hs. destruct op as [challenge request|k|k|t]; simpl in *.
  - destruct (signForChallenge_effect challenge request s)
      as [->|(key & p & Hnone & Hav & Ham & ->)].
    + split; [done|]. by apply sound_cumulative_le.
    + assert (Hpos : 0 < SignedPayment.amountMicrousdc p) by lia.
      rewrite <- Ham in Hav.
      destruct (with_attempt_sound key p s Hs Hnone Hpos Hav) as [? ->].
      split; [done|]. by apply sound_cumulative_le.
  - by apply commitPayment_sound.
  - destruct (releasePayment_sound k s Hs) as [? ->].
    split; [done|]. by apply sound_cumulative_le.
  - destruct s as [sk w]. split; [exact Hs|]. by apply (sound_cumulative_le (sk, w)).
Qed.

Lemma num_le_trans (a b c : number) :
  num_le a b = true -> num_le b c = true -> num_le a c = true.
Proof.
  unfold num_le. destruct a, b, c; try discriminate.
  rewrite !Z.leb_le. lia.
Qed.

(** Along calls that commit no key naming a member of [Object.prototype],
    the cumulative spend never goes down. *)
Lemma run_ops_sound (ops : list Op) (s : Session) :
  Forall positive_challenge ops -> Forall plain_commit ops -> sound s ->
  sound (run_ops ops s) /\ num_le (cumulative s) (cumulative (run_ops ops s)) = true.
Proof.
  intros Hops. revert s. induction Hops as [|op ops Hop _ IH]; intros s Hplain Hs.
  - simpl. split; [done|]. by apply sound_cumulative_le.
  - inversion Hplain as [|? ? Hp Hps]; subst. simpl.
    destruct (apply_op_sound op s Hop Hp Hs) as [Hs' Hle].
    destruct (IH _ Hps Hs') as [Hs'' Hle']. fold (run_ops ops (apply_op op s)) in *.
    split; [done|]. by apply (num_le_trans _ _ _ Hle Hle').
Qed.
End SpendInvariants.

Section SpendClaims.
Context {H : Host}.




End SpendClaims.

(** ** The interceptor *)

Section InterceptorClaims.
Context {H : Host} {C : Codec}.

Lemma extractChallenge_state {S} (response : Response.t) (s : S) :
  extractChallenge response s = (fst (extractChallenge response tt), s).
Proof.
  unfold extractChallenge.
  destruct (challenge_from_header response); [done|].
  destruct (negb _); [done|].
  unfold bind, from_option.
  destruct (parsePaymentRequiredBody _) as [body|]; [|done].
  simpl. destruct (PaymentRequiredBody.challenge body) as [c|]; [|done].
  by destruct (String.eqb _ _).
Qed.

Lemma signForChallenge_keeps_cumulative (challenge : PaymentChallenge.t)
    (request : SignRequestContext.t) (s s1 : Session) (p : SignedPayment.t) :
  signForChallenge challenge request s = (Ok p, s1) -> cumulative s1 = cumulative s.
Proof.
  intros Hr.
  destruct (signForChallenge_returns _ _ _ _ _ Hr)
    as (_ & requestHash & key & _ & _ & [[_ ->]|(_ & _ & _ & _ & ->)]); [done|].
  by destruct s.
Qed.

(** C6.  Let an invocation of the interceptor get a 402 for a request
    without payment header, extract a challenge, have it signed and retry.
    If the retry throws, or returns a response that is not 2xx, then the
    interceptor's outcome is the retry's (the same exception re-thrown,
    or that response returned), the session object has received exactly
    [signForChallenge] followed by one [releasePayment] of the signed
    payment's key and no commit, and the session afterwards has its
    cumulative spend unchanged and nothing pending under that key. *)
Theorem x402Fetch_releases_failed_retry {T : Type}
    (fetchImpl : RequestInput -> RequestInit.t -> M T Response.t)
    (input : RequestInput) (init : RequestInit.t)
    (s0 s1 : Session) (calls : list Call) (t0 t1 t2 : T)
    (first : Response.t) (challenge : PaymentChallenge.t)
    (signed : SignedPayment.t) (retry : Outcome Response.t) :
  fetchImpl input init t0 = (Ok first, t1) ->
  Response.status first = 402 ->
  carries_payment init = false ->
  fst (extractChallenge first tt) = Ok (Some challenge) ->
  signForChallenge challenge (request_context input init) s0 = (Ok signed, s1) ->
  fetchImpl input (retry_init signed init) t1 = (retry, t2) ->
  match retry with
  | Ok response => Response.ok response = false
  | Throw _ => True
  end ->
  let key := SignedPayment.idempotencyKey signed in
  let s2 := snd (releasePayment key s1) in
  x402Fetch fetchImpl input init ((s0, calls), t0)
    = (retry,
       ((s2, CallRelease key :: CallSign challenge (request_context input init) :: calls),
        t2))
  /\ cumulative s2 = cumulative s0
  /\ pending s2 !! key = None.
Proof.
  intros Hfirst Hstatus Hcarries Hextract Hsign Hretry Hfailed. cbn zeta.
  destruct (releasePayment_clears (SignedPayment.idempotencyKey signed) s1)
    as (Hrel & Hnone & Hcum).
  split; [|split; [|exact Hnone]].
  2:{ rewrite Hcum. by eapply signForChallenge_keeps_cumulative. }
  unfold x402Fetch, bind at 1, lift_snd at 1. simpl.
  rewrite Hfirst, Hstatus. simpl.
  unfold carries_payment in Hcarries. rewrite Hcarries.
  unfold bind at 1. rewrite extractChallenge_state, Hextract.
  unfold bind at 1, lift_fst at 1. simpl.
  unfold bind at 1, record_call, modify. simpl.
  unfold lift_fst at 1. simpl.
  unfold request_context in Hsign. rewrite Hsign. simpl.
  unfold bind at 1, try_catch, lift_snd at 1. simpl.
  unfold retry_init in Hretry. rewrite Hretry.
  destruct retry as [response|error].
  - rewrite Hfailed.
    unfold bind, lift_fst, record_call, modify, ret. simpl.
    rewrite Hrel. reflexivity.
  - unfold bind, lift_fst, record_call, modify, throw. simpl.
    rewrite Hrel. reflexivity.
Qed.
End InterceptorClaims.

Section ExtractionClaims.
Context {C : Codec}.



End ExtractionClaims.

(** ** The origin *)

Section OriginClaims.
Context {H : Host} {C : Codec}.

Lemma validateSignedPayment_reads_only (payment : SignedPayment.t)
    (expectedResource expectedMethod requestHash : string) (config : ServerConfig.t)
    (o : Origin) :
  snd (validateSignedPayment payment expectedResource expectedMethod requestHash config o) = o.
Proof.
  unfold validateSignedPayment, bind, throw_if, gets, from_option, ret, throw.
  repeat match goal with
         | |- context [if ?b then _ else _] => destruct b; simpl; try reflexivity
         | |- context [match verifyMessage ?m ?g with _ => _ end] =>
             destruct (verifyMessage m g); simpl; try reflexivity
         end.
Qed.

End OriginClaims.

(** ** Canonical JSON *)

(** Induction on JSON values, with the hypothesis for every element of an
    array and every value of an object. *)
Lemma json_nested_ind (P : json -> Prop) :
  P JNull -> (forall b, P (JBool b)) -> (forall n, P (JNum n)) -> (forall s, P (JStr s)) ->
  (forall items, Forall P items -> P (JArr items)) ->
  (forall entries, Forall (fun e => P (snd e)) entries -> P (JObj entries)) ->
  forall v, P v.
Proof.
  intros Hnull Hbool Hnum Hstr Harr Hobj.
  fix IH 1. intros [ | b | n | s | items | entries ].
  - exact Hnull.
  - apply Hbool.
  - apply Hnum.
  - apply Hstr.
  - apply Harr. induction items as [|v items IHitems]; constructor; [apply IH|exact IHitems].
  - apply Hobj. induction entries as [|e entries IHentries]; constructor;
      [apply IH|exact IHentries].
Qed.

Section SortFacts.
Context {H : Host}.

Lemma sort_insert_perm (e : string * json) (l : list (string * json)) :
  Permutation (sort_insert e l) (e :: l).
Proof.
  induction l as [|y rest IH]; simpl; [done|].
  destruct (_ <=? _); [done|].
  rewrite IH. apply perm_swap.
Qed.

Lemma sort_entries_perm (l : list (string * json)) : Permutation (sort_entries l) l.
Proof.
  induction l as [|e rest IH]; simpl; [done|].
  rewrite sort_insert_perm. by constructor.
Qed.

(** Sorting reads keys only: it commutes with any change of the values. *)
Lemma sort_insert_values (f : json -> json) (e : string * json) (l : list (string * json)) :
  sort_insert (fst e, f (snd e)) (List.map (fun x => (fst x, f (snd x))) l)
  = List.map (fun x => (fst x, f (snd x))) (sort_insert e l).
Proof.
  induction l as [|y rest IH]; simpl; [done|].
  destruct (_ <=? _); simpl; [done|]. by rewrite IH.
Qed.

Lemma sort_entries_values (f : json -> json) (l : list (string * json)) :
  sort_entries (List.map (fun x => (fst x, f (snd x))) l)
  = List.map (fun x => (fst x, f (snd x))) (sort_entries l).
Proof.
  induction l as [|e rest IH]; simpl; [done|].
  by rewrite IH, sort_insert_values.
Qed.

(** [sortDeep] on an object, in the order of the source: sort the
    entries, then assign each key the converted value. *)
Lemma sortDeep_object (entries : list (string * json)) :
  sortDeep (JObj entries)
  = JObj (fold_left (fun acc e => obj_set acc (fst e) (sortDeep (snd e)))
            (sort_entries entries) []).
Proof.
  simpl. f_equal. unfold assign_all.
  rewrite (sort_entries_values sortDeep).
  generalize (@nil (string * json)).
  induction (sort_entries entries) as [|e rest IH]; intros acc; simpl; [done|].
  apply IH.
Qed.

Context {HC : StrictCollation H}.

Lemma precedes_total (e1 e2 : string * json) : precedes e1 e2 \/ precedes e2 e1.
Proof.
  unfold precedes.
  destruct (Z_le_gt_dec (localeCompare (fst e1) (fst e2)) 0) as [|Hgt]; [by left|].
  right. assert (localeCompare (fst e2) (fst e1) < 0); [|lia].
  apply collation_flip. lia.
Qed.

Lemma precedes_trans (e1 e2 e3 : string * json) :
  precedes e1 e2 -> precedes e2 e3 -> precedes e1 e3.
Proof. unfold precedes. apply collation_trans. Qed.

Lemma precedes_both (e1 e2 : string * json) :
  precedes e1 e2 -> precedes e2 e1 -> fst e1 = fst e2.
Proof.
  unfold precedes. intros H12 H21. apply collation_zero.
  destruct (Z.eq_dec (localeCompare (fst e1) (fst e2)) 0) as [|Hne]; [done|].
  assert (Hlt : localeCompare (fst e1) (fst e2) < 0) by lia.
  apply collation_flip in Hlt. lia.
Qed.

Lemma sort_insert_sorted (e : string * json) (l : list (string * json)) :
  Sorted precedes l -> Sorted precedes (sort_insert e l).
Proof.
  induction 1 as [|y rest Hrest IH Hhd]; simpl; [by repeat constructor|].
  destruct (localeCompare (fst e) (fst y) <=? 0) eqn:Hle.
  - apply Z.leb_le in Hle. constructor; [by constructor|by constructor].
  - apply Z.leb_gt in Hle.
    assert (Hye : precedes y e).
    { destruct (precedes_total y e) as [|Hc]; [done|]. unfold precedes in Hc. lia. }
    constructor; [exact IH|].
    destruct rest as [|z rest']; simpl; [by constructor|].
    destruct (_ <=? _); constructor; [done|].
    by inversion Hhd.
Qed.

Lemma sort_entries_sorted (l : list (string * json)) : Sorted precedes (sort_entries l).
Proof.
  induction l as [|e rest IH]; simpl; [constructor|]. by apply sort_insert_sorted.
Qed.

Lemma entry_by_key (l : list (string * json)) (x y : string * json) :
  NoDup (List.map fst l) -> x ∈ l -> y ∈ l -> fst x = fst y -> x = y.
Proof.
  induction l as [|e rest IH]; simpl; intros Hnd Hx Hy Hk; [by inversion Hx|].
  inversion Hnd as [|? ? Hnotin Hnd']; subst.
  apply elem_of_cons in Hx as [->|Hx]; apply elem_of_cons in Hy as [->|Hy].
  - done.
  - exfalso. apply Hnotin. rewrite Hk.
    apply (list_elem_of_fmap_2 fst) in Hy. exact Hy.
  - exfalso. apply Hnotin. rewrite <- Hk.
    apply (list_elem_of_fmap_2 fst) in Hx. exact Hx.
  - by apply IH.
Qed.

(** Two lists of entries with the same content and distinct keys sort to
    the same list. *)
Lemma sort_entries_unique (l1 l2 : list (string * json)) :
  Permutation l1 l2 -> NoDup (List.map fst l1) ->
  sort_entries l1 = sort_entries l2.
Proof.
  intros Hperm Hnd.
  apply (StronglySorted_unique_strong precedes).
  - intros x1 x2 Hx1 Hx2 H12 H21.
    apply (entry_by_key l1); [done| | |by apply precedes_both].
    + by rewrite <- (sort_entries_perm l1).
    + rewrite Hperm. by rewrite <- (sort_entries_perm l2).
  - apply Sorted_StronglySorted; [|apply sort_entries_sorted].
    intros ? ? ?. apply precedes_trans.
  - apply Sorted_StronglySorted; [|apply sort_entries_sorted].
    intros ? ? ?. apply precedes_trans.
  - by rewrite !sort_entries_perm.
Qed.
End SortFacts.

Section AssignFacts.

Lemma existsb_eqb_elem (k : string) (keys : list string) :
  existsb (String.eqb k) keys = false <-> k ∉ keys.
Proof.
  induction keys as [|k' rest IH]; simpl.
  - split; [intros _ Hin; inversion Hin|done].
  - rewrite orb_false_iff, IH, not_elem_of_cons.
    destruct (String.eqb_spec k k'); split; intros [? ?]; try done; by split.
Qed.

Lemma distinct_NoDup (keys : list string) : distinct keys = true <-> NoDup keys.
Proof.
  induction keys as [|k rest IH]; simpl.
  - split; [constructor|done].
  - rewrite andb_true_iff, negb_true_iff, existsb_eqb_elem, IH, NoDup_cons. done.
Qed.

Lemma has_key_elem (k : string) (o : list (string * json)) :
  has_key k o = false <-> k ∉ List.map fst o.
Proof.
  unfold has_key. induction o as [|e rest IH]; simpl.
  - split; [intros _ Hin; inversion Hin|done].
  - rewrite orb_false_iff, IH, not_elem_of_cons.
    destruct (String.eqb_spec (fst e) k); split; intros [? ?]; try done; by split.
Qed.

Lemma obj_set_appends (o : list (string * json)) (k : string) (v : json) :
  ordinary_key k = true -> k ∉ List.map fst o -> obj_set o k v = o ++ [(k, v)].
Proof.
  unfold ordinary_key, obj_set. intros [Hproto Hindex]%andb_true_iff Hnew.
  apply negb_true_iff in Hproto. rewrite Hproto.
  apply has_key_elem in Hnew. rewrite Hnew.
  by destruct (array_index k).
Qed.

(** Assigning distinct keys that are neither array indices nor
    [__proto__] lists them in the order of assignment. *)
Lemma assign_in_order (l acc : list (string * json)) :
  NoDup (List.map fst (acc ++ l)) ->
  Forall (fun e => ordinary_key (fst e) = true) l ->
  fold_left (fun acc e => obj_set acc (fst e) (snd e)) l acc = acc ++ l.
Proof.
  revert acc. induction l as [|e rest IH]; intros acc Hnd Hord; simpl.
  - by rewrite app_nil_r.
  - inversion Hord as [|? ? He Hrest]; subst.
    assert (Hnew : fst e ∉ List.map fst acc).
    { rewrite map_app in Hnd. apply NoDup_app in Hnd as (_ & Hdisj & _).
      intros Hin. apply (Hdisj _ Hin). simpl. by left. }
    rewrite (obj_set_appends acc (fst e) (snd e) He Hnew).
    destruct e as [k v]. simpl.
    rewrite IH; [by rewrite <- app_assoc| |done].
    by rewrite <- app_assoc.
Qed.

Lemma assign_all_plain (l : list (string * json)) :
  NoDup (List.map fst l) ->
  Forall (fun e => ordinary_key (fst e) = true) l ->
  assign_all l = l.
Proof. intros Hnd Hord. unfold assign_all. by rewrite assign_in_order. Qed.
End AssignFacts.

Section CanonicalFacts.
Context {H : Host}.

Lemma forallb_Forall {A} (f : A -> bool) (l : list A) :
  forallb f l = true <-> Forall (fun x => f x = true) l.
Proof.
  induction l as [|x rest IH]; simpl.
  - split; [constructor|done].
  - rewrite andb_true_iff, IH, Forall_cons. done.
Qed.

Lemma well_keyed_object (entries : list (string * json)) :
  well_keyed (JObj entries) = true
  <-> NoDup (List.map fst entries) /\ Forall (fun e => well_keyed (snd e) = true) entries.
Proof. simpl. by rewrite andb_true_iff, distinct_NoDup, forallb_Forall. Qed.

Lemma plain_keys_object (entries : list (string * json)) :
  plain_keys (JObj entries) = true
  <-> Forall (fun e => ordinary_key (fst e) = true) entries
      /\ Forall (fun e => plain_keys (snd e) = true) entries.
Proof.
  simpl. rewrite forallb_Forall, <- Forall_and.
  apply Forall_iff. intros e. by rewrite andb_true_iff.
Qed.

Lemma keys_of_converted (f : json -> json) (l : list (string * json)) :
  List.map fst (List.map (fun x => (fst x, f (snd x))) l) = List.map fst l.
Proof. induction l as [|e rest IH]; simpl; [done|]. by rewrite IH. Qed.

(** On an object with distinct keys, none an array index or [__proto__],
    [sortDeep] returns the sorted entries with converted values. *)
Lemma sortDeep_plain_object (entries : list (string * json)) :
  NoDup (List.map fst entries) ->
  Forall (fun e => ordinary_key (fst e) = true) entries ->
  sortDeep (JObj entries)
  = JObj (List.map (fun e => (fst e, sortDeep (snd e))) (sort_entries entries)).
Proof.
  intros Hnd Hord. simpl. f_equal.
  rewrite (sort_entries_values sortDeep).
  apply assign_all_plain.
  - rewrite keys_of_converted. by rewrite (sort_entries_perm entries).
  - apply Forall_fmap. unfold compose. simpl. by rewrite (sort_entries_perm entries).
Qed.

Context {HC : StrictCollation H}.

Lemma sorted_ascending (l : list (string * json)) :
  Sorted precedes l -> NoDup (List.map fst l) ->
  ascending collation_lt (List.map fst l) = true.
Proof.
  induction 1 as [|e rest Hrest IH Hhd]; intros Hnd; [done|].
  simpl in Hnd. apply NoDup_cons in Hnd as [Hnotin Hnd].
  destruct rest as [|e' rest']; [done|].
  change (collation_lt (fst e) (fst e')
          && ascending collation_lt (List.map fst (e' :: rest')) = true).
  rewrite (IH Hnd), andb_true_r.
  inversion Hhd as [|? ? Hle]; subst. unfold precedes in Hle.
  unfold collation_lt. apply Z.ltb_lt.
  assert (localeCompare (fst e) (fst e') <> 0); [|lia].
  intros Hz. apply collation_zero in Hz. apply Hnotin. rewrite Hz. simpl. by left.
Qed.

(** Keys come out in strictly ascending collation order at every depth. *)
Lemma sortDeep_sorted (v : json) :
  well_keyed v = true -> plain_keys v = true ->
  deep_sorted collation_lt (sortDeep v) = true.
Proof.
  induction v as [ | b | n | s | items IH | entries IH ] using json_nested_ind;
    try done.
  - simpl. rewrite !forallb_Forall. intros Hwk Hpk.
    apply Forall_fmap. unfold compose.
    rewrite Forall_forall in *. intros x Hx. apply IH; auto.
  - intros [Hnd Hwk]%well_keyed_object [Hord Hpk]%plain_keys_object.
    rewrite (sortDeep_plain_object entries Hnd Hord).
    simpl. rewrite keys_of_converted.
    rewrite sorted_ascending;
      [|apply sort_entries_sorted|by rewrite (sort_entries_perm entries)].
    simpl. apply forallb_Forall, Forall_fmap. unfold compose. simpl.
    rewrite (sort_entries_perm entries).
    rewrite Forall_forall in *. intros x Hx. apply IH; auto.
Qed.

(** [sortDeep] keeps the content: same entries up to order, arrays in
    their order. *)
Lemma sortDeep_same_content (v : json) :
  well_keyed v = true -> plain_keys v = true -> same_content v (sortDeep v).
Proof.
  induction v as [ | b | n | s | items IH | entries IH ] using json_nested_ind;
    try by constructor.
  - simpl. rewrite !forallb_Forall. intros Hwk Hpk. constructor.
    apply Forall2_fmap_r, Forall_Forall2_diag.
    rewrite Forall_forall in *. intros x Hx. apply IH; auto.
  - intros [Hnd Hwk]%well_keyed_object [Hord Hpk]%plain_keys_object.
    rewrite (sortDeep_plain_object entries Hnd Hord).
    apply (same_obj entries (sort_entries entries)).
    + symmetry. apply sort_entries_perm.
    + apply Forall2_fmap_r, Forall_Forall2_diag. simpl.
      rewrite (sort_entries_perm entries).
      rewrite Forall_forall in *. intros x Hx. split; [done|]. apply IH; auto.
Qed.

(** Key insertion order does not reach the output. *)
Lemma sortDeep_order_independent (v1 : json) :
  forall v2, well_keyed v1 = true -> same_content v1 v2 -> sortDeep v1 = sortDeep v2.
Proof.
  induction v1 as [ | b | n | s | items IH | entries IH ] using json_nested_ind;
    intros v2 Hwk Hsame; inversion Hsame; subst; try done.
  - simpl. f_equal. simpl in Hwk. apply forallb_Forall in Hwk.
    match goal with Hf : Forall2 same_content _ _ |- _ =>
      induction Hf as [|x y xs ys Hxy Hrest IHrest]; [done|] end.
    inversion IH; subst. inversion Hwk; subst. simpl.
    f_equal; [by apply H2|]. apply IHrest; [done|done|]. by constructor.
  - apply well_keyed_object in Hwk as [Hnd Hwk].
    match goal with Hp : Permutation entries ?l, Hf : Forall2 _ ?l ?m |- _ =>
      rename l into entries'; rename m into entries2;
      rename Hp into Hperm; rename Hf into Hpairs end.
    simpl. f_equal. f_equal.
    rewrite (sort_entries_unique
               (List.map (fun e => (fst e, sortDeep (snd e))) entries)
               (List.map (fun e => (fst e, sortDeep (snd e))) entries')).
    2:{ by apply Permutation_map. }
    2:{ by rewrite keys_of_converted. }
    f_equal.
    rewrite Hperm in IH, Hwk. clear Hperm Hnd Hsame.
    induction Hpairs as [|x y xs ys [Hk Hv] Hrest IHrest]; [done|].
    inversion IH; subst. inversion Hwk; subst. simpl.
    f_equal; [|by apply IHrest].
    rewrite Hk. f_equal. auto.
Qed.
End CanonicalFacts.

Section WhitespaceFacts.
Context {H : Host}.

Lemma has_space_app (a b : string) :
  has_space (a ++ b) = has_space a || has_space b.
Proof. induction a as [|c a IH]; simpl; [done|]. by rewrite IH, orb_assoc. Qed.

Lemma escape_char_clean (c : ascii) :
  is_space c = false -> has_space (escape_char c) = false.
Proof.
  destruct c as [[] [] [] [] [] [] [] []]; vm_compute; intros Hc;
    first [reflexivity | discriminate Hc].
Qed.

Lemma escape_clean (s : string) : has_space s = false -> has_space (escape s) = false.
Proof.
  induction s as [|c s IH]; simpl; [done|].
  intros [Hc Hs]%orb_false_iff.
  by rewrite has_space_app, (escape_char_clean c Hc), (IH Hs).
Qed.

Lemma quote_clean (s : string) : has_space s = false -> has_space (quote s) = false.
Proof.
  intros Hs. unfold quote.
  change (is_space dquote || has_space (escape s ++ String dquote EmptyString) = false).
  rewrite has_space_app, (escape_clean s Hs). reflexivity.
Qed.

Lemma digits_clean (d : Decimal.uint) : has_space (NilEmpty.string_of_uint d) = false.
Proof. induction d; simpl; done. Qed.

Lemma render_number_clean (n : Z) : has_space (render_number n) = false.
Proof.
  unfold render_number, NilZero.string_of_int, NilZero.string_of_uint.
  destruct (Z.to_int n) as [d|d]; destruct d; simpl; try done; apply digits_clean.
Qed.

Lemma join_clean (sep : string) (l : list string) :
  has_space sep = false -> Forall (fun x => has_space x = false) l ->
  has_space (join sep l) = false.
Proof.
  intros Hsep. induction 1 as [|x rest Hx Hrest IH]; [done|].
  destruct rest as [|y rest']; [exact Hx|].
  change (has_space (x ++ sep ++ join sep (y :: rest')) = false).
  by rewrite !has_space_app, Hx, Hsep, IH.
Qed.

(** The text written for a value has whitespace only where a key or a
    string of the value has. *)
Lemma stringify_clean (v : json) :
  spaceless v = true -> has_space (stringify v) = false.
Proof.
  induction v as [ | b | n | s | items IH | entries IH ] using json_nested_ind.
  - done.
  - by destruct b.
  - intros _. apply render_number_clean.
  - simpl. intros Hs%negb_true_iff. by apply quote_clean.
  - simpl. rewrite forallb_Forall. intros Hs.
    rewrite !has_space_app. simpl. rewrite orb_false_r.
    apply join_clean; [done|]. apply Forall_fmap. unfold compose.
    rewrite Forall_forall in *. intros x Hx. apply IH; auto.
  - simpl. rewrite forallb_Forall. intros Hs.
    rewrite !has_space_app. simpl. rewrite orb_false_r.
    apply join_clean; [done|]. apply Forall_fmap. unfold compose.
    rewrite Forall_forall in *. intros x Hx.
    pose proof (Hs x Hx) as [Hk Hv]%andb_true_iff. apply negb_true_iff in Hk.
    rewrite !has_space_app, (quote_clean _ Hk). simpl. apply IH; auto.
Qed.

Lemma sortDeep_spaceless (v : json) :
  well_keyed v = true -> plain_keys v = true -> spaceless v = true ->
  spaceless (sortDeep v) = true.
Proof.
  induction v as [ | b | n | s | items IH | entries IH ] using json_nested_ind;
    try done.
  - simpl. rewrite !forallb_Forall. intros Hwk Hpk Hs.
    apply Forall_fmap. unfold compose.
    rewrite Forall_forall in *. intros x Hx. apply IH; auto.
  - intros [Hnd Hwk]%well_keyed_object [Hord Hpk]%plain_keys_object Hs.
    rewrite (sortDeep_plain_object entries Hnd Hord).
    simpl in *. rewrite forallb_Forall in *.
    apply Forall_fmap. unfold compose. simpl.
    rewrite (sort_entries_perm entries).
    rewrite Forall_forall in *. intros x Hx.
    pose proof (Hs x Hx) as [Hk Hv]%andb_true_iff. rewrite Hk. simpl.
    apply IH; auto.
Qed.
End WhitespaceFacts.

(** ** The concrete host is a strict collation *)

Section DemoCollation.

Lemma case_and_fold_determine (c d : ascii) :
  lower_char c = lower_char d -> Demo.is_upper c = Demo.is_upper d -> c = d.
Proof.
  unfold lower_char, Demo.is_upper.
  pose proof (nat_ascii_bounded c) as Hc. pose proof (nat_ascii_bounded d) as Hd.
  destruct ((65 <=? nat_of_ascii c)%nat && (nat_of_ascii c <=? 90)%nat) eqn:Huc;
    intros Hfold Hcase; rewrite <- Hcase in Hfold; [|exact Hfold].
  apply andb_true_iff in Huc as [_ Hc90%Nat.leb_le].
  symmetry in Hcase. apply andb_true_iff in Hcase as [_ Hd90%Nat.leb_le].
  apply (f_equal nat_of_ascii) in Hfold.
  rewrite !nat_ascii_embedding in Hfold by lia.
  rewrite <- (ascii_nat_embedding c), <- (ascii_nat_embedding d). f_equal. lia.
Qed.

Lemma weights_determine (a b : string) :
  Demo.primary_weights a = Demo.primary_weights b ->
  Demo.tertiary_weights a = Demo.tertiary_weights b -> a = b.
Proof.
  revert b. induction a as [|c a IH]; intros [|d b]; simpl; try done.
  intros [= Hp Hps] [= Ht Hts].
  f_equal; [|by apply IH].
  apply case_and_fold_determine.
  - rewrite <- (ascii_N_embedding (lower_char c)), <- (ascii_N_embedding (lower_char d)).
    f_equal. lia.
  - by destruct (Demo.is_upper c), (Demo.is_upper d).
Qed.

Lemma split_at_separator (p1 p2 t1 t2 : list N) :
  Forall (fun x => x <> 0%N) p1 -> Forall (fun x => x <> 0%N) p2 ->
  p1 ++ 0%N :: t1 = p2 ++ 0%N :: t2 -> p1 = p2 /\ t1 = t2.
Proof.
  intros H1. revert p2. induction H1 as [|x p1 Hx _ IH]; intros p2 H2 Heq.
  - destruct H2 as [|y p2 Hy _]; simpl in Heq; [by injection Heq|].
    injection Heq as Hxy _. by destruct Hy.
  - destruct H2 as [|y p2 Hy H2]; simpl in Heq.
    + injection Heq as Hxy _. by destruct Hx.
    + injection Heq as -> Hrest. destruct (IH p2 H2 Hrest) as [-> ->]. done.
Qed.

Lemma primary_weights_positive (s : string) :
  Forall (fun x => x <> 0%N) (Demo.primary_weights s).
Proof.
  induction s as [|c s IH]; [constructor|].
  change (Forall (fun x => x <> 0%N)
            ((1 + N_of_ascii (lower_char c))%N :: Demo.primary_weights s)).
  constructor; [|exact IH].
  intros [Hone _]%N.eq_add_0. discriminate Hone.
Qed.

Lemma sort_key_determines (a b : string) : Demo.sort_key a = Demo.sort_key b -> a = b.
Proof.
  unfold Demo.sort_key. intros Heq.
  apply split_at_separator in Heq as [Hp Ht]; try apply primary_weights_positive.
  by apply weights_determine.
Qed.

Lemma N_compare_trans (x y z : N) (c : comparison) :
  N.compare x y = c -> N.compare y z = c -> N.compare x z = c.
Proof.
  destruct c; rewrite ?N.compare_eq_iff, ?N.compare_lt_iff, ?N.compare_gt_iff; lia.
Qed.

Lemma key_compare_eq (k1 k2 : list N) : list_compare N.compare k1 k2 = Eq <-> k1 = k2.
Proof. apply list_compare_refl. apply N.compare_eq_iff. Qed.

Lemma key_compare_flip (k1 k2 : list N) :
  list_compare N.compare k2 k1 = CompOpp (list_compare N.compare k1 k2).
Proof.
  apply list_compare_antisym; [apply N.compare_eq_iff|].
  intros x y. apply N.compare_antisym.
Qed.

Lemma key_compare_trans (k1 k2 k3 : list N) (c : comparison) :
  list_compare N.compare k1 k2 = c -> list_compare N.compare k2 k3 = c ->
  list_compare N.compare k1 k3 = c.
Proof.
  apply list_compare_trans; [apply N.compare_eq_iff|apply N_compare_trans|].
  intros x y. apply N.compare_antisym.
Qed.

Lemma demo_collation_strict : StrictCollation Demo.host.
Proof.
  split; simpl; unfold Demo.collate.
  - intros a b.
    assert (Hkey : a = b <-> Demo.sort_key a = Demo.sort_key b).
    { split; [by intros ->|apply sort_key_determines]. }
    rewrite Hkey, <- key_compare_eq.
    destruct (list_compare _ _ _); split; intros; (done || lia).
  - intros a b. rewrite (key_compare_flip (Demo.sort_key a) (Demo.sort_key b)).
    destruct (list_compare _ _ _); simpl; lia.
  - intros a b c.
    destruct (list_compare N.compare (Demo.sort_key a) (Demo.sort_key b)) eqn:Hab;
      [|intros _|lia].
    + apply key_compare_eq in Hab. rewrite Hab. auto.
    + destruct (list_compare N.compare (Demo.sort_key b) (Demo.sort_key c)) eqn:Hbc;
        intros Hc; [| |lia].
      * apply key_compare_eq in Hbc. rewrite <- Hbc, Hab. lia.
      * rewrite (key_compare_trans _ _ _ Lt Hab Hbc). lia.
Qed.
End DemoCollation.


(** ** Canonical JSON: what the code guarantees *)

(** Let [localeCompare] be a consistent comparison that tells distinct
    strings apart, and [v] a JSON value whose objects have distinct keys.
    If no key of [v] is an array index or [__proto__], then
    [canonicalJson(v)] writes [v] with the keys of every object in strictly
    ascending order of [localeCompare] (the host's collation), with the same
    entries and with arrays in their order, and with no whitespace except
    inside keys and strings that contain some.  Whatever the keys, any value
    with the same content as [v] in another insertion order gives the
    identical string. *)
Lemma canonicalJson_sorted_by_collation {H : Host} (v : json) :
  StrictCollation H ->
  well_keyed v = true ->
  (plain_keys v = true ->
     deep_sorted collation_lt (sortDeep v) = true
     /\ same_content v (sortDeep v)
     /\ (spaceless v = true -> has_space (canonicalJson v) = false))
  /\ (forall v', same_content v v' -> canonicalJson v = canonicalJson v').
Proof.
  intros HC Hwk. split.
  - intros Hpk. split; [by apply sortDeep_sorted|].
    split; [by apply sortDeep_same_content|].
    intros Hs. unfold canonicalJson. apply stringify_clean. by apply sortDeep_spaceless.
  - intros v' Hsame. unfold canonicalJson. f_equal.
    by apply sortDeep_order_independent.
Qed.

(** * Further properties of the code

    Everything in this part holds for every host. *)

(** ** Case conversion *)

Section CaseFacts.

Lemma upper_char_idempotent (c : ascii) : upper_char (upper_char c) = upper_char c.
Proof. destruct c as [[] [] [] [] [] [] [] []]; reflexivity. Qed.

Lemma lower_char_idempotent (c : ascii) : lower_char (lower_char c) = lower_char c.
Proof. destruct c as [[] [] [] [] [] [] [] []]; reflexivity. Qed.

Lemma lower_upper_char (c : ascii) : lower_char (upper_char c) = lower_char c.
Proof. destruct c as [[] [] [] [] [] [] [] []]; reflexivity. Qed.

Lemma toUpperCase_idempotent (s : string) : toUpperCase (toUpperCase s) = toUpperCase s.
Proof.
  unfold toUpperCase. induction s as [|c s IH]; simpl; [done|].
  by rewrite upper_char_idempotent, IH.
Qed.

Lemma toLowerCase_idempotent (s : string) : toLowerCase (toLowerCase s) = toLowerCase s.
Proof.
  unfold toLowerCase. induction s as [|c s IH]; simpl; [done|].
  by rewrite lower_char_idempotent, IH.
Qed.

Lemma toLowerCase_toUpperCase (s : string) : toLowerCase (toUpperCase s) = toLowerCase s.
Proof.
  unfold toLowerCase, toUpperCase. induction s as [|c s IH]; simpl; [done|].
  by rewrite lower_upper_char, IH.
Qed.
End CaseFacts.

(** ** Derivations *)

Section DerivationFacts.
Context {H : Host}.

(** X1.  A challenge built by [createChallenge] verifies under the secret
    it was built with; a challenge without [mac] verifies under no
    secret. *)
Theorem verifyChallenge_accepts_created
    (secret challengeId resource method : string) (amountMicrousdc issuedAt expiresAt : Z)
    (nonce : string) (challenge : PaymentChallenge.t) :
  verifyChallenge
    (createChallenge secret challengeId resource method amountMicrousdc issuedAt expiresAt nonce)
    secret = true
  /\ verifyChallenge (with_mac challenge None) secret = false.
Proof.
  split.
  - unfold verifyChallenge, createChallenge. simpl. by apply bool_decide_eq_true_2.
  - reflexivity.
Qed.

(** X2.  [deriveRequestHash] does not depend on the case of the method, an
    empty body hashes like an absent one, and the URL enters through
    [deriveResource] only: two URLs with the same path and query give the
    same hash.  It throws exactly when [new URL(url)] does. *)
Theorem deriveRequestHash_normalizes (method url url' : string) (body : option string) :
  deriveRequestHash (SignRequestContext.mk (toUpperCase method) url body)
  = deriveRequestHash (SignRequestContext.mk method url body)
  /\ deriveRequestHash (SignRequestContext.mk method url (Some ""))
     = deriveRequestHash (SignRequestContext.mk method url None)
  /\ (deriveResource url = deriveResource url' ->
      deriveRequestHash (SignRequestContext.mk method url body)
      = deriveRequestHash (SignRequestContext.mk method url' body))
  /\ (deriveRequestHash (SignRequestContext.mk method url body) = None
      <-> parseUrl url = None).
Proof.
  unfold deriveRequestHash. simpl. repeat split.
  - by rewrite toUpperCase_idempotent.
  - intros ->. done.
  - unfold deriveResource. destruct (parseUrl url) as [[pathname search]|]; done.
  - unfold deriveResource. intros ->. done.
Qed.

(** X3.  Every idempotency key starts with [aceid_], so it names no member
    of [Object.prototype], and it does not depend on the case of the
    payer's address. *)
Theorem deriveIdempotencyKey_shape
    (sessionId payer challengeId requestHash : string) (amountMicrousdc : Z) :
  let key := deriveIdempotencyKey sessionId payer challengeId requestHash amountMicrousdc in
  starts_with "aceid_" key = true
  /\ inherited key = false
  /\ deriveIdempotencyKey sessionId (toLowerCase payer) challengeId requestHash amountMicrousdc
     = key
  /\ deriveIdempotencyKey sessionId (toUpperCase payer) challengeId requestHash amountMicrousdc
     = key.
Proof.
  cbn zeta. unfold deriveIdempotencyKey. repeat split.
  - by rewrite toLowerCase_idempotent.
  - by rewrite toLowerCase_toUpperCase.
Qed.
End DerivationFacts.

(** ** Canonical JSON: prototype keys and idempotence *)

Section ProtoFacts.
Context {H : Host}.

(** No entry is keyed [__proto__] and no value holds such a key. *)
Lemma has_proto_key_object (o : list (string * json)) :
  has_proto_key (JObj o) = false
  <-> Forall (fun e => String.eqb (fst e) "__proto__" = false
                       /\ has_proto_key (snd e) = false) o.
Proof.
  simpl. induction o as [|e o IH]; simpl.
  - split; [constructor|done].
  - rewrite orb_false_iff, IH, Forall_cons. by rewrite orb_false_iff.
Qed.

Lemma insert_index_clean (P : string * json -> Prop) (i : N) (k : string) (v : json)
    (o : list (string * json)) :
  P (k, v) -> Forall P o -> Forall P (insert_index i k v o).
Proof.
  intros Hkv. induction o as [|e o IH]; intros Ho; simpl.
  - by constructor.
  - inversion Ho; subst.
    destruct (array_index (fst e)) as [j|]; [|by constructor].
    destruct (j <? i)%N; constructor; auto.
Qed.

Lemma obj_set_clean (o : list (string * json)) (k : string) (v : json) :
  has_proto_key v = false ->
  has_proto_key (JObj o) = false -> has_proto_key (JObj (obj_set o k v)) = false.
Proof.
  rewrite !has_proto_key_object. intros Hv Ho. unfold obj_set.
  destruct (String.eqb k "__proto__") eqn:Hk; [done|].
  destruct (has_key k o).
  - unfold replace_value. apply Forall_fmap. unfold compose.
    eapply Forall_impl; [exact Ho|]. intros e He. simpl.
    destruct (String.eqb (fst e) k); simpl; auto.
  - destruct (array_index k) as [i|].
    + by apply insert_index_clean.
    + apply Forall_app. split; [done|]. by constructor.
Qed.

Lemma assign_all_clean (l : list (string * json)) :
  Forall (fun e => has_proto_key (snd e) = false) l ->
  has_proto_key (JObj (assign_all l)) = false.
Proof.
  unfold assign_all.
  assert (Hgen : forall acc,
             has_proto_key (JObj acc) = false ->
             Forall (fun e => has_proto_key (snd e) = false) l ->
             has_proto_key
               (JObj (fold_left (fun acc e => obj_set acc (fst e) (snd e)) l acc)) = false).
  { induction l as [|e l IH]; intros acc Hacc Hl; simpl; [done|].
    inversion Hl; subst. apply IH; [|done]. by apply obj_set_clean. }
  by apply Hgen.
Qed.

(** X4.  No object of [sortDeep(v)], at any depth, has an own property
    [__proto__]: the assignment [acc[key] = ...] creates none, so such an
    entry of the input is left out of the canonical form. *)
Theorem sortDeep_drops_proto (v : json) : has_proto_key (sortDeep v) = false.
Proof.
  induction v as [ | b | n | s | items IH | entries IH ] using json_nested_ind;
    try done.
  - simpl. induction IH as [|x items Hx _ IHitems]; simpl; [done|].
    by rewrite Hx, IHitems.
  - simpl sortDeep. apply assign_all_clean.
    rewrite (sort_entries_perm _).
    apply Forall_fmap. unfold compose. simpl. exact IH.
Qed.
End ProtoFacts.

Section IdempotenceFacts.
Context {H : Host} {HC : StrictCollation H}.

(** X5.  The canonical form is a fixed point: for a consistent collation
    and a value with distinct keys, none an array index or [__proto__],
    sorting the sorted value again changes nothing, and
    [canonicalJson(sortDeep(v))] is [canonicalJson(v)]. *)
Theorem sortDeep_idempotent (v : json) :
  well_keyed v = true -> plain_keys v = true ->
  sortDeep (sortDeep v) = sortDeep v
  /\ canonicalJson (sortDeep v) = canonicalJson v.
Proof.
  intros Hwk Hpk.
  assert (Hfix : sortDeep (sortDeep v) = sortDeep v).
  { symmetry. apply sortDeep_order_independent; [done|].
    by apply sortDeep_same_content. }
  split; [done|]. unfold canonicalJson. by rewrite Hfix.
Qed.
End IdempotenceFacts.

(** ** Creating and restoring sessions *)

Section CreateFacts.
Context {H : Host}.

Lemma create_unfold (input : CreateInput.t) (w : World) :
  create input w =
    let payer := toLowerCase (getAddress (CreateInput.wallet input)) in
    let createdAt := default (clock w) (CreateInput.now input) in
    if CreateInput.ttlSeconds input <=? 0 then (Throw TtlNotPositive, w)
    else match store w !! created_id input with
         | Some existing =>
             if String.eqb (SessionState.payer existing) payer
             then (Ok {| wallet := CreateInput.wallet input; state := existing |}, w)
             else (Throw (DifferentPayer (created_id input)), w)
         | None =>
             let st := SessionState.mk (created_id input) payer
                         (CreateInput.spendLimitMicrousdc input) (toISOString createdAt)
                         (toISOString (createdAt + CreateInput.ttlSeconds input * 1000))
                         (Finite 0) ∅ in
             (Ok {| wallet := CreateInput.wallet input; state := st |},
              {| clock := clock w; store := <[created_id input := st]> (store w);
                 walletLog := walletLog w |})
         end.
Proof.
  unfold create, created_id, bind, gets, throw_if, store_load; simpl.
  destruct (CreateInput.ttlSeconds input <=? 0); [done|]. simpl.
  destruct (store w !! _) as [existing|]; [|done].
  by destruct (String.eqb (SessionState.payer existing) _).
Qed.

Lemma restore_unfold (wal : WalletSigner) (sessionId : string) (w : World) :
  restore wal sessionId w =
    match store w !! sessionId with
    | None => (Throw (NoStoredSession sessionId), w)
    | Some existing =>
        if String.eqb (SessionState.payer existing) (toLowerCase (getAddress wal))
        then (Ok {| wallet := wal; state := existing |}, w)
        else (Throw (DifferentPayer sessionId), w)
    end.
Proof.
  unfold restore, bind, gets, throw_if, store_load; simpl.
  destruct (store w !! _) as [existing|]; [|done].
  by destruct (String.eqb (SessionState.payer existing) _).
Qed.

(** X6.  [SessionKey.create] with [ttlSeconds <= 0] throws "ttlSeconds
    must be positive", whatever the store holds; with a positive TTL and a
    session stored under the id for another payer it throws "belongs to a
    different payer".  Neither call writes to the store. *)
Theorem create_rejects_without_writing (input : CreateInput.t) (w : World) :
  (CreateInput.ttlSeconds input <= 0 -> create input w = (Throw TtlNotPositive, w))
  /\ (forall existing,
        0 < CreateInput.ttlSeconds input ->
        store w !! created_id input = Some existing ->
        SessionState.payer existing <> toLowerCase (getAddress (CreateInput.wallet input)) ->
        create input w = (Throw (DifferentPayer (created_id input)), w)).
Proof.
  rewrite create_unfold. cbn zeta. split.
  - intros Httl. apply Z.leb_le in Httl. by rewrite Httl.
  - intros existing Httl Hex Hpayer. apply Z.leb_gt in Httl. rewrite Httl, Hex.
    apply String.eqb_neq in Hpayer. by rewrite Hpayer.
Qed.

(** X7.  [SessionKey.create] on an id that is stored for the same payer
    resumes the stored session: the state it returns is the stored one,
    with its own limit, expiry, cumulative spend and pending attempts; the
    limit and TTL of the call are ignored and the store is not written. *)
Theorem create_resumes_stored_session (input : CreateInput.t) (w : World)
    (existing : SessionState.t) :
  0 < CreateInput.ttlSeconds input ->
  store w !! created_id input = Some existing ->
  SessionState.payer existing = toLowerCase (getAddress (CreateInput.wallet input)) ->
  create input w = (Ok {| wallet := CreateInput.wallet input; state := existing |}, w).
Proof.
  intros Httl Hex Hpayer. rewrite create_unfold. cbn zeta.
  apply Z.leb_gt in Httl. rewrite Httl, Hex.
  apply String.eqb_eq in Hpayer. by rewrite Hpayer.
Qed.

(** X8.  After a [create] that returned, [restore] with the same wallet and
    id returns the same session object and leaves the store as it is.  A
    session that was not stored before starts with nothing spent, nothing
    pending and the limit of the call, and is saved under its id. *)
Theorem restore_after_create (input : CreateInput.t) (w w' : World) (sk : SessionKey) :
  create input w = (Ok sk, w') ->
  restore (CreateInput.wallet input) (created_id input) w' = (Ok sk, w')
  /\ (store w !! created_id input = None ->
      SessionState.cumulativeSpendMicrousdc (state sk) = Finite 0
      /\ SessionState.pendingAttempts (state sk) = ∅
      /\ SessionState.spendLimitMicrousdc (state sk) = CreateInput.spendLimitMicrousdc input
      /\ store w' = <[created_id input := state sk]> (store w)).
Proof.
  rewrite create_unfold, restore_unfold. cbn zeta.
  destruct (CreateInput.ttlSeconds input <=? 0); [discriminate|].
  destruct (store w !! created_id input) as [existing|] eqn:Hex.
  - destruct (String.eqb (SessionState.payer existing) _) eqn:Hp; [|discriminate].
    intros [= <- <-]. rewrite Hex, Hp. split; [done|]. discriminate.
  - intros [= <- <-]. simpl. rewrite lookup_insert_eq. simpl.
    rewrite String.eqb_refl. done.
Qed.
End CreateFacts.

(** ** Invariants of the session ledger *)

Section SessionInvariants.
Context {H : Host}.

(** What a call of [signForChallenge] leaves behind: the session as it
    was, or one new attempt under the key of the payment it returned. *)
Lemma signForChallenge_cases (challenge : PaymentChallenge.t)
    (request : SignRequestContext.t) (s : Session) :
  snd (signForChallenge challenge request s) = s
  \/ exists p,
       fst (signForChallenge challenge request s) = Ok p
       /\ pending s !! SignedPayment.idempotencyKey p = None
       /\ key_of challenge request s = Some (SignedPayment.idempotencyKey p)
       /\ SignedPayment.amountMicrousdc p = PaymentChallenge.amountMicrousdc challenge
       /\ snd (signForChallenge challenge request s)
          = with_attempt (SignedPayment.idempotencyKey p) p s.
Proof.
  destruct (signForChallenge challenge request s) as [[p|e] s1] eqn:Hr.
  - destruct (signForChallenge_returns _ _ _ _ _ Hr)
      as (_ & requestHash & key & _ & Hkey & [[_ ->]|(Hn & _ & Ham & Hu & ->)]).
    + by left.
    + right. exists p.
      assert (Hk : SignedPayment.idempotencyKey p = key).
      { unfold SignedPayment.idempotencyKey. by rewrite Hu. }
      rewrite Hk. auto.
  - left. simpl. by apply (signForChallenge_throws_unchanged challenge request s s1 e).
Qed.

(** What a call of [commitPayment] or [releasePayment] leaves behind. *)
Lemma settle_cases (k : string) (s : Session) :
  let settled (s' : Session) :=
    s' = s
    \/ exists c, s' = persisted (set_state
                        (with_spend_and_pending (state (fst s)) c (delete k (pending s))) s) in
  settled (snd (commitPayment k s)) /\ settled (snd (releasePayment k s)).
Proof.
  cbn zeta.
  destruct (attempt_cases k s) as [[attempt Hk]|[[Hk Hin]|[Hk Hin]]].
  - rewrite (commitPayment_present k s attempt Hk), (releasePayment_present k s attempt Hk).
    split; right; eexists; reflexivity.
  - rewrite (commitPayment_inherited k s Hk Hin), (releasePayment_inherited k s Hk Hin).
    rewrite (delete_id (pending s) k Hk).
    split; right; eexists; reflexivity.
  - rewrite (commitPayment_absent k s Hk Hin), (releasePayment_absent k s Hk Hin).
    split; by left.
Qed.

Lemma apply_op_identity (op : Op) (s : Session) : same_identity s (apply_op op s).
Proof.
  destruct op as [challenge request|k|k|t]; simpl.
  - destruct (signForChallenge_cases challenge request s) as [->|(p & _ & _ & _ & _ & ->)];
      [done|]. by destruct s.
  - destruct (settle_cases k s) as [[->|[c ->]] _]; [done|]. by destruct s.
  - destruct (settle_cases k s) as [_ [->|[c ->]]]; [done|]. by destruct s.
  - by destruct s.
Qed.

Lemma apply_op_mirrored (op : Op) (s : Session) : mirrored s -> mirrored (apply_op op s).
Proof.
  intros Hs. destruct op as [challenge request|k|k|t]; simpl.
  - destruct (signForChallenge_cases challenge request s) as [->|(p & _ & _ & _ & _ & ->)];
      [done|].
    destruct s as [sk w]. unfold mirrored. simpl. apply lookup_insert_eq.
  - destruct (settle_cases k s) as [[->|[c ->]] _]; [done|].
    destruct s as [sk w]. unfold mirrored. simpl. apply lookup_insert_eq.
  - destruct (settle_cases k s) as [_ [->|[c ->]]]; [done|].
    destruct s as [sk w]. unfold mirrored. simpl. apply lookup_insert_eq.
  - by destruct s.
Qed.

Lemma apply_op_keyed (op : Op) (s : Session) :
  keyed (state (fst s)) -> keyed (state (fst (apply_op op s))).
Proof.
  intros Hs. destruct op as [challenge request|k|k|t]; simpl.
  - destruct (signForChallenge_cases challenge request s) as [->|(p & _ & _ & _ & _ & ->)];
      [done|].
    destruct s as [sk w]. unfold keyed, pending in *. simpl in *. intros k q.
    destruct (decide (SignedPayment.idempotencyKey p = k)) as [<-|Hne].
    + rewrite lookup_insert_eq. by intros [= <-].
    + rewrite lookup_insert_ne by done. apply Hs.
  - destruct (settle_cases k s) as [[->|[c ->]] _]; [done|].
    destruct s as [sk w]. unfold keyed, pending in *. simpl in *.
    intros k' q [_ Hq]%lookup_delete_Some. eauto.
  - destruct (settle_cases k s) as [_ [->|[c ->]]]; [done|].
    destruct s as [sk w]. unfold keyed, pending in *. simpl in *.
    intros k' q [_ Hq]%lookup_delete_Some. eauto.
  - by destruct s.
Qed.

Lemma run_ops_invariants (ops : list Op) (s : Session) :
  same_identity s (run_ops ops s)
  /\ (mirrored s -> mirrored (run_ops ops s))
  /\ (keyed (state (fst s)) -> keyed (state (fst (run_ops ops s)))).
Proof.
  revert s. induction ops as [|op ops IH]; intros s; simpl; [done|].
  fold (run_ops ops (apply_op op s)).
  destruct (IH (apply_op op s)) as ((Hw & Hid & Hp) & Hm & Hk).
  destruct (apply_op_identity op s) as (Hw' & Hid' & Hp').
  split; [|split].
  - unfold same_identity. rewrite Hw, Hid, Hp. done.
  - intros Hs. by apply Hm, apply_op_mirrored.
  - intros Hs. by apply Hk, apply_op_keyed.
Qed.


(** X10.  If every pending attempt is stored under its own idempotency
    key, this is still so after any sequence of calls: the key under
    which [signForChallenge] stores a payment is the [idempotencyKey] of
    that payment. *)
Theorem pending_keyed_by_idempotency_key (ops : list Op) (s : Session) :
  keyed (state (fst s)) -> keyed (state (fst (run_ops ops s))).
Proof. apply run_ops_invariants. Qed.

(** X11.  Whatever its outcome, [signForChallenge] removes and changes no
    pending attempt and leaves the wallet, session id, payer, limit,
    creation and expiry times and the cumulative spend as they are; the
    pending attempts afterwards are those before, or those with the
    returned payment added under its key, which was not pending. *)
Theorem signForChallenge_only_adds (challenge : PaymentChallenge.t)
    (request : SignRequestContext.t) (s : Session) :
  let s' := snd (signForChallenge challenge request s) in
  (forall k p, pending s !! k = Some p -> pending s' !! k = Some p)
  /\ cumulative s' = cumulative s
  /\ SessionState.spendLimitMicrousdc (state (fst s'))
     = SessionState.spendLimitMicrousdc (state (fst s))
  /\ SessionState.createdAt (state (fst s')) = SessionState.createdAt (state (fst s))
  /\ SessionState.expiresAt (state (fst s')) = SessionState.expiresAt (state (fst s))
  /\ same_identity s s'
  /\ (pending s' = pending s
      \/ exists p, fst (signForChallenge challenge request s) = Ok p
                   /\ pending s !! SignedPayment.idempotencyKey p = None
                   /\ pending s' = <[SignedPayment.idempotencyKey p := p]> (pending s)).
Proof.
  cbn zeta.
  destruct (signForChallenge_cases challenge request s) as [->|(p & Hp & Hn & _ & _ & ->)].
  - repeat split; auto.
  - destruct s as [sk w]. unfold pending, cumulative in *. simpl in *.
    repeat split; try reflexivity.
    + intros k q Hq. rewrite lookup_insert_ne; [done|]. congruence.
    + right. exists p. auto.
Qed.

(** X12.  Releasing the payment that [signForChallenge] has just returned
    gives back the session state of before the signature, and so the
    available spend, when the payment's key was not pending before. *)
Theorem releasePayment_undoes_signature (challenge : PaymentChallenge.t)
    (request : SignRequestContext.t) (s s1 : Session) (p : SignedPayment.t) :
  signForChallenge challenge request s = (Ok p, s1) ->
  pending s !! SignedPayment.idempotencyKey p = None ->
  let s2 := snd (releasePayment (SignedPayment.idempotencyKey p) s1) in
  fst (releasePayment (SignedPayment.idempotencyKey p) s1) = Ok tt
  /\ state (fst s2) = state (fst s)
  /\ available s2 = available s.
Proof.
  intros Hsign Hnone. cbn zeta.
  assert (Hstate : fst (releasePayment (SignedPayment.idempotencyKey p) s1) = Ok tt
                   /\ state (fst (snd (releasePayment (SignedPayment.idempotencyKey p) s1)))
                      = state (fst s)).
  { pose proof (signForChallenge_cases challenge request s) as Hc. rewrite Hsign in Hc.
    simpl in Hc. destruct Hc as [->|(q & [= <-] & _ & _ & _ & ->)].
    - destruct (attempt_cases (SignedPayment.idempotencyKey p) s)
        as [[attempt Hk]|[[Hk Hin]|[Hk Hin]]]; [congruence| |].
      + rewrite (releasePayment_inherited _ s Hk Hin).
        destruct s as [[wal st] w]. unfold pending. simpl. by destruct st.
      + by rewrite (releasePayment_absent _ s Hk Hin).
    - rewrite (releasePayment_present _ _ p).
      2:{ destruct s as [sk w]. unfold pending. simpl. apply lookup_insert_eq. }
      destruct s as [[wal st] w]. unfold pending in *. simpl in *.
      rewrite delete_insert_eq, (delete_id _ _ Hnone). by destruct st. }
  destruct Hstate as [Hok Hst]. split; [done|]. split; [done|].
  unfold available, cumulative, pending. by rewrite Hst.
Qed.

(** X13.  Committing a payment that [signForChallenge] has newly signed adds
    the amount of the challenge to the cumulative spend, leaves the pending
    attempts as they were before the signature, and saves the state. *)
Theorem commitPayment_charges_signed_amount (challenge : PaymentChallenge.t)
    (request : SignRequestContext.t) (s s1 : Session) (p : SignedPayment.t) :
  signForChallenge challenge request s = (Ok p, s1) ->
  s1 <> s ->
  let s2 := snd (commitPayment (SignedPayment.idempotencyKey p) s1) in
  fst (commitPayment (SignedPayment.idempotencyKey p) s1) = Ok tt
  /\ cumulative s2
     = num_add (cumulative s) (Finite (PaymentChallenge.amountMicrousdc challenge))
  /\ pending s2 = pending s
  /\ mirrored s2.
Proof.
  intros Hsign Hnew. cbn zeta.
  pose proof (signForChallenge_cases challenge request s) as Hc. rewrite Hsign in Hc.
  simpl in Hc. destruct Hc as [->|(q & [= <-] & Hnone & _ & Ham & ->)]; [done|].
  rewrite (commitPayment_present _ _ p).
  2:{ destruct s as [sk w]. unfold pending. simpl. apply lookup_insert_eq. }
  destruct s as [[wal st] w]. unfold pending, cumulative, mirrored in *. simpl in *.
  rewrite delete_insert_eq, (delete_id _ _ Hnone), Ham.
  repeat split. apply lookup_insert_eq.
Qed.

(** X14.  [commitPayment] and [releasePayment] do not read the clock: they
    do at any time what they do now, also after the session has expired. *)
Theorem settlement_ignores_clock (k : string) (t : Z) (s : Session) :
  commitPayment k (set_clock t s)
  = (fst (commitPayment k s), set_clock t (snd (commitPayment k s)))
  /\ releasePayment k (set_clock t s)
     = (fst (releasePayment k s), set_clock t (snd (releasePayment k s))).
Proof.
  destruct s as [sk w].
  unfold commitPayment, releasePayment, persist, store_save, lift_snd, bind, gets, modify,
    ret, set_clock; simpl.
  split; by destruct (get_attempt _ _).
Qed.
End SessionInvariants.

(** ** The request context of the interceptor *)

Section ResolveFacts.
Context {H : Host}.


(** X15.  The method the interceptor hands to [signForChallenge] is in
    upper case: [init.method] when it is a non-empty string, else the
    method of a [Request] input, else [GET].  An empty string body counts
    as no body, and the request hash is the same for both. *)
Theorem request_context_normalizes (input : RequestInput) (init : RequestInit.t) :
  toUpperCase (resolveMethod input init) = resolveMethod input init
  /\ (forall m, RequestInit.method init = Some m -> m <> "" ->
                resolveMethod input init = toUpperCase m)
  /\ (RequestInit.method init = None \/ RequestInit.method init = Some "" ->
      resolveMethod input init
      = match input with
        | InputRequest _ method => toUpperCase method
        | _ => "GET"
        end)
  /\ (resolveBody init = None
      <-> RequestInit.body init = None \/ RequestInit.body init = Some "")
  /\ deriveRequestHash (request_context input init)
     = deriveRequestHash
         (SignRequestContext.mk (resolveMethod input init) (resolveUrl input)
            (RequestInit.body init)).
Proof.
  unfold request_context, resolveMethod, resolveBody, deriveRequestHash. simpl.
  repeat split.
  - destruct (truthy (RequestInit.method init)).
    + apply toUpperCase_idempotent.
    + destruct input; try reflexivity. apply toUpperCase_idempotent.
  - intros m -> Hm. simpl. apply String.eqb_neq in Hm. by rewrite Hm.
  - intros [->| ->]; reflexivity.
  - destruct (RequestInit.body init) as [b|]; simpl; [|by left].
    destruct (String.eqb b "") eqn:Hb; simpl; [|discriminate].
    apply String.eqb_eq in Hb. subst. by right.
  - intros [->| ->]; reflexivity.
  - destruct (RequestInit.body init) as [b|]; simpl; [|done].
    destruct (String.eqb b "") eqn:Hb; simpl; [|by rewrite Hb].
    apply String.eqb_eq in Hb. by subst.
Qed.
End ResolveFacts.

(** ** The interceptor: outcomes of one invocation *)

Section InterceptorFacts.
Context {H : Host} {C : Codec}.

(** X16.  The interceptor returns the outcome of the first [fetch] and
    calls no method of the session when that [fetch] throws, when the
    response is not a 402, when the caller's headers already carry a
    payment, or when no challenge is found in the 402. *)
Theorem x402Fetch_passes_through {S T : Type} `{SessionLike S}
    (fetchImpl : RequestInput -> RequestInit.t -> M T Response.t)
    (input : RequestInput) (init : RequestInit.t) (s : S) (t0 t1 : T)
    (first : Outcome Response.t) :
  fetchImpl input init t0 = (first, t1) ->
  match first with
  | Throw _ => True
  | Ok response =>
      Response.status response <> 402
      \/ carries_payment init = true
      \/ fst (extractChallenge response tt) = Ok None
  end ->
  x402Fetch fetchImpl input init (s, t0) = (first, (s, t1)).
Proof.
  intros Hfirst Hcase.
  unfold x402Fetch, bind at 1, lift_snd at 1. simpl. rewrite Hfirst.
  destruct first as [response|e]; [|done].
  destruct (Response.status response =? 402) eqn:Hstatus; simpl; [|done].
  apply Z.eqb_eq in Hstatus.
  fold (carries_payment init).
  destruct (carries_payment init) eqn:Hcarries; [done|].
  destruct Hcase as [?|[?|Hnone]]; [done|done|].
  unfold bind at 1. rewrite extractChallenge_state, Hnone. done.
Qed.

(** X17.  When [signForChallenge] throws (say, on the spend limit), the
    interceptor throws the same exception: it has made one request and one
    [signForChallenge] call, no retry, and the session is unchanged. *)
Theorem x402Fetch_rethrows_signing_failure {T : Type}
    (fetchImpl : RequestInput -> RequestInit.t -> M T Response.t)
    (input : RequestInput) (init : RequestInit.t)
    (s0 s1 : Session) (calls : list Call) (t0 t1 : T)
    (first : Response.t) (challenge : PaymentChallenge.t) (e : Error) :
  fetchImpl input init t0 = (Ok first, t1) ->
  Response.status first = 402 ->
  carries_payment init = false ->
  fst (extractChallenge first tt) = Ok (Some challenge) ->
  signForChallenge challenge (request_context input init) s0 = (Throw e, s1) ->
  x402Fetch fetchImpl input init ((s0, calls), t0)
  = (Throw e, ((s0, CallSign challenge (request_context input init) :: calls), t1)).
Proof.
  intros Hfirst Hstatus Hcarries Hextract Hsign.
  pose proof (signForChallenge_throws_unchanged _ _ _ _ _ Hsign) as ->.
  unfold x402Fetch, bind at 1, lift_snd at 1. simpl.
  rewrite Hfirst, Hstatus. simpl.
  unfold carries_payment in Hcarries. rewrite Hcarries.
  unfold bind at 1. rewrite extractChallenge_state, Hextract.
  unfold bind at 1, lift_fst at 1. simpl.
  unfold bind at 1, record_call, modify. simpl.
  unfold lift_fst at 1. simpl.
  unfold request_context in Hsign. rewrite Hsign. reflexivity.
Qed.

(** The interceptor after a retry that returned a 2xx response. *)
Lemma x402Fetch_paid_retry {T : Type}
    (fetchImpl : RequestInput -> RequestInit.t -> M T Response.t)
    (input : RequestInput) (init : RequestInit.t)
    (s0 s1 : Session) (calls : list Call) (t0 t1 t2 : T)
    (first response : Response.t) (challenge : PaymentChallenge.t)
    (signed : SignedPayment.t) :
  fetchImpl input init t0 = (Ok first, t1) ->
  Response.status first = 402 ->
  carries_payment init = false ->
  fst (extractChallenge first tt) = Ok (Some challenge) ->
  signForChallenge challenge (request_context input init) s0 = (Ok signed, s1) ->
  fetchImpl input (retry_init signed init) t1 = (Ok response, t2) ->
  Response.ok response = true ->
  x402Fetch fetchImpl input init ((s0, calls), t0)
  = match committed_key response signed with
    | Some k =>
        (match fst (commitPayment k s1) with
         | Ok _ => Ok response
         | Throw e => Throw e
         end,
         ((snd (commitPayment k s1),
           CallCommit k :: CallSign challenge (request_context input init) :: calls), t2))
    | None =>
        (Throw MalformedPaymentHeader,
         ((s1, CallSign challenge (request_context input init) :: calls), t2))
    end.
Proof.
  intros Hfirst Hstatus Hcarries Hextract Hsign Hretry Hok.
  unfold x402Fetch, bind at 1, lift_snd at 1. simpl.
  rewrite Hfirst, Hstatus. simpl.
  unfold carries_payment in Hcarries. rewrite Hcarries.
  unfold bind at 1. rewrite extractChallenge_state, Hextract.
  unfold bind at 1, lift_fst at 1. simpl.
  unfold bind at 1, record_call, modify. simpl.
  unfold lift_fst at 1. simpl.
  unfold request_context in Hsign. rewrite Hsign. simpl.
  unfold bind at 1, try_catch, lift_snd at 1. simpl.
  unfold retry_init in Hretry. rewrite Hretry. rewrite Hok.
  unfold committed_key.
  destruct (truthy (headers_get (Response.headers response) X402_PAYMENT_SIGNATURE_HEADER)).
  - unfold bind at 1. unfold bind at 1, from_option.
    destruct (decodePaymentHeader _) as [echoed|]; simpl; [|done].
    unfold bind, lift_fst, record_call, modify, ret. simpl.
    by destruct (commitPayment _ s1) as [[[]|e] s2].
  - unfold bind, lift_fst, record_call, modify, ret. simpl.
    by destruct (commitPayment _ s1) as [[[]|e] s2].
Qed.

Lemma settlement_returns (k : string) (s : Session) :
  fst (commitPayment k s) = Ok tt /\ fst (releasePayment k s) = Ok tt.
Proof.
  destruct (attempt_cases k s) as [[attempt Hk]|[[Hk Hin]|[Hk Hin]]].
  - by rewrite (commitPayment_present k s attempt Hk), (releasePayment_present k s attempt Hk).
  - by rewrite (commitPayment_inherited k s Hk Hin), (releasePayment_inherited k s Hk Hin).
  - by rewrite (commitPayment_absent k s Hk Hin), (releasePayment_absent k s Hk Hin).
Qed.

(** A returned payment is pending under its own key when the pending
    attempts are stored under their keys. *)
Lemma signed_is_pending (challenge : PaymentChallenge.t)
    (request : SignRequestContext.t) (s s1 : Session) (p : SignedPayment.t) :
  signForChallenge challenge request s = (Ok p, s1) ->
  keyed (state (fst s)) ->
  pending s1 !! SignedPayment.idempotencyKey p = Some p
  /\ cumulative s1 = cumulative s
  /\ (pending s !! SignedPayment.idempotencyKey p = None ->
      SignedPayment.amountMicrousdc p = PaymentChallenge.amountMicrousdc challenge
      /\ pending s1 = <[SignedPayment.idempotencyKey p := p]> (pending s)).
Proof.
  intros Hsign Hkeyed.
  destruct (signForChallenge_returns _ _ _ _ _ Hsign)
    as (_ & requestHash & key & _ & _ & [[Hp ->]|(Hn & _ & Ham & Hu & ->)]).
  - pose proof (Hkeyed _ _ Hp) as Hk. rewrite Hk.
    split; [done|]. split; [done|]. congruence.
  - assert (Hk : SignedPayment.idempotencyKey p = key).
    { unfold SignedPayment.idempotencyKey. by rewrite Hu. }
    rewrite Hk. destruct s as [sk w]. unfold pending, cumulative in *. simpl in *.
    split; [apply lookup_insert_eq|]. done.
Qed.

(** X18.  The paid path.  When the retry returns a 2xx response that echoes
    no payment header, or one with the key of the signed payment, the
    interceptor returns that response after exactly [signForChallenge] and
    one [commitPayment] of that key; for a newly signed payment the
    cumulative spend has grown by the amount of the challenge and the
    pending attempts are those of before. *)
Theorem x402Fetch_commits_paid_retry {T : Type}
    (fetchImpl : RequestInput -> RequestInit.t -> M T Response.t)
    (input : RequestInput) (init : RequestInit.t)
    (s0 s1 : Session) (calls : list Call) (t0 t1 t2 : T)
    (first response : Response.t) (challenge : PaymentChallenge.t)
    (signed : SignedPayment.t) :
  fetchImpl input init t0 = (Ok first, t1) ->
  Response.status first = 402 ->
  carries_payment init = false ->
  fst (extractChallenge first tt) = Ok (Some challenge) ->
  signForChallenge challenge (request_context input init) s0 = (Ok signed, s1) ->
  s1 <> s0 ->
  fetchImpl input (retry_init signed init) t1 = (Ok response, t2) ->
  Response.ok response = true ->
  committed_key response signed = Some (SignedPayment.idempotencyKey signed) ->
  let key := SignedPayment.idempotencyKey signed in
  let s2 := snd (commitPayment key s1) in
  x402Fetch fetchImpl input init ((s0, calls), t0)
  = (Ok response,
     ((s2, CallCommit key :: CallSign challenge (request_context input init) :: calls), t2))
  /\ cumulative s2
     = num_add (cumulative s0) (Finite (PaymentChallenge.amountMicrousdc challenge))
  /\ pending s2 = pending s0.
Proof.
  intros Hfirst Hstatus Hcarries Hextract Hsign Hnew Hretry Hok Hkey. cbn zeta.
  rewrite (x402Fetch_paid_retry fetchImpl input init s0 s1 calls t0 t1 t2 first response
             challenge signed) by done.
  rewrite Hkey.
  destruct (settlement_returns (SignedPayment.idempotencyKey signed) s1) as [-> _].
  split; [done|].
  pose proof (signForChallenge_cases challenge (request_context input init) s0) as Hc.
  rewrite Hsign in Hc. simpl in Hc.
  destruct Hc as [->|(q & [= <-] & Hnone & _ & Ham & ->)]; [done|].
  rewrite (commitPayment_present _ _ signed).
  2:{ destruct s0 as [sk w]. unfold pending. simpl. apply lookup_insert_eq. }
  destruct s0 as [[wal st] w]. unfold pending, cumulative in *. simpl in *.
  by rewrite delete_insert_eq, (delete_id _ _ Hnone), Ham.
Qed.

(** X19.  When the 2xx retry response echoes a payment header that does not
    decode, the interceptor throws; when it echoes one whose key is
    neither pending nor the name of a member of [Object.prototype], the
    interceptor commits that key, which does nothing.  Either way the
    signed payment stays pending and the cumulative spend is unchanged. *)
Theorem x402Fetch_unmatched_echo_settles_nothing {T : Type}
    (fetchImpl : RequestInput -> RequestInit.t -> M T Response.t)
    (input : RequestInput) (init : RequestInit.t)
    (s0 s1 : Session) (calls : list Call) (t0 t1 t2 : T)
    (first response : Response.t) (challenge : PaymentChallenge.t)
    (signed : SignedPayment.t) :
  fetchImpl input init t0 = (Ok first, t1) ->
  Response.status first = 402 ->
  carries_payment init = false ->
  fst (extractChallenge first tt) = Ok (Some challenge) ->
  signForChallenge challenge (request_context input init) s0 = (Ok signed, s1) ->
  fetchImpl input (retry_init signed init) t1 = (Ok response, t2) ->
  Response.ok response = true ->
  keyed (state (fst s0)) ->
  match committed_key response signed with
  | Some k => pending s1 !! k = None /\ inherited k = false
  | None => True
  end ->
  x402Fetch fetchImpl input init ((s0, calls), t0)
  = match committed_key response signed with
    | Some k =>
        (Ok response,
         ((s1, CallCommit k :: CallSign challenge (request_context input init) :: calls), t2))
    | None =>
        (Throw MalformedPaymentHeader,
         ((s1, CallSign challenge (request_context input init) :: calls), t2))
    end
  /\ pending s1 !! SignedPayment.idempotencyKey signed = Some signed
  /\ cumulative s1 = cumulative s0.
Proof.
  intros Hfirst Hstatus Hcarries Hextract Hsign Hretry Hok Hkeyed Hecho.
  rewrite (x402Fetch_paid_retry fetchImpl input init s0 s1 calls t0 t1 t2 first response
             challenge signed) by done.
  destruct (signed_is_pending _ _ _ _ _ Hsign Hkeyed) as (Hp & Hcum & _).
  split; [|done].
  destruct (committed_key response signed) as [k|]; [|done].
  destruct Hecho as [Hk Hin]. by rewrite (commitPayment_absent k s1 Hk Hin).
Qed.
End InterceptorFacts.

(** ** Challenge extraction *)

Section ExtractionFacts.
Context {C : Codec}.

Lemma loop_first_match (accepts : list X402PaymentRequiredAccept.t) :
  match extractChallengeFromRequired_loop accepts with
  | Some challenge =>
      exists before acceptance rest,
        accepts = before ++ acceptance :: rest
        /\ X402PaymentRequiredAccept.extra_challenge acceptance = Some challenge
        /\ PaymentChallenge.version challenge = ACE_PAYMENT_VERSION
        /\ offers_challenge (X402PaymentRequired.mk before) = false
  | None => offers_challenge (X402PaymentRequired.mk accepts) = false
  end.
Proof.
  unfold offers_challenge. simpl.
  induction accepts as [|a rest IH]; simpl; [done|].
  destruct (X402PaymentRequiredAccept.extra_challenge a) as [c|] eqn:Ha.
  - destruct (String.eqb (PaymentChallenge.version c) ACE_PAYMENT_VERSION) eqn:Hv.
    + exists [], a, rest. apply String.eqb_eq in Hv. done.
    + destruct (extractChallengeFromRequired_loop rest) as [c'|]; [|done].
      destruct IH as (before & a' & rest' & -> & Ha' & Hv' & Hnone).
      exists (a :: before), a', rest'. simpl. by rewrite Ha, Hv.
  - destruct (extractChallengeFromRequired_loop rest) as [c'|]; [|done].
    destruct IH as (before & a' & rest' & -> & Ha' & Hv' & Hnone).
    exists (a :: before), a', rest'. simpl. by rewrite Ha.
Qed.

(** X20.  [extractChallengeFromRequired] returns the challenge of the first
    entry of [accepts] that carries one of the protocol version, and
    [null] exactly when no entry does. *)
Theorem extractChallengeFromRequired_first_match (required : X402PaymentRequired.t) :
  match extractChallengeFromRequired required with
  | Some challenge =>
      exists before acceptance rest,
        X402PaymentRequired.accepts required = before ++ acceptance :: rest
        /\ X402PaymentRequiredAccept.extra_challenge acceptance = Some challenge
        /\ PaymentChallenge.version challenge = ACE_PAYMENT_VERSION
        /\ offers_challenge (X402PaymentRequired.mk before) = false
  | None => offers_challenge required = false
  end.
Proof.
  destruct required as [accepts]. unfold extractChallengeFromRequired. simpl.
  destruct accepts as [|a rest]; [done|]. apply (loop_first_match (a :: rest)).
Qed.

(** X21.  [extractChallenge] changes nothing; every challenge it returns has
    the protocol version; a challenge found in the [PAYMENT-REQUIRED]
    header is returned whatever the body holds. *)
Theorem extractChallenge_yields_protocol_version {S : Type} (response : Response.t) (s : S) :
  snd (extractChallenge response s) = s
  /\ (forall challenge,
        fst (extractChallenge response s) = Ok (Some challenge) ->
        PaymentChallenge.version challenge = ACE_PAYMENT_VERSION)
  /\ (forall challenge,
        challenge_from_header response = Some challenge ->
        extractChallenge response s = (Ok (Some challenge), s)).
Proof.
  split; [by rewrite extractChallenge_state|]. split.
  - intros challenge. unfold extractChallenge.
    destruct (challenge_from_header response) as [c|] eqn:Hhdr.
    + intros [= <-]. revert Hhdr. unfold challenge_from_header.
      destruct (truthy _); [|discriminate].
      destruct (decodePaymentRequiredHeader _) as [[accepts]|]; [|discriminate].
      unfold extractChallengeFromRequired. cbn [X402PaymentRequired.accepts].
      destruct accepts as [|a rest]; [discriminate|].
      pose proof (loop_first_match (a :: rest)) as Hloop. intros Hc. rewrite Hc in Hloop.
      by destruct Hloop as (_ & _ & _ & _ & _ & Hv & _).
    + destruct (negb _); [discriminate|].
      unfold bind, from_option.
      destruct (parsePaymentRequiredBody _) as [body|]; [|discriminate]. simpl.
      destruct (PaymentRequiredBody.challenge body) as [c|]; [|discriminate].
      destruct (String.eqb (PaymentChallenge.version c) ACE_PAYMENT_VERSION) eqn:Hv;
        [|discriminate].
      intros [= <-]. by apply String.eqb_eq.
  - intros challenge Hhdr. unfold extractChallenge. by rewrite Hhdr.
Qed.
End ExtractionFacts.

(** ** The origin: validation *)

Section ValidationFacts.
Context {H : Host} {C : Codec}.

(** A payment that passes every check is accepted, with the lower-cased
    payer as the recovered address. *)
Lemma passes_validation_accepted (payment : SignedPayment.t)
    (expectedResource expectedMethod requestHash : string) (config : ServerConfig.t)
    (o : Origin) :
  passes_validation payment expectedResource expectedMethod requestHash config
    (originClock o) ->
  validateSignedPayment payment expectedResource expectedMethod requestHash config o
  = (Ok (toLowerCase (SignedPayment.payer payment)), o).
Proof.
  unfold validateSignedPayment, passes_validation, SignedPayment.payer, toUnsignedPayment,
    throw_if, bind, gets, from_option, ret, throw.
  cbn zeta.
  intros (Hversion & Hcurrency & Hid & Hresource & Hmethod & Hhash & Hrequest & Hmac
          & Hexpiry & Hkey & Hamount & Hsession & recovered & Hrecovered & Hpayer).
  rewrite Hversion, Hcurrency, <- Hid, Hresource, Hmethod, <- Hhash, Hrequest, Hmac.
  rewrite !String.eqb_refl. cbn [negb].
  rewrite Hexpiry.
  rewrite Hrequest in Hkey. rewrite <- Hid in Hkey. rewrite Hkey, String.eqb_refl.
  cbn [negb].
  rewrite Hamount, Z.eqb_refl. cbn [negb]. rewrite Hsession.
  rewrite Hrecovered. cbn [negb]. rewrite Hpayer, String.eqb_refl. cbn [negb].
  reflexivity.
Qed.

(** X22.  [validateSignedPayment] changes nothing at the origin.  It returns
    exactly when the payment passes every check (version, currency,
    challenge id, resource, method, challenge hash, request hash, MAC,
    challenge expiry, idempotency key, amount, session expiry, signature),
    and then it returns the payer's address in lower case. *)
Theorem validateSignedPayment_accepts_iff (payment : SignedPayment.t)
    (expectedResource expectedMethod requestHash : string) (config : ServerConfig.t)
    (o : Origin) (recoveredAddress : string) :
  snd (validateSignedPayment payment expectedResource expectedMethod requestHash config o) = o
  /\ (fst (validateSignedPayment payment expectedResource expectedMethod requestHash config o)
      = Ok recoveredAddress
      <-> passes_validation payment expectedResource expectedMethod requestHash config
            (originClock o)
          /\ recoveredAddress = toLowerCase (SignedPayment.payer payment)).
Proof.
  split; [apply validateSignedPayment_reads_only|]. split.
  - unfold validateSignedPayment, passes_validation, SignedPayment.payer, toUnsignedPayment,
      throw_if, bind, gets, from_option, ret, throw.
    cbn zeta.
    repeat match goal with
           | |- context [if negb (String.eqb ?a ?b) then _ else _] =>
               let E := fresh "E" in
               destruct (String.eqb a b) eqn:E; cbn [negb];
               [apply String.eqb_eq in E|discriminate]
           | |- context [if negb (Z.eqb ?a ?b) then _ else _] =>
               let E := fresh "E" in
               destruct (Z.eqb a b) eqn:E; cbn [negb]; [apply Z.eqb_eq in E|discriminate]
           | |- context [if negb ?b then _ else _] =>
               let E := fresh "E" in destruct b eqn:E; cbn [negb]; [|discriminate]
           | |- context [if ?b then _ else _] =>
               let E := fresh "E" in destruct b eqn:E; cbn [negb]; [discriminate|]
           | |- context [match verifyMessage ?m ?g with _ => _ end] =>
               let E := fresh "E" in
               destruct (verifyMessage m g) as [recovered|] eqn:E; cbn [negb];
               [|discriminate]
           end.
    intros [= <-]. repeat split; try assumption. eauto.
  - intros [Hpasses ->]. by rewrite passes_validation_accepted.
Qed.


End ValidationFacts.

(** ** The origin: the request listener *)

Section HandlerFacts.
Context {H : Host} {C : Codec}.

(** The request listener as a decision tree over the origin it runs on. *)
Lemma handle_unfold (config : ServerConfig.t) (request : IncomingMessage.t) (o : Origin) :
  handle config request o =
    let method := toUpperCase (default "GET" (IncomingMessage.method request)) in
    match parseUrl (IncomingMessage.href request) with
    | None => (Ok (invalid_payment InvalidUrl), o)
    | Some (pathname, search) =>
        if negb (String.eqb pathname "/compute")
        then (Ok (sendJson 404 (ErrorPayload "not_found") []), o)
        else
          let resource := (pathname ++ search)%string in
          match payment_header request with
          | None =>
              let challenge := issued_challenge config resource method o in
              (Ok (sendJson 402 (PaymentRequiredPayload challenge)
                     [(X402_PAYMENT_REQUIRED_HEADER,
                       buildPaymentRequiredHeaderValue challenge)]),
               after_draws 2 o)
          | Some hdr =>
              match decodePaymentHeader hdr with
              | None => (Ok (invalid_payment MalformedPaymentHeader), o)
              | Some payment =>
                  match fst (validateSignedPayment payment resource method
                               (origin_request_hash method resource) config o) with
                  | Throw e => (Ok (invalid_payment e), o)
                  | Ok _ =>
                      match records o !! SignedPayment.idempotencyKey payment with
                      | Some existing =>
                          (Ok (if record_matches existing payment
                               then served true hdr existing
                               else sendJson 409 (ErrorPayload "idempotency_key_conflict") []),
                           o)
                      | None =>
                          let record := new_record payment search o in
                          (Ok (served false hdr record),
                           set_records (<[SignedPayment.idempotencyKey payment := record]>
                                          (records o))
                             (after_draws 1 o))
                      end
                  end
              end
          end
    end.
Proof.
  cbn zeta.
  unfold handle, try_catch, handle_try, bind at 1, from_option.
  destruct (parseUrl (IncomingMessage.href request)) as [[pathname search]|] eqn:Hurl;
    [|done].
  unfold ret at 1. cbn [fst snd].
  destruct (String.eqb pathname "/compute"); cbn [negb]; [|done].
  unfold bind at 1, deriveRequestHash, deriveResource. cbn [SignRequestContext.url].
  rewrite Hurl. unfold ret at 1.
  cbn [SignRequestContext.body SignRequestContext.method truthy].
  fold (origin_request_hash (toUpperCase (default "GET" (IncomingMessage.method request)))
          (pathname ++ search)).
  fold (payment_header request).
  destruct (payment_header request) as [hdr|].
  - unfold bind at 1.
    destruct (decodePaymentHeader hdr) as [payment|]; [|done].
    unfold ret at 1. unfold bind at 1.
    pose proof (validateSignedPayment_reads_only payment (pathname ++ search)%string
                  (toUpperCase (default "GET" (IncomingMessage.method request)))
                  (origin_request_hash
                     (toUpperCase (default "GET" (IncomingMessage.method request)))
                     (pathname ++ search)) config o) as Hsame.
    destruct (validateSignedPayment _ _ _ _ _ o) as [[recovered|e] o'];
      simpl in Hsame; subst o'; [|done].
    cbn [fst]. unfold bind at 1, ledger_get, gets.
    destruct (records o !! SignedPayment.idempotencyKey payment) as [existing|].
    + unfold record_matches, served.
      destruct (String.eqb (PaymentLogRecord.payer existing) _); simpl; [|done].
      destruct (_ =? _); simpl; [|done].
      by destruct (String.eqb _ _).
    + reflexivity.
  - reflexivity.
Qed.



(** X25.  A request to [/compute] without a usable payment header gets a 402
    whose challenge verifies under the origin's secret, is of the protocol
    version, in USDC, for the configured amount, the requested resource
    and the upper-cased method, and expires [challengeTtlSeconds] after
    now; it is the challenge the interceptor extracts from the decoded
    [PAYMENT-REQUIRED] header. *)
Theorem handle_issues_verifiable_challenge (config : ServerConfig.t)
    (request : IncomingMessage.t) (o : Origin) (search : string) :
  parseUrl (IncomingMessage.href request) = Some ("/compute", search) ->
  payment_header request = None ->
  let method := toUpperCase (default "GET" (IncomingMessage.method request)) in
  let challenge := issued_challenge config ("/compute" ++ search) method o in
  handle config request o
  = (Ok (sendJson 402 (PaymentRequiredPayload challenge)
           [(X402_PAYMENT_REQUIRED_HEADER, buildPaymentRequiredHeaderValue challenge)]),
     after_draws 2 o)
  /\ verifyChallenge challenge (ServerConfig.challengeSecret config) = true
  /\ PaymentChallenge.version challenge = ACE_PAYMENT_VERSION
  /\ PaymentChallenge.currency challenge = "USDC"
  /\ PaymentChallenge.amountMicrousdc challenge = ServerConfig.amountMicrousdc config
  /\ PaymentChallenge.resource challenge = ("/compute" ++ search)%string
  /\ PaymentChallenge.method challenge = method
  /\ PaymentChallenge.expiresAt challenge
     = toISOString (originClock o + ServerConfig.challengeTtlSeconds config * 1000)
  /\ extractChallengeFromRequired
       (X402PaymentRequired.mk [X402PaymentRequiredAccept.mk (Some challenge)])
     = Some challenge.
Proof.
  intros Hurl Hhdr. cbn zeta. rewrite handle_unfold. cbn zeta. rewrite Hurl, Hhdr.
  split; [reflexivity|].
  unfold issued_challenge, verifyChallenge, createChallenge. simpl.
  rewrite toUpperCase_idempotent.
  repeat split. by apply bool_decide_eq_true_2.
Qed.

End HandlerFacts.

(** ** The interceptor against the origin *)

Section EndToEnd.
Context {H : Host} {C : Codec}.










End EndToEnd.


(** From here on every statement is about the concrete host. *)
#[local] Existing Instance Demo.host.
#[local] Existing Instance Demo.codec.

Lemma inserted_orders_same_content : same_content Demo.inserted_ba Demo.inserted_ab.
Proof.
  apply (same_obj _ [ ("a", JObj [ ("z", JNull); ("y", JBool true) ]);
                      ("b", JArr [JNum 1; JStr "x"]) ]).
  - apply perm_swap.
  - constructor; [|constructor; [|constructor]].
    + split; [done|].
      apply (same_obj _ [ ("y", JBool true); ("z", JNull) ]); [apply perm_swap|].
      repeat constructor.
    + split; [done|]. repeat constructor.
Qed.

Example canonicalJson_sorted_on_concrete_host :
  well_keyed Demo.inserted_ba = true
  /\ ((plain_keys Demo.inserted_ba = true ->
        deep_sorted collation_lt (sortDeep Demo.inserted_ba) = true
        /\ same_content Demo.inserted_ba (sortDeep Demo.inserted_ba)
        /\ (spaceless Demo.inserted_ba = true ->
            has_space (canonicalJson Demo.inserted_ba) = false))
      /\ (forall v', same_content Demo.inserted_ba v' ->
                     canonicalJson Demo.inserted_ba = canonicalJson v')).
Proof.
  split; [reflexivity|].
  apply (canonicalJson_sorted_by_collation Demo.inserted_ba demo_collation_strict).
  reflexivity.
Defined.

(** The two insertion orders are written as one string. *)
Example canonicalJson_inserted_orders :
  canonicalJson Demo.inserted_ba = canonicalJson Demo.inserted_ab
  /\ sortDeep Demo.inserted_ba = Demo.inserted_ab.
Proof. split; reflexivity. Qed.

(** C1 fails on the code.  The claim has [canonicalJson] sort object keys
    by UTF-16 code units, independently of any locale.  The code compares
    keys with [localeCompare]: for the object with keys [B] and [a] it
    writes [a] first, as collation ranks them, while in code-unit order [B]
    (66) comes before [a] (97); the keys of the result are not ascending in
    code-unit order. *)
Theorem canonicalJson_not_in_code_unit_order :
  well_keyed Demo.mixed_case = true
  /\ plain_keys Demo.mixed_case = true
  /\ sortDeep Demo.mixed_case = JObj [ ("a", JNum 2); ("B", JNum 1) ]
  /\ canonicalJson Demo.mixed_case
     = ("{" ++ quote "a" ++ ":2," ++ quote "B" ++ ":1}")%string
  /\ code_unit_lt "B" "a" = true
  /\ deep_sorted code_unit_lt (sortDeep Demo.mixed_case) = false.
Proof. repeat split; reflexivity. Qed.

(** Array indices are enumerated first, in numeric order, although ["10"]
    sorts before ["9"]; the assignment to [__proto__] creates no property. *)
Example canonicalJson_indices_and_proto :
  sortDeep Demo.with_indices = JObj [ ("9", JNum 3); ("10", JNum 2); ("b", JNum 1) ].
Proof. reflexivity. Qed.

(** ** Witnesses and counterexamples on the concrete host *)


Lemma fresh_state_positive (limit : Z) : pending_positive (Demo.fresh_state limit).
Proof. intros k p. simpl. by rewrite lookup_empty. Qed.



(** Closed equations between runs of the model are settled by evaluating
    both sides on the virtual machine; the proof term keeps the sides as
    written, so that no normal form of a map is type-checked again. *)
Ltac vm_reflexivity :=
  lazymatch goal with
  | |- ?x = ?y => exact (@eq_refl _ x <: x = y)
  end.

(** The payment of scenario S1 is signed at 00:01. *)
Lemma demo_first_signature :
  signForChallenge Demo.challenge Demo.request (Demo.session 5000000 Demo.t_0001)
  = (Ok Demo.signed_payment, snd (Demo.signed_at 5000000 Demo.t_0001)).
Proof.
  transitivity (fst (Demo.signed_at 5000000 Demo.t_0001),
                snd (Demo.signed_at 5000000 Demo.t_0001)).
  - unfold Demo.signed_at. apply surjective_pairing.
  - apply (f_equal (fun r => (r, snd (Demo.signed_at 5000000 Demo.t_0001)))).
    vm_reflexivity.
Qed.

(** C3 as stated fails: at 00:05 the session is unexpired but the challenge
    has expired, and the second call throws instead of returning the
    pending payment. *)
Lemma expired_challenge_is_not_replayed :
  let first := Demo.signed_at 5000000 Demo.t_0001 in
  let later := set_clock Demo.t_0005 (snd first) in
  fst first = Ok Demo.signed_payment
  /\ session_expired later = false
  /\ fst (signForChallenge Demo.challenge Demo.request later) = Throw ChallengeExpired.
Proof. cbn zeta. repeat apply conj; vm_reflexivity. Qed.

Lemma signForChallenge_twice_witness :
  let s := Demo.session 5000000 Demo.t_0001 in
  let s1 := snd (Demo.signed_at 5000000 Demo.t_0001) in
  signForChallenge Demo.challenge Demo.request s = (Ok Demo.signed_payment, s1)
  /\ session_expired (set_clock Demo.t_0001 s1) = false
  /\ at_or_after Demo.t_0001 (getTime (PaymentChallenge.expiresAt Demo.challenge)) = false
  /\ (signForChallenge Demo.challenge Demo.request (set_clock Demo.t_0001 s1)
      = (Ok Demo.signed_payment, set_clock Demo.t_0001 s1)
      /\ exists key, key_of Demo.challenge Demo.request s = Some key
                     /\ pending s1 !! key = Some Demo.signed_payment
                     /\ (pending s = ∅ -> pending s1 = {[ key := Demo.signed_payment ]})).
Proof.
  cbn zeta.
  assert (Hsession : session_expired
            (set_clock Demo.t_0001 (snd (Demo.signed_at 5000000 Demo.t_0001))) = false).
  { vm_reflexivity. }
  assert (Hchallenge :
            at_or_after Demo.t_0001 (getTime (PaymentChallenge.expiresAt Demo.challenge))
            = false).
  { vm_reflexivity. }
  split; [exact demo_first_signature|]. split; [exact Hsession|]. split; [exact Hchallenge|].
  exact (signForChallenge_twice Demo.challenge Demo.request _ _ _ Demo.t_0001
           demo_first_signature Hsession Hchallenge).
Defined.

(** C7 fails on the code.  [constructor] is not pending, yet
    [commitPayment("constructor")] is no no-op: the read
    [pendingAttempts["constructor"]] finds the member inherited from
    [Object.prototype], the guard [if (!attempt) return] lets it pass, and
    adding its missing amount turns the cumulative spend into [NaN], which
    is saved. *)
Theorem commitPayment_takes_prototype_member :
  let s := Demo.session 5000000 Demo.t_0001 in
  let s' := snd (commitPayment "constructor" s) in
  pending s !! "constructor" = None
  /\ cumulative s = Finite 0
  /\ fst (commitPayment "constructor" s) = Ok tt
  /\ cumulative s' = NaN
  /\ option_map SessionState.cumulativeSpendMicrousdc (store (snd s') !! "session-1")
     = Some NaN.
Proof. cbn zeta. repeat apply conj; vm_reflexivity. Qed.

(** C8 fails on the code, by the same defect: after a payment of 250000
    is committed, [commitPayment("constructor")] replaces the cumulative
    spend by [NaN], which is not at least 250000; afterwards the spend-limit
    check passes for any amount. *)
Theorem cumulative_spend_is_lost :
  let s := Demo.session 5000000 Demo.t_0001 in
  let key := SignedPayment.idempotencyKey Demo.signed_payment in
  let paid := run_ops [Sign Demo.challenge Demo.request; Commit key] s in
  let after := run_ops [Commit "constructor"] paid in
  pending_positive (state (fst s))
  /\ cumulative paid = Finite 250000
  /\ cumulative after = NaN
  /\ num_le (cumulative paid) (cumulative after) = false
  /\ num_gt (Finite 1000000000) (available after) = false.
Proof.
  cbn zeta. split; [apply fresh_state_positive|].
  repeat apply conj; vm_reflexivity.
Qed.

(** Scenario S1 on the ledger: after sign and commit the cumulative spend
    is 250000 and nothing is pending. *)
Example demo_sign_then_commit :
  let s := run_ops [ Sign Demo.challenge Demo.request;
                     Commit (SignedPayment.idempotencyKey Demo.signed_payment) ]
             (Demo.session 5000000 Demo.t_0001) in
  cumulative s = Finite 250000 /\ pending s = ∅ /\ available s = Finite 4750000.
Proof. cbn zeta. repeat apply conj; vm_reflexivity. Qed.

(** Scenario S5: a 0.2 USDC session refuses the 0.25 USDC challenge. *)
Example demo_spend_limit_guard :
  Demo.signed_at 200000 Demo.t_0001
  = (Throw (SpendLimitExceeded 250000 (Finite 200000)), Demo.session 200000 Demo.t_0001).
Proof. vm_reflexivity. Qed.

Lemma x402Fetch_releases_failed_retry_witness :
  let fetchImpl := Demo.transport Demo.full_402 (Some 500) in
  let input := InputString Demo.url in
  let init := Demo.get_compute in
  let s0 := Demo.session 5000000 Demo.t_0001 in
  let s1 := snd (Demo.signed_at 5000000 Demo.t_0001) in
  let signed := Demo.signed_payment in
  let retry :=
    Ok (Response.mk 500
          (headers_set ∅ X402_PAYMENT_SIGNATURE_HEADER (encodePaymentHeader signed)) "") in
  let key := SignedPayment.idempotencyKey signed in
  let s2 := snd (releasePayment key s1) in
  fetchImpl input init 0%nat = (Ok Demo.full_402, 1%nat)
  /\ Response.status Demo.full_402 = 402
  /\ carries_payment init = false
  /\ fst (extractChallenge Demo.full_402 tt) = Ok (Some Demo.challenge)
  /\ signForChallenge Demo.challenge (request_context input init) s0 = (Ok signed, s1)
  /\ fetchImpl input (retry_init signed init) 1%nat = (retry, 2%nat)
  /\ Response.ok (Response.mk 500
        (headers_set ∅ X402_PAYMENT_SIGNATURE_HEADER (encodePaymentHeader signed)) "") = false
  /\ (x402Fetch fetchImpl input init ((s0, []), 0%nat)
        = (retry,
           ((s2, [CallRelease key; CallSign Demo.challenge (request_context input init)]),
            2%nat))
      /\ cumulative s2 = cumulative s0
      /\ pending s2 !! key = None).
Proof.
  cbn zeta.
  assert (H1 : Demo.transport Demo.full_402 (Some 500) (InputString Demo.url)
                 Demo.get_compute 0%nat = (Ok Demo.full_402, 1%nat))
    by vm_reflexivity.
  assert (H2 : Response.status Demo.full_402 = 402) by reflexivity.
  assert (H3 : carries_payment Demo.get_compute = false) by vm_reflexivity.
  assert (H4 : fst (extractChallenge Demo.full_402 tt) = Ok (Some Demo.challenge))
    by vm_reflexivity.
  assert (H5 : signForChallenge Demo.challenge
                 (request_context (InputString Demo.url) Demo.get_compute)
                 (Demo.session 5000000 Demo.t_0001)
               = (Ok Demo.signed_payment, snd (Demo.signed_at 5000000 Demo.t_0001)))
    by exact demo_first_signature.
  assert (H6 : Demo.transport Demo.full_402 (Some 500) (InputString Demo.url)
                 (retry_init Demo.signed_payment Demo.get_compute) 1%nat
               = (Ok (Response.mk 500
                        (headers_set ∅ X402_PAYMENT_SIGNATURE_HEADER
                           (encodePaymentHeader Demo.signed_payment)) ""), 2%nat))
    by vm_reflexivity.
  assert (H7 : Response.ok (Response.mk 500
                  (headers_set ∅ X402_PAYMENT_SIGNATURE_HEADER
                     (encodePaymentHeader Demo.signed_payment)) "") = false)
    by reflexivity.
  repeat (apply conj; [assumption|]).
  exact (x402Fetch_releases_failed_retry
           (Demo.transport Demo.full_402 (Some 500)) (InputString Demo.url)
           Demo.get_compute _ _ [] 0%nat 1%nat 2%nat Demo.full_402 Demo.challenge
           Demo.signed_payment _ H1 H2 H3 H4 H5 H6 H7).
Defined.

(** Scenario S3: the retry throws; the exception is re-thrown after one
    release. *)
Example demo_retry_throws :
  let r := x402Fetch (Demo.transport Demo.full_402 None) (InputString Demo.url)
             Demo.get_compute ((Demo.session 5000000 Demo.t_0001, []), 0%nat) in
  fst r = Throw (TransportError "network down")
  /\ snd (fst (snd r))
     = [ CallRelease (SignedPayment.idempotencyKey Demo.signed_payment);
         CallSign Demo.challenge Demo.request ]
  /\ cumulative (fst (fst (snd r))) = Finite 0
  /\ pending (fst (fst (snd r))) = ∅.
Proof. cbn zeta. repeat apply conj; vm_reflexivity. Qed.

(** The same defect through the interceptor: the origin answers 200 and
    echoes a payment header whose idempotency key is [constructor]; the
    interceptor commits that key, the cumulative spend becomes [NaN] and
    the payment that was signed stays pending. *)
Example demo_forged_echo :
  let r := x402Fetch (Demo.forging_transport Demo.full_402) (InputString Demo.url)
             Demo.get_compute ((Demo.session 5000000 Demo.t_0001, []), 0%nat) in
  let s' := fst (fst (snd r)) in
  snd (fst (snd r)) = [ CallCommit "constructor"; CallSign Demo.challenge Demo.request ]
  /\ cumulative s' = NaN
  /\ pending s' !! SignedPayment.idempotencyKey Demo.signed_payment
     = Some Demo.signed_payment.
Proof. cbn zeta. repeat apply conj; vm_reflexivity. Qed.




(** Scenarios S6 and S7 at the origin: the stored payment is replayed; a
    record with another amount under the same key is a conflict. *)
Example demo_origin_replay_and_conflict :
  let p := Demo.signed_payment in
  let r := Demo.record_of p in
  let forged :=
    PaymentLogRecord.mk (PaymentLogRecord.idempotencyKey r) (PaymentLogRecord.payer r)
      300000 (PaymentLogRecord.requestHash r) (PaymentLogRecord.challengeId r)
      (PaymentLogRecord.paidAt r) (PaymentLogRecord.result r) in
  ServerResponse.statusCode
    (match fst (handle Demo.config (Demo.paid_request p) (Demo.origin [])) with
     | Ok response => response
     | Throw _ => sendJson 0 (ErrorPayload "") []
     end) = 200
  /\ fst (handle Demo.config (Demo.paid_request p) (Demo.origin [r]))
     = Ok (sendJson 200
             (PaidPayload true (PaymentLogRecord.result r) (PaymentLogRecord.idempotencyKey r)
                250000)
             (paid_headers (Demo.header_of p) (PaymentLogRecord.idempotencyKey r)))
  /\ fst (handle Demo.config (Demo.paid_request p) (Demo.origin [forged]))
     = Ok (sendJson 409 (ErrorPayload "idempotency_key_conflict") []).
Proof. cbn zeta. repeat apply conj; vm_reflexivity. Qed.

(** ** Witnesses of the further properties *)

(** The signature of scenario S1 is a new one: the wallet has signed. *)
Lemma demo_signature_is_new :
  snd (Demo.signed_at 5000000 Demo.t_0001) <> Demo.session 5000000 Demo.t_0001.
Proof.
  intros Heq. apply (f_equal (fun s => length (walletLog (snd s)))) in Heq.
  discriminate Heq.
Qed.


(** The first exchange of scenario S1: the 402 and its challenge. *)
Lemma demo_offer :
  Demo.transport Demo.full_402 (Some 200) (InputString Demo.url) Demo.get_compute 0%nat
  = (Ok Demo.full_402, 1%nat)
  /\ Response.status Demo.full_402 = 402
  /\ carries_payment Demo.get_compute = false
  /\ fst (extractChallenge Demo.full_402 tt) = Ok (Some Demo.challenge).
Proof. repeat apply conj; vm_reflexivity. Qed.

Lemma sortDeep_idempotent_witness :
  well_keyed Demo.inserted_ba = true
  /\ plain_keys Demo.inserted_ba = true
  /\ sortDeep (sortDeep Demo.inserted_ba) = sortDeep Demo.inserted_ba
  /\ canonicalJson (sortDeep Demo.inserted_ba) = canonicalJson Demo.inserted_ba.
Proof.
  split; [reflexivity|]. split; [reflexivity|].
  exact (sortDeep_idempotent (HC := demo_collation_strict) Demo.inserted_ba eq_refl eq_refl).
Defined.

Lemma create_rejects_without_writing_witness :
  let w := snd (Demo.session 5000000 Demo.t_0001) in
  CreateInput.ttlSeconds Scenario.zero_ttl_input <= 0
  /\ create Scenario.zero_ttl_input w = (Throw TtlNotPositive, w).
Proof.
  cbn zeta. split; [simpl; lia|].
  apply (create_rejects_without_writing Scenario.zero_ttl_input). simpl. lia.
Defined.

Lemma create_resumes_stored_session_witness :
  let w := snd (Demo.session 5000000 Demo.t_0001) in
  let existing := Demo.fresh_state 5000000 in
  0 < CreateInput.ttlSeconds Scenario.second_input
  /\ store w !! created_id Scenario.second_input = Some existing
  /\ SessionState.payer existing
     = toLowerCase (getAddress (CreateInput.wallet Scenario.second_input))
  /\ create Scenario.second_input w = (Ok {| wallet := Demo.signer; state := existing |}, w).
Proof.
  cbn zeta.
  assert (H1 : 0 < CreateInput.ttlSeconds Scenario.second_input) by (simpl; lia).
  assert (H2 : store (snd (Demo.session 5000000 Demo.t_0001))
                 !! created_id Scenario.second_input = Some (Demo.fresh_state 5000000))
    by vm_reflexivity.
  assert (H3 : SessionState.payer (Demo.fresh_state 5000000)
               = toLowerCase (getAddress (CreateInput.wallet Scenario.second_input)))
    by reflexivity.
  repeat (apply conj; [assumption|]).
  exact (create_resumes_stored_session Scenario.second_input _ _ H1 H2 H3).
Defined.

Lemma restore_after_create_witness :
  let input := Demo.create_input 5000000 in
  let sk := {| wallet := Demo.signer; state := Demo.fresh_state 5000000 |} in
  let w' := snd (Demo.session 5000000 Demo.t_0000) in
  create input (Demo.empty_world Demo.t_0000) = (Ok sk, w')
  /\ restore (CreateInput.wallet input) (created_id input) w' = (Ok sk, w').
Proof.
  cbn zeta.
  assert (H1 : create (Demo.create_input 5000000) (Demo.empty_world Demo.t_0000)
               = (Ok {| wallet := Demo.signer; state := Demo.fresh_state 5000000 |},
                  snd (Demo.session 5000000 Demo.t_0000))) by vm_reflexivity.
  split; [exact H1|].
  exact (proj1 (restore_after_create _ _ _ _ H1)).
Defined.


Lemma pending_keyed_by_idempotency_key_witness :
  let s := Demo.session 5000000 Demo.t_0001 in
  let ops := [ Sign Demo.challenge Demo.request ] in
  keyed (state (fst s)) /\ keyed (state (fst (run_ops ops s))).
Proof.
  cbn zeta.
  assert (H1 : keyed (state (fst (Demo.session 5000000 Demo.t_0001)))).
  { intros k p. simpl. by rewrite lookup_empty. }
  split; [exact H1|].
  exact (pending_keyed_by_idempotency_key [Sign Demo.challenge Demo.request] _ H1).
Defined.

Lemma releasePayment_undoes_signature_witness :
  let s := Demo.session 5000000 Demo.t_0001 in
  let s1 := snd (Demo.signed_at 5000000 Demo.t_0001) in
  let key := SignedPayment.idempotencyKey Demo.signed_payment in
  signForChallenge Demo.challenge Demo.request s = (Ok Demo.signed_payment, s1)
  /\ pending s !! key = None
  /\ fst (releasePayment key s1) = Ok tt
  /\ state (fst (snd (releasePayment key s1))) = state (fst s)
  /\ available (snd (releasePayment key s1)) = available s.
Proof.
  cbn zeta.
  assert (H2 : pending (Demo.session 5000000 Demo.t_0001)
                 !! SignedPayment.idempotencyKey Demo.signed_payment = None)
    by apply lookup_empty.
  split; [exact demo_first_signature|]. split; [exact H2|].
  exact (releasePayment_undoes_signature _ _ _ _ _ demo_first_signature H2).
Defined.

Lemma commitPayment_charges_signed_amount_witness :
  let s := Demo.session 5000000 Demo.t_0001 in
  let s1 := snd (Demo.signed_at 5000000 Demo.t_0001) in
  let key := SignedPayment.idempotencyKey Demo.signed_payment in
  signForChallenge Demo.challenge Demo.request s = (Ok Demo.signed_payment, s1)
  /\ s1 <> s
  /\ fst (commitPayment key s1) = Ok tt
  /\ cumulative (snd (commitPayment key s1))
     = num_add (cumulative s) (Finite (PaymentChallenge.amountMicrousdc Demo.challenge))
  /\ pending (snd (commitPayment key s1)) = pending s
  /\ mirrored (snd (commitPayment key s1)).
Proof.
  cbn zeta.
  split; [exact demo_first_signature|]. split; [exact demo_signature_is_new|].
  exact (commitPayment_charges_signed_amount _ _ _ _ _
           demo_first_signature demo_signature_is_new).
Defined.

Lemma x402Fetch_passes_through_witness :
  let fetchImpl := Demo.transport Scenario.plain_200 None in
  let input := InputString Demo.url in
  let s : Session * list Call := (Demo.session 5000000 Demo.t_0001, []) in
  fetchImpl input Demo.get_compute 0%nat = (Ok Scenario.plain_200, 1%nat)
  /\ (Response.status Scenario.plain_200 <> 402
      \/ carries_payment Demo.get_compute = true
      \/ fst (extractChallenge Scenario.plain_200 tt) = Ok None)
  /\ x402Fetch fetchImpl input Demo.get_compute (s, 0%nat)
     = (Ok Scenario.plain_200, (s, 1%nat)).
Proof.
  cbn zeta.
  assert (H1 : Demo.transport Scenario.plain_200 None (InputString Demo.url)
                 Demo.get_compute 0%nat = (Ok Scenario.plain_200, 1%nat))
    by vm_reflexivity.
  assert (H2 : Response.status Scenario.plain_200 <> 402
               \/ carries_payment Demo.get_compute = true
               \/ fst (extractChallenge Scenario.plain_200 tt) = Ok None)
    by (left; discriminate).
  repeat (apply conj; [assumption|]).
  exact (x402Fetch_passes_through (S := Session * list Call)
           (Demo.transport Scenario.plain_200 None) (InputString Demo.url)
           Demo.get_compute _ 0%nat 1%nat (Ok Scenario.plain_200) H1 H2).
Defined.

Lemma x402Fetch_rethrows_signing_failure_witness :
  let fetchImpl := Demo.transport Demo.full_402 (Some 200) in
  let input := InputString Demo.url in
  let init := Demo.get_compute in
  let s0 := Demo.session 200000 Demo.t_0001 in
  let e := SpendLimitExceeded 250000 (Finite 200000) in
  fetchImpl input init 0%nat = (Ok Demo.full_402, 1%nat)
  /\ Response.status Demo.full_402 = 402
  /\ carries_payment init = false
  /\ fst (extractChallenge Demo.full_402 tt) = Ok (Some Demo.challenge)
  /\ signForChallenge Demo.challenge (request_context input init) s0 = (Throw e, s0)
  /\ x402Fetch fetchImpl input init ((s0, []), 0%nat)
     = (Throw e, ((s0, [CallSign Demo.challenge (request_context input init)]), 1%nat)).
Proof.
  cbn zeta. destruct demo_offer as (H1 & H2 & H3 & H4).
  assert (H5 : signForChallenge Demo.challenge
                 (request_context (InputString Demo.url) Demo.get_compute)
                 (Demo.session 200000 Demo.t_0001)
               = (Throw (SpendLimitExceeded 250000 (Finite 200000)),
                  Demo.session 200000 Demo.t_0001))
    by vm_reflexivity.
  repeat (apply conj; [assumption|]).
  exact (x402Fetch_rethrows_signing_failure
           (Demo.transport Demo.full_402 (Some 200)) (InputString Demo.url)
           Demo.get_compute _ _ [] 0%nat 1%nat Demo.full_402 Demo.challenge _
           H1 H2 H3 H4 H5).
Defined.

(** The signature of scenario S1, for the request context of the
    interceptor. *)
Lemma demo_context_signature :
  signForChallenge Demo.challenge (request_context (InputString Demo.url) Demo.get_compute)
    (Demo.session 5000000 Demo.t_0001)
  = (Ok Demo.signed_payment, snd (Demo.signed_at 5000000 Demo.t_0001)).
Proof. exact demo_first_signature. Qed.

Lemma x402Fetch_commits_paid_retry_witness :
  let fetchImpl := Demo.transport Demo.full_402 (Some 200) in
  let input := InputString Demo.url in
  let init := Demo.get_compute in
  let s0 := Demo.session 5000000 Demo.t_0001 in
  let s1 := snd (Demo.signed_at 5000000 Demo.t_0001) in
  let signed := Demo.signed_payment in
  let key := SignedPayment.idempotencyKey signed in
  let s2 := snd (commitPayment key s1) in
  fetchImpl input init 0%nat = (Ok Demo.full_402, 1%nat)
  /\ Response.status Demo.full_402 = 402
  /\ carries_payment init = false
  /\ fst (extractChallenge Demo.full_402 tt) = Ok (Some Demo.challenge)
  /\ signForChallenge Demo.challenge (request_context input init) s0 = (Ok signed, s1)
  /\ s1 <> s0
  /\ fetchImpl input (retry_init signed init) 1%nat = (Ok Scenario.paid_response, 2%nat)
  /\ Response.ok Scenario.paid_response = true
  /\ committed_key Scenario.paid_response signed = Some key
  /\ (x402Fetch fetchImpl input init ((s0, []), 0%nat)
      = (Ok Scenario.paid_response,
         ((s2, [CallCommit key; CallSign Demo.challenge (request_context input init)]),
          2%nat))
      /\ cumulative s2
         = num_add (cumulative s0)
             (Finite (PaymentChallenge.amountMicrousdc Demo.challenge))
      /\ pending s2 = pending s0).
Proof.
  cbn zeta. destruct demo_offer as (H1 & H2 & H3 & H4).
  pose proof demo_context_signature as H5.
  pose proof demo_signature_is_new as H6.
  assert (H7 : Demo.transport Demo.full_402 (Some 200) (InputString Demo.url)
                 (retry_init Demo.signed_payment Demo.get_compute) 1%nat
               = (Ok Scenario.paid_response, 2%nat)) by vm_reflexivity.
  assert (H8 : Response.ok Scenario.paid_response = true) by reflexivity.
  assert (H9 : committed_key Scenario.paid_response Demo.signed_payment
               = Some (SignedPayment.idempotencyKey Demo.signed_payment))
    by vm_reflexivity.
  repeat (apply conj; [assumption|]).
  exact (x402Fetch_commits_paid_retry
           (Demo.transport Demo.full_402 (Some 200)) (InputString Demo.url)
           Demo.get_compute _ _ [] 0%nat 1%nat 2%nat Demo.full_402 Scenario.paid_response
           Demo.challenge Demo.signed_payment H1 H2 H3 H4 H5 H6 H7 H8 H9).
Defined.

Lemma x402Fetch_unmatched_echo_settles_nothing_witness :
  let fetchImpl := Scenario.garbling_transport Demo.full_402 in
  let input := InputString Demo.url in
  let init := Demo.get_compute in
  let s0 := Demo.session 5000000 Demo.t_0001 in
  let s1 := snd (Demo.signed_at 5000000 Demo.t_0001) in
  let signed := Demo.signed_payment in
  let response :=
    Response.mk 200 (headers_set ∅ X402_PAYMENT_SIGNATURE_HEADER "not-base64") "" in
  fetchImpl input init 0%nat = (Ok Demo.full_402, 1%nat)
  /\ Response.status Demo.full_402 = 402
  /\ carries_payment init = false
  /\ fst (extractChallenge Demo.full_402 tt) = Ok (Some Demo.challenge)
  /\ signForChallenge Demo.challenge (request_context input init) s0 = (Ok signed, s1)
  /\ fetchImpl input (retry_init signed init) 1%nat = (Ok response, 2%nat)
  /\ Response.ok response = true
  /\ keyed (state (fst s0))
  /\ committed_key response signed = None
  /\ (x402Fetch fetchImpl input init ((s0, []), 0%nat)
      = (Throw MalformedPaymentHeader,
         ((s1, [CallSign Demo.challenge (request_context input init)]), 2%nat))
      /\ pending s1 !! SignedPayment.idempotencyKey signed = Some signed
      /\ cumulative s1 = cumulative s0).
Proof.
  cbn zeta. destruct demo_offer as (_ & H2 & H3 & H4).
  assert (H1 : Scenario.garbling_transport Demo.full_402 (InputString Demo.url)
                 Demo.get_compute 0%nat = (Ok Demo.full_402, 1%nat)) by vm_reflexivity.
  pose proof demo_context_signature as H5.
  assert (H6 : Scenario.garbling_transport Demo.full_402 (InputString Demo.url)
                 (retry_init Demo.signed_payment Demo.get_compute) 1%nat
               = (Ok (Response.mk 200
                        (headers_set ∅ X402_PAYMENT_SIGNATURE_HEADER "not-base64") ""),
                  2%nat)) by vm_reflexivity.
  assert (H7 : Response.ok (Response.mk 200
                  (headers_set ∅ X402_PAYMENT_SIGNATURE_HEADER "not-base64") "") = true)
    by reflexivity.
  assert (H8 : keyed (state (fst (Demo.session 5000000 Demo.t_0001)))).
  { intros k p. simpl. by rewrite lookup_empty. }
  assert (H9 : committed_key
                 (Response.mk 200
                    (headers_set ∅ X402_PAYMENT_SIGNATURE_HEADER "not-base64") "")
                 Demo.signed_payment = None) by vm_reflexivity.
  repeat (apply conj; [assumption|]).
  pose proof (x402Fetch_unmatched_echo_settles_nothing
                (Scenario.garbling_transport Demo.full_402) (InputString Demo.url)
                Demo.get_compute _ _ [] 0%nat 1%nat 2%nat Demo.full_402 _
                Demo.challenge Demo.signed_payment H1 H2 H3 H4 H5 H6 H7 H8) as Hthm.
  rewrite H9 in Hthm. exact (Hthm I).
Defined.

Lemma handle_issues_verifiable_challenge_witness :
  let request := Scenario.unpaid_request in
  let o := Demo.origin [] in
  let challenge := issued_challenge Demo.config ("/compute" ++ "?task=demo") "GET" o in
  parseUrl (IncomingMessage.href request) = Some ("/compute", "?task=demo")
  /\ payment_header request = None
  /\ handle Demo.config request o
     = (Ok (sendJson 402 (PaymentRequiredPayload challenge)
              [(X402_PAYMENT_REQUIRED_HEADER, buildPaymentRequiredHeaderValue challenge)]),
        after_draws 2 o)
  /\ verifyChallenge challenge (ServerConfig.challengeSecret Demo.config) = true.
Proof.
  cbn zeta.
  assert (H1 : parseUrl (IncomingMessage.href Scenario.unpaid_request)
               = Some ("/compute", "?task=demo")) by vm_reflexivity.
  assert (H2 : payment_header Scenario.unpaid_request = None) by vm_reflexivity.
  repeat (apply conj; [assumption|]).
  pose proof (handle_issues_verifiable_challenge Demo.config Scenario.unpaid_request
                (Demo.origin []) "?task=demo" H1 H2) as (Hh & Hv & _).
  split; [exact Hh|exact Hv].
Defined.





